(** * Disk scheduling algorithms (A4Q1.c): a shallow embedding and its properties

    The program computes, for a fixed number of pending cylinder requests, the
    service order and the total head movement of FCFS, SSTF, SCAN, C-SCAN,
    LOOK and C-LOOK.

    The C functions receive their arrays as pointers and declare local arrays
    ([Result r], [visited]); the embedding therefore runs in a small state and
    error monad over a block memory.  C [int] values are mathematical integers
    that must stay inside the 32-bit range: signed overflow is undefined
    behaviour in C and is a [Overflow] fault here, as are out-of-bounds
    accesses and reads of indeterminate cells.

    [main], [parse_direction] and [print_result] also write to the two output
    streams and may end the process; they run in a second monad over the
    memory, the text written to each stream, and the way the computation
    ends. *)

From stdpp Require Import base numbers list gmap sorting strings pretty.
From Stdlib Require Import Ascii.

Local Open Scope Z_scope.

(** ** Faults, memory and the monad *)

Inductive fault : Set :=
  | OutOfBounds     (* index outside the accessed array *)
  | Uninitialised   (* read of an indeterminate cell *)
  | Overflow        (* signed arithmetic left the range of int *)
  | Dangling        (* access through a pointer to no live array *)
  | OutOfFuel.      (* the iteration budget of a while loop ran out *)

(** A pointer to an array is the name of its block. *)
Definition block := positive.

(** A cell of an int array: [None] is an indeterminate value. *)
Definition cell := option Z.

(** Memory: the live arrays, by block. *)
Abbreviation mem := (gmap block (list cell)).

(** A computation either faults or returns a value and the memory it leaves. *)
Definition M (A : Type) : Type := mem → fault + (A * mem).

Global Instance M_ret : MRet M := λ A x m, inr (x, m).

Global Instance M_bind : MBind M := λ A B f c m,
  match c m with
  | inl e => inl e
  | inr (x, m') => f x m'
  end.

Definition raise {A} (e : fault) : M A := λ _, inl e.

Definition run {A} (c : M A) (m : mem) : fault + (A * mem) := c m.

(** ** C [int] arithmetic *)

Definition INT_MAX : Z := 2147483647.
Definition INT_MIN : Z := -2147483648.

(** The result of a signed operation: defined only inside the range of int. *)
Definition int_of (z : Z) : M Z :=
  if decide (INT_MIN ≤ z ≤ INT_MAX) then mret z else raise Overflow.

Definition int_add (a b : Z) : M Z := int_of (a + b).
Definition int_sub (a b : Z) : M Z := int_of (a - b).
(** [abs] of <stdlib.h>: undefined when the result is not representable. *)
Definition int_abs (a : Z) : M Z := int_of (Z.abs a).

(** ** Arrays in memory *)

(** [a[i]] as an rvalue. *)
Definition load (a : block) (i : Z) : M Z := λ m,
  match m !! a with
  | None => inl Dangling
  | Some cells =>
      if decide (0 ≤ i) then
        match cells !! Z.to_nat i with
        | None => inl OutOfBounds
        | Some None => inl Uninitialised
        | Some (Some v) => inr (v, m)
        end
      else inl OutOfBounds
  end.

(** [a[i] = v]. *)
Definition store (a : block) (i v : Z) : M () := λ m,
  match m !! a with
  | None => inl Dangling
  | Some cells =>
      if decide (0 ≤ i < Z.of_nat (length cells))
      then inr ((), <[a := <[Z.to_nat i := Some v]> cells]> m)
      else inl OutOfBounds
  end.

(** Declaration of a local array with the given initial cells. *)
Definition alloca (init : list cell) : M block := λ m,
  let b := fresh (dom m) in inr (b, <[b := init]> m).

(** End of the lifetime of a local array; its final cells are handed back
    (a struct holding the array is returned by value). *)
Definition leave (a : block) : M (list cell) := λ m,
  match m !! a with
  | None => inl Dangling
  | Some cells => inr (cells, delete a m)
  end.

(** ** Loops *)

(** [for (int i = lo; i < hi; i++) body], for a body that assigns neither
    [i] nor [hi]: exactly [max 0 (hi - lo)] iterations.  The counter stays
    at most [hi], an int, so [i++] cannot overflow. *)
Fixpoint for_up_from {S} (iters : nat) (i : Z) (body : Z → S → M S) (s : S) : M S :=
  match iters with
  | O => mret s
  | Datatypes.S k => s' ← body i s; for_up_from k (i + 1) body s'
  end.

Definition for_up {S} (lo hi : Z) (body : Z → S → M S) (s : S) : M S :=
  for_up_from (Z.to_nat (hi - lo)) lo body s.

(** [for (int i = hi; i >= lo; i--) body]: [max 0 (hi - lo + 1)] iterations;
    the counter stays at least [lo - 1] with [lo >= 0] at every use. *)
Fixpoint for_down_from {S} (iters : nat) (i : Z) (body : Z → S → M S) (s : S) : M S :=
  match iters with
  | O => mret s
  | Datatypes.S k => s' ← body i s; for_down_from k (i - 1) body s'
  end.

Definition for_down {S} (hi lo : Z) (body : Z → S → M S) (s : S) : M S :=
  for_down_from (Z.to_nat (hi - lo + 1)) hi body s.

(** [while (cond) body] with an iteration budget. *)
Fixpoint while {S} (fuel : nat) (cond : S → bool) (body : S → M S) (s : S) : M S :=
  if cond s then
    match fuel with
    | O => raise OutOfFuel
    | Datatypes.S k => s' ← body s; while k cond body s'
    end
  else mret s.

(** ** The program *)

(** [typedef enum { DIR_LEFT, DIR_RIGHT } Direction;] *)
Inductive Direction : Set := DIR_LEFT | DIR_RIGHT.

Global Instance Direction_eq_dec : EqDecision Direction.
Proof. solve_decision. Defined.

(** [Result]: [seq] holds the 50 cells of the struct's array. *)
Record Result : Type := mkResult {
  seq : list cell;
  len : Z;
  movement : Z
}.

(** Capacity of [Result.seq]. *)
Definition SEQ_CAPACITY : Z := 50.

(** The indeterminate array of a freshly declared [Result r]. *)
Definition fresh_seq : list cell := replicate (Z.to_nat SEQ_CAPACITY) None.

(** [compute_movement] *)
Definition compute_movement (seq : block) (len start : Z) : M Z :=
  '(head, total) ← for_up 0 len (λ i '(head, total),
      x ← load seq i;
      d ← int_sub x head;
      a ← int_abs d;
      total' ← int_add total a;
      head' ← load seq i;
      mret (head', total')) (start, 0);
  mret total.

(** [find_index]: the loop returns from inside its body. *)
Fixpoint find_index_from (iters : nat) (sorted : block) (n start i : Z) : M Z :=
  match iters with
  | O => mret n
  | Datatypes.S k =>
      x ← load sorted i;
      if decide (start ≤ x) then mret i
      else find_index_from k sorted n start (i + 1)
  end.

Definition find_index (sorted : block) (n start : Z) : M Z :=
  find_index_from (Z.to_nat n) sorted n start 0.

(** [r.seq[r.len++] = a[i]] *)
Definition emit_from (rseq a : block) (i : Z) (rlen : Z) : M Z :=
  x ← load a i;
  store rseq rlen x;;
  mret (rlen + 1).

(** [r.seq[r.len++] = v] *)
Definition emit (rseq : block) (v : Z) (rlen : Z) : M Z :=
  store rseq rlen v;;
  mret (rlen + 1).

(** [return r;] *)
Definition return_result (rseq : block) (rlen mv : Z) : M Result :=
  cells ← leave rseq;
  mret (mkResult cells rlen mv).

Section Program.

(** [#define NUM_CYLINDERS 300] and [#define NUM_REQUESTS 20] in the source;
    kept as parameters of the functions. *)
Variable NUM_CYLINDERS : Z.
Variable NUM_REQUESTS : Z.

(** [schedule_fcfs] *)
Definition schedule_fcfs (req : block) (start : Z) : M Result :=
  rseq ← alloca fresh_seq;
  let rlen := NUM_REQUESTS in
  for_up 0 NUM_REQUESTS (λ i (_ : ()),
      x ← load req i;
      store rseq i x) ();;
  mv ← compute_movement rseq rlen start;
  return_result rseq rlen mv.

(** The inner [for] of [schedule_sstf]; its state is [(bestDist, bestIdx)]. *)
Definition sstf_scan (req visited : block) (head : Z) : M (Z * Z) :=
  for_up 0 NUM_REQUESTS (λ i '(bestDist, bestIdx),
      v ← load visited i;
      if decide (v = 0) then
        x ← load req i;
        d0 ← int_sub x head;
        d ← int_abs d0;
        if decide (d < bestDist) then mret (d, i)
        else mret (bestDist, bestIdx)
      else mret (bestDist, bestIdx)) (1000000000, -1).

(** The body of the [while] of [schedule_sstf]; its state is [(head, count)]. *)
Definition sstf_step (req visited rseq : block) (st : Z * Z) : M (Z * Z) :=
  let '(head, count) := st in
  '(bestDist, bestIdx) ← sstf_scan req visited head;
  store visited bestIdx 1;;
  x ← load req bestIdx;
  store rseq count x;;
  head' ← load req bestIdx;
  mret (head', count + 1).

(** [schedule_sstf]; [fuel] bounds the iterations of its [while] loop,
    which [NUM_REQUESTS] iterations exhaust. *)
Definition schedule_sstf (fuel : nat) (req : block) (start : Z) : M Result :=
  rseq ← alloca fresh_seq;
  visited ← alloca (replicate (Z.to_nat NUM_REQUESTS) (Some 0));
  '(head, count) ← while fuel (λ st, bool_decide (st.2 < NUM_REQUESTS))
                      (sstf_step req visited rseq) (start, 0);
  let rlen := NUM_REQUESTS in
  mv ← compute_movement rseq rlen start;
  leave visited;;
  return_result rseq rlen mv.

(** [schedule_scan] *)
Definition schedule_scan (sorted : block) (start : Z) (dir : Direction) : M Result :=
  rseq ← alloca fresh_seq;
  let rlen := 0 in
  idx ← find_index sorted NUM_REQUESTS start;
  rlen ← match dir with
    | DIR_LEFT =>
        rlen ← for_down (idx - 1) 0 (emit_from rseq sorted) rlen;
        rlen ← emit rseq 0 rlen;
        for_up idx NUM_REQUESTS (emit_from rseq sorted) rlen
    | DIR_RIGHT =>
        rlen ← for_up idx NUM_REQUESTS (emit_from rseq sorted) rlen;
        rlen ← emit rseq (NUM_CYLINDERS - 1) rlen;
        for_down (idx - 1) 0 (emit_from rseq sorted) rlen
    end;
  mv ← compute_movement rseq rlen start;
  return_result rseq rlen mv.

(** [schedule_cscan] *)
Definition schedule_cscan (sorted : block) (start : Z) (dir : Direction) : M Result :=
  rseq ← alloca fresh_seq;
  let rlen := 0 in
  idx ← find_index sorted NUM_REQUESTS start;
  rlen ← match dir with
    | DIR_RIGHT =>
        rlen ← for_up idx NUM_REQUESTS (emit_from rseq sorted) rlen;
        rlen ← emit rseq (NUM_CYLINDERS - 1) rlen;
        rlen ← emit rseq 0 rlen;
        for_up 0 idx (emit_from rseq sorted) rlen
    | DIR_LEFT =>
        rlen ← for_down (idx - 1) 0 (emit_from rseq sorted) rlen;
        rlen ← emit rseq 0 rlen;
        rlen ← emit rseq (NUM_CYLINDERS - 1) rlen;
        for_down (NUM_REQUESTS - 1) idx (emit_from rseq sorted) rlen
    end;
  mv ← compute_movement rseq rlen start;
  return_result rseq rlen mv.

(** [schedule_look] *)
Definition schedule_look (sorted : block) (start : Z) (dir : Direction) : M Result :=
  rseq ← alloca fresh_seq;
  let rlen := 0 in
  idx ← find_index sorted NUM_REQUESTS start;
  rlen ← match dir with
    | DIR_LEFT =>
        rlen ← for_down (idx - 1) 0 (emit_from rseq sorted) rlen;
        for_up idx NUM_REQUESTS (emit_from rseq sorted) rlen
    | DIR_RIGHT =>
        rlen ← for_up idx NUM_REQUESTS (emit_from rseq sorted) rlen;
        for_down (idx - 1) 0 (emit_from rseq sorted) rlen
    end;
  mv ← compute_movement rseq rlen start;
  return_result rseq rlen mv.

(** [schedule_clook] *)
Definition schedule_clook (sorted : block) (start : Z) (dir : Direction) : M Result :=
  rseq ← alloca fresh_seq;
  let rlen := 0 in
  idx ← find_index sorted NUM_REQUESTS start;
  rlen ← match dir with
    | DIR_RIGHT =>
        rlen ← for_up idx NUM_REQUESTS (emit_from rseq sorted) rlen;
        for_up 0 idx (emit_from rseq sorted) rlen
    | DIR_LEFT =>
        rlen ← for_down (idx - 1) 0 (emit_from rseq sorted) rlen;
        for_down (NUM_REQUESTS - 1) idx (emit_from rseq sorted) rlen
    end;
  mv ← compute_movement rseq rlen start;
  return_result rseq rlen mv.

End Program.

(** ** The source's configuration *)

Module A4Q1.

Definition NUM_CYLINDERS : Z := 300.

Definition NUM_REQUESTS : Z := 20.

End A4Q1.

(** ** Specification-side notions *)

(** The cells of an array all of whose elements are initialised. *)
Definition cells_of (l : list Z) : list cell := Some <$> l.

(** The entries of a [Result] that are in use: the first [len] cells. *)
Definition entries (r : Result) : list cell := take (Z.to_nat (len r)) (seq r).

(** Sum of a list of integers. *)
Definition Zsum (l : list Z) : Z := foldr Z.add 0 l.

(** Head position before servicing entry [i] of [s]. *)
Definition head_before (s : list Z) (start : Z) (i : nat) : Z :=
  match i with
  | O => start
  | Datatypes.S j => default 0 (s !! j)
  end.

(** Total movement as the specification words it:
    the sum over [i] of [|s[i] - head_before_i|]. *)
Definition movement_sum (s : list Z) (start : Z) : Z :=
  Zsum (imap (λ i x, Z.abs (x - head_before s start i)) s).

(** The same sum, by recursion on the sequence. *)
Fixpoint travel (s : list Z) (head : Z) : Z :=
  match s with
  | [] => 0
  | x :: rest => Z.abs (x - head) + travel rest x
  end.

(** ** Pure counterparts of the loops *)

(** One iteration of the loop of [compute_movement]. *)
Definition movement_body (seq : block) (i : Z) (st : Z * Z) : M (Z * Z) :=
  let '(head, total) := st in
  x ← load seq i;
  d ← int_sub x head;
  a ← int_abs d;
  total' ← int_add total a;
  head' ← load seq i;
  mret (head', total').

(** [w] written from index 0 on, the rest still indeterminate. *)
Definition buffer (w : list Z) : list cell :=
  cells_of w ++ replicate (Z.to_nat SEQ_CAPACITY - length w) None.

(** Number of leading elements below [ref]: the value [find_index] computes. *)
Fixpoint split_index (l : list Z) (ref : Z) : nat :=
  match l with
  | [] => O
  | x :: rest => if decide (ref ≤ x) then O else Datatypes.S (split_index rest ref)
  end.

(** Requests below the split and requests at or above it. *)
Definition below (l : list Z) (start : Z) : list Z := take (split_index l start) l.
Definition above (l : list Z) (start : Z) : list Z := drop (split_index l start) l.

(** The service orders the four sweeps write, as list expressions. *)
Definition scan_order (NUM_CYLINDERS : Z) (l : list Z) (start : Z) (dir : Direction) : list Z :=
  match dir with
  | DIR_LEFT => reverse (below l start) ++ [0] ++ above l start
  | DIR_RIGHT => above l start ++ [NUM_CYLINDERS - 1] ++ reverse (below l start)
  end.

Definition cscan_order (NUM_CYLINDERS : Z) (l : list Z) (start : Z) (dir : Direction) : list Z :=
  match dir with
  | DIR_RIGHT => above l start ++ [NUM_CYLINDERS - 1; 0] ++ below l start
  | DIR_LEFT => reverse (below l start) ++ [0; NUM_CYLINDERS - 1] ++ reverse (above l start)
  end.

Definition look_order (l : list Z) (start : Z) (dir : Direction) : list Z :=
  match dir with
  | DIR_LEFT => reverse (below l start) ++ above l start
  | DIR_RIGHT => above l start ++ reverse (below l start)
  end.

Definition clook_order (l : list Z) (start : Z) (dir : Direction) : list Z :=
  match dir with
  | DIR_RIGHT => above l start ++ below l start
  | DIR_LEFT => reverse (below l start) ++ reverse (above l start)
  end.

(** What a function returns when it writes [out] and nothing overflows. *)
Definition outcome (out : list Z) (start : Z) (m : mem) : fault + (Result * mem) :=
  if decide (travel out start ≤ INT_MAX)
  then inr (mkResult (buffer out) (Z.of_nat (length out)) (travel out start), m)
  else inl Overflow.

(** ** SSTF: the selection and its specification *)

(** A valid cylinder number of a disk with [C] cylinders. *)
Definition cylinder (C x : Z) : Prop := 0 ≤ x < C.

Global Instance cylinder_dec C x : Decision (cylinder C x).
Proof. unfold cylinder. apply _. Defined.

(** Seek distance from [head] to the request at index [i]. *)
Definition seek (req : list Z) (head : Z) (i : nat) : Z :=
  Z.abs (default 0 (req !! i) - head).

(** The cylinder of the request at index [i]. *)
Definition request (l : list Z) (i : nat) : Z := default 0 (l !! i).

(** The [visited] array once the requests at indices [picks] are serviced. *)
Definition marks (n : nat) (picks : list nat) : list Z :=
  (λ j, if decide (j ∈ picks) then 1 else 0) <$> List.seq 0 n.

(** One iteration of the inner loop of [schedule_sstf] on [(bestDist, bestIdx)]. *)
Definition scan_step (req : list Z) (picks : list nat) (head : Z)
    (best : Z * Z) (i : nat) : Z * Z :=
  if decide (i ∈ picks) then best
  else if decide (seek req head i < best.1) then (seek req head i, Z.of_nat i)
  else best.

(** The inner loop over the indices below [n]. *)
Definition scan (req : list Z) (picks : list nat) (head : Z) (n : nat) : Z * Z :=
  foldl (scan_step req picks head) (1000000000, -1) (List.seq 0 n).

(** The indices [schedule_sstf] services in [k] further rounds. *)
Fixpoint sstf_picks (req : list Z) (k : nat) (picks : list nat) (head : Z) : list nat :=
  match k with
  | O => []
  | Datatypes.S k' =>
      let i := Z.to_nat (scan req picks head (length req)).2 in
      i :: sstf_picks req k' (picks ++ [i]) (default 0 (req !! i))
  end.

(** The service order of SSTF: the cylinders of the indices it services. *)
Definition sstf_order (req : list Z) (start : Z) : list Z :=
  (λ i, default 0 (req !! i)) <$> sstf_picks req (length req) [] start.

(** The request SSTF must take next, in the specification's words: an
    unserviced request at minimal distance from the head, and among those
    the one that arrived first. *)
Definition sstf_choice (req : list Z) (picks : list nat) (head : Z) (i : nat) : Prop :=
  (i < length req)%nat ∧ (i ∉ picks) ∧
  (∀ j, (j < length req)%nat → j ∉ picks →
     seek req head i ≤ seek req head j ∧ (seek req head j = seek req head i → (i ≤ j)%nat)).

(** A run of greedy selections from the head position [head] with the
    requests at [picks] already serviced; the head moves to each selection. *)
Inductive sstf_trace (req : list Z) : list nat → Z → list nat → Prop :=
  | sstf_trace_nil picks head : sstf_trace req picks head []
  | sstf_trace_cons picks head i rest :
      sstf_choice req picks head i →
      sstf_trace req (picks ++ [i]) (default 0 (req !! i)) rest →
      sstf_trace req picks head (i :: rest).

(** What the inner loop has found after the indices below [n]. *)
Definition scan_found (req : list Z) (picks : list nat) (head : Z) (n : nat)
    (best : Z * Z) : Prop :=
  (best = (1000000000, -1) ∧
   (∀ j, (j < n)%nat → j ∉ picks → 1000000000 ≤ seek req head j)) ∨
  (∃ i, best = (seek req head i, Z.of_nat i) ∧
        (i < n)%nat ∧ (i ∉ picks) ∧ seek req head i < 1000000000 ∧
        (∀ j, (j < n)%nat → j ∉ picks → seek req head i ≤ seek req head j) ∧
        (∀ j, (j < i)%nat → j ∉ picks → seek req head i < seek req head j)).

(** Invariant of the outer loop of SSTF on the indices serviced so far. *)
Definition serviced (l : list Z) (picks : list nat) : Prop :=
  NoDup picks ∧ Forall (λ p, (p < length l)%nat) picks.

(** One iteration of the inner loop, as in [sstf_scan]. *)
Definition sstf_scan_body (req visited : block) (head : Z) (i : Z) (best : Z * Z)
    : M (Z * Z) :=
  let '(bestDist, bestIdx) := best in
  v ← load visited i;
  if decide (v = 0) then
    x ← load req i;
    d0 ← int_sub x head;
    d ← int_abs d0;
    if decide (d < bestDist) then mret (d, i)
    else mret (bestDist, bestIdx)
  else mret (bestDist, bestIdx).

(** Memory while the outer loop of SSTF runs: [w] written to [r.seq], the
    requests at [picks] marked in [visited]. *)
Definition sstf_mem (m : mem) (l : list Z) (rseq visited : block)
    (w : list Z) (picks : list nat) : mem :=
  <[rseq := buffer w]> (<[visited := cells_of (marks (length l) picks)]> m).

(** The states [(head, count)] and memories the outer loop of
    [schedule_sstf] passes through, from the state and memory at loop entry. *)
Inductive sstf_reachable (NUM_REQUESTS : Z) (req visited rseq : block)
    (st0 : Z * Z) (m0 : mem) : Z * Z → mem → Prop :=
  | sstf_reach_entry : sstf_reachable NUM_REQUESTS req visited rseq st0 m0 st0 m0
  | sstf_reach_iteration st mm st' mm' :
      sstf_reachable NUM_REQUESTS req visited rseq st0 m0 st mm →
      st.2 < NUM_REQUESTS →
      run (sstf_step NUM_REQUESTS req visited rseq st) mm = inr (st', mm') →
      sstf_reachable NUM_REQUESTS req visited rseq st0 m0 st' mm'.

(** ** Configurations, valid inputs and the six calls *)

(** What the configuration constants must satisfy for the program to be
    well defined: the array [visited] has a positive size, a [Result] can
    hold the requests and two boundary entries, and no movement total of
    that many cylinder-to-cylinder seeks leaves the range of int. *)
Definition config_ok (NUM_CYLINDERS NUM_REQUESTS : Z) : Prop :=
  0 < NUM_REQUESTS ∧ NUM_REQUESTS + 2 ≤ SEQ_CAPACITY ∧
  0 < NUM_CYLINDERS ∧ (NUM_REQUESTS + 2) * (NUM_CYLINDERS - 1) ≤ INT_MAX.

Global Instance config_ok_dec C N : Decision (config_ok C N).
Proof. unfold config_ok. apply _. Defined.

(** The six scheduling functions. *)
Inductive algorithm : Set := FCFS | SSTF | SCAN | CSCAN | LOOK | CLOOK.

(** The six calls of [main]: FCFS and SSTF on the requests in arrival order,
    the sweeps on the sorted copy with the direction. *)
Definition schedule (NUM_CYLINDERS NUM_REQUESTS : Z) (fuel : nat) (alg : algorithm)
    (req sorted : block) (start : Z) (dir : Direction) : M Result :=
  match alg with
  | FCFS => schedule_fcfs NUM_REQUESTS req start
  | SSTF => schedule_sstf NUM_REQUESTS fuel req start
  | SCAN => schedule_scan NUM_CYLINDERS NUM_REQUESTS sorted start dir
  | CSCAN => schedule_cscan NUM_CYLINDERS NUM_REQUESTS sorted start dir
  | LOOK => schedule_look NUM_REQUESTS sorted start dir
  | CLOOK => schedule_clook NUM_REQUESTS sorted start dir
  end.

(** The service order each call writes. *)
Definition service_order (NUM_CYLINDERS : Z) (alg : algorithm)
    (reqs srt : list Z) (start : Z) (dir : Direction) : list Z :=
  match alg with
  | FCFS => reqs
  | SSTF => sstf_order reqs start
  | SCAN => scan_order NUM_CYLINDERS srt start dir
  | CSCAN => cscan_order NUM_CYLINDERS srt start dir
  | LOOK => look_order srt start dir
  | CLOOK => clook_order srt start dir
  end.

(** The synthetic boundary entries a call emits. *)
Definition boundary_entries (NUM_CYLINDERS : Z) (alg : algorithm) (dir : Direction) : list Z :=
  match alg, dir with
  | SCAN, DIR_LEFT => [0]
  | SCAN, DIR_RIGHT => [NUM_CYLINDERS - 1]
  | CSCAN, DIR_RIGHT => [NUM_CYLINDERS - 1; 0]
  | CSCAN, DIR_LEFT => [0; NUM_CYLINDERS - 1]
  | _, _ => []
  end.

(** A valid input, laid out in memory as [main] prepares it: [NUM_REQUESTS]
    cylinder numbers in arrival order in one array, their ascending
    rearrangement in another, and a head position on the disk. *)
Record valid_input (NUM_CYLINDERS NUM_REQUESTS : Z) (m : mem) (req sorted : block)
    (reqs srt : list Z) (start : Z) : Prop := {
  valid_req : m !! req = Some (cells_of reqs);
  valid_sorted : m !! sorted = Some (cells_of srt);
  valid_count : Z.of_nat (length reqs) = NUM_REQUESTS;
  valid_cylinders : Forall (cylinder NUM_CYLINDERS) reqs;
  valid_perm : srt ≡ₚ reqs;
  valid_ascending : Sorted Z.le srt;
  valid_start : cylinder NUM_CYLINDERS start
}.

(** A sequence of calls on the same input arrays, in the given order. *)
Fixpoint invoke_all (NUM_CYLINDERS NUM_REQUESTS : Z) (fuel : nat) (req sorted : block)
    (start : Z) (calls : list (algorithm * Direction)) : M (list Result) :=
  match calls with
  | [] => mret []
  | (alg, dir) :: rest =>
      r ← schedule NUM_CYLINDERS NUM_REQUESTS fuel alg req sorted start dir;
      rs ← invoke_all NUM_CYLINDERS NUM_REQUESTS fuel req sorted start rest;
      mret (r :: rs)
  end.

(** The disk edge a sweep in direction [dir] runs to. *)
Definition edge (NUM_CYLINDERS : Z) (dir : Direction) : Z :=
  match dir with
  | DIR_LEFT => 0
  | DIR_RIGHT => NUM_CYLINDERS - 1
  end.

(** The total movement a call reports, if it returns. *)
Definition movement_of (res : fault + (Result * mem)) : option Z :=
  match res with
  | inr (r, _) => Some (movement r)
  | inl _ => None
  end.

(** ** Concrete inputs *)

(** Twenty requests in arrival order, and their sorted copy, in the arrays
    [req] (block 1) and [sorted] (block 2). *)
Definition sample_requests : list Z :=
  [98; 183; 37; 122; 14; 124; 65; 67; 255; 12;
   199; 83; 260; 3; 150; 47; 210; 75; 290; 131].

Definition sample_sorted : list Z :=
  [3; 12; 14; 37; 47; 65; 67; 75; 83; 98;
   122; 124; 131; 150; 183; 199; 210; 255; 260; 290].

Definition sample_mem : mem :=
  {[ 1%positive := cells_of sample_requests; 2%positive := cells_of sample_sorted ]}.

(** Requests that include cylinder 0 but not cylinder 299, with the head
    starting on cylinder 299. *)
Definition edge_sorted : list Z :=
  [0; 12; 14; 37; 47; 65; 67; 75; 83; 98;
   122; 124; 131; 150; 183; 199; 210; 255; 260; 290].

Definition edge_mem : mem := {[ 2%positive := cells_of edge_sorted ]}.

(** The eight requests of the specification's SSTF example. *)
Definition fixture_requests : list Z := [98; 183; 37; 122; 14; 124; 65; 67].

Definition fixture_mem : mem := {[ 1%positive := cells_of fixture_requests ]}.

(** A sequence of valid cylinders of a 300-cylinder disk, moving the head
    from 0 to 299 and back [k] times. *)
Fixpoint zigzag (k : nat) : list Z :=
  match k with
  | O => []
  | Datatypes.S k' => 299 :: 0 :: zigzag k'
  end.

(** ** Reading past the initialised cells of an array *)

(** The fault of reading the cell that follows the initialised cells of an
    array, [rest] being the cells from there on: past the end of the array
    when there is none, indeterminate otherwise. *)
Definition read_past (rest : list cell) : fault :=
  match rest with
  | [] => OutOfBounds
  | _ :: _ => Uninitialised
  end.

(** ** The comparator and the library sort *)

(** A pointer to an element of an int array: the array and the index. *)
Definition ptr : Type := block * Z.

(** [cmp_int]: a relational operator of C yields 1 or 0. *)
Definition cmp_int (a b : ptr) : M Z :=
  x ← load a.1 a.2;
  y ← load b.1 b.2;
  int_sub (Z.b2z (x >? y)) (Z.b2z (x <? y)).

(** Exchange of the elements [i] and [j] of an array. *)
Definition swap (base : block) (i j : Z) : M () :=
  x ← load base i;
  y ← load base j;
  store base i y;;
  store base j x.

(** The element at index [j] sinks towards the front while [compar] puts
    its left neighbour after it. *)
Fixpoint sift (base : block) (compar : ptr → ptr → M Z) (j : nat) : M () :=
  match j with
  | O => mret ()
  | Datatypes.S j' =>
      c ← compar (base, Z.of_nat j') (base, Z.of_nat j);
      if decide (0 < c) then
        swap base (Z.of_nat j') (Z.of_nat j);;
        sift base compar j'
      else mret ()
  end.

(** [qsort] of <stdlib.h> on an int array.  The C standard fixes its result
    (the elements rearranged into ascending order according to [compar]) and
    not its algorithm; the library routine is represented by an insertion
    sort that compares elements only through [compar]. *)
Definition qsort (base : block) (nmemb : Z) (compar : ptr → ptr → M Z) : M () :=
  for_up 1 nmemb (λ i (_ : ()), sift base compar (Z.to_nat i)) ().

(** [memcpy] of [n] ints between two distinct arrays; indeterminate cells
    are copied as they are. *)
Definition memcpy (dst src : block) (n : Z) : M () := λ m,
  match m !! dst, m !! src with
  | Some d, Some s =>
      if decide (0 ≤ n ≤ Z.of_nat (length d) ∧ n ≤ Z.of_nat (length s))
      then inr ((), <[dst := take (Z.to_nat n) s ++ drop (Z.to_nat n) d]> m)
      else inl OutOfBounds
  | _, _ => inl Dangling
  end.

(** ** Strings and numerals of the C library *)

(** The newline character and the text of one line break. *)
Definition nl : string := String "010"%char EmptyString.

(** [strcmp]: zero for equal strings, otherwise the sign of the difference
    of the first two characters that differ. *)
Fixpoint strcmp (s t : string) : Z :=
  match s, t with
  | EmptyString, EmptyString => 0
  | EmptyString, String _ _ => -1
  | String _ _, EmptyString => 1
  | String a s', String b t' =>
      if decide (a = b) then strcmp s' t'
      else Z.of_N (N_of_ascii a) - Z.of_N (N_of_ascii b)
  end.

(** The decimal digits at the front of [s], read as a number that continues
    [acc]. *)
Fixpoint digits (acc : Z) (s : string) : Z :=
  match s with
  | String c s' =>
      match Ascii.is_nat c with
      | Some d => digits (10 * acc + Z.of_nat d) s'
      | None => acc
      end
  | EmptyString => acc
  end.

Fixpoint skip_spaces (s : string) : string :=
  match s with
  | String c s' => if Ascii.is_space c then skip_spaces s' else s
  | EmptyString => s
  end.

(** The number [atoi] reads: leading white space is skipped, a sign may
    follow, then decimal digits; whatever follows the digits is ignored, and
    no digits at all give 0. *)
Definition atoi_value (s : string) : Z :=
  match skip_spaces s with
  | String "-"%char s' => - digits 0 s'
  | String "+"%char s' => digits 0 s'
  | s' => digits 0 s'
  end.

(** [atoi] of <stdlib.h>: undefined when the number is not representable. *)
Definition atoi (s : string) : M Z := int_of (atoi_value s).

(** ** The process: memory, the two output streams, and termination *)

Record world : Type := mkWorld {
  heap : mem;
  stdout : string;
  stderr : string
}.

(** How a computation of the process ends: it returns to its caller, the
    process terminates through [exit], or the behaviour is undefined. *)
Inductive ending (A : Type) : Type :=
  | Returned (x : A) (w : world)
  | Exited (status : Z) (w : world)
  | Undefined (e : fault).

Arguments Returned {A} x w.
Arguments Exited {A} status w.
Arguments Undefined {A} e.

Definition P (A : Type) : Type := world → ending A.

Global Instance P_ret : MRet P := λ A x w, Returned x w.

Global Instance P_bind : MBind P := λ A B f c w,
  match c w with
  | Returned x w' => f x w'
  | Exited status w' => Exited status w'
  | Undefined e => Undefined e
  end.

(** A computation on memory, inside the process. *)
Definition lift {A} (c : M A) : P A := λ w,
  match c (heap w) with
  | inl e => Undefined e
  | inr (x, h) => Returned x (mkWorld h (stdout w) (stderr w))
  end.

(** [printf] with its conversions already substituted into [text]. *)
Definition printf (text : string) : P () := λ w,
  Returned () (mkWorld (heap w) (stdout w +:+ text) (stderr w)).

(** [fprintf(stderr, ...)] *)
Definition fprintf_stderr (text : string) : P () := λ w,
  Returned () (mkWorld (heap w) (stdout w) (stderr w +:+ text)).

(** [perror(s)], [reason] being the message of the current [errno]. *)
Definition perror (s reason : string) : P () :=
  fprintf_stderr (s +:+ ": " +:+ reason +:+ nl).

(** [exit(status)] *)
Definition exit {A} (status : Z) : P A := λ w, Exited status w.

(** [for (int i = lo; i < hi; i++) body] in the process. *)
Fixpoint P_for_up_from (iters : nat) (i : Z) (body : Z → P ()) : P () :=
  match iters with
  | O => mret ()
  | Datatypes.S k => body i;; P_for_up_from k (i + 1) body
  end.

Definition P_for_up (lo hi : Z) (body : Z → P ()) : P () :=
  P_for_up_from (Z.to_nat (hi - lo)) lo body.

(** [a[i]] as an rvalue, for the array member [a] of a struct held by value. *)
Definition member (a : list cell) (i : Z) : P Z := λ w,
  if decide (0 ≤ i) then
    match a !! Z.to_nat i with
    | None => Undefined OutOfBounds
    | Some None => Undefined Uninitialised
    | Some (Some v) => Returned v w
    end
  else Undefined OutOfBounds.

(** The files of the environment: what [fopen] for reading finds under a
    name, either the message of the error or the ints the file holds. *)
Definition files : Type := string → string + list Z.

(** [fread(buf, sizeof(int), count, fp)]: the complete items read are stored
    from [buf[0]] on; their number and the rest of the stream are returned. *)
Definition fread (buf : block) (count : Z) (fp : list Z) : M (Z * list Z) := λ m,
  let got := take (Z.to_nat count) fp in
  match m !! buf with
  | None => inl Dangling
  | Some cells =>
      if decide (length got ≤ length cells)%nat
      then inr ((Z.of_nat (length got), drop (length got) fp),
                <[buf := cells_of got ++ drop (length got) cells]> m)
      else inl OutOfBounds
  end.

(** [fclose(fp)]: nothing of the stream is observed afterwards. *)
Definition fclose (fp : list Z) : P () := mret ().

(** [parse_direction] *)
Definition parse_direction (s : string) : P Direction :=
  if decide (strcmp s "LEFT" = 0) then mret DIR_LEFT
  else if decide (strcmp s "RIGHT" = 0) then mret DIR_RIGHT
  else
    fprintf_stderr ("ERROR: Direction must be LEFT or RIGHT." +:+ nl);;
    exit 1.

(** [print_result]; [r.len - 1] is formed only inside the loop, where
    [r.len] is at least 1. *)
Definition print_result (name : string) (r : Result) : P () :=
  printf (name +:+ " DISK SCHEDULING ALGORITHM:" +:+ nl +:+ nl);;
  P_for_up 0 (len r) (λ i,
      x ← member (seq r) i;
      printf (pretty x);;
      if decide (i < len r - 1) then printf ", " else mret ());;
  printf (nl +:+ nl +:+ name +:+ " - Total head movements = " +:+
          pretty (movement r) +:+ nl +:+ nl).

Section Main.

Variable NUM_CYLINDERS : Z.
Variable NUM_REQUESTS : Z.

(** [main], with [argc] the length of [argv]; [fuel] is the iteration budget
    handed to [schedule_sstf]. *)
Definition main (fuel : nat) (fs : files) (argv : list string) : P Z :=
  let argc := Z.of_nat (length argv) in
  if decide (argc ≠ 3) then
    fprintf_stderr ("Usage: ./A4Q1 <initial> <LEFT|RIGHT>" +:+ nl);;
    mret 1
  else
    start ← lift (atoi (default EmptyString (argv !! 1%nat)));
    if decide (start < 0 ∨ start >= NUM_CYLINDERS) then
      fprintf_stderr ("ERROR: Initial head must be between 0 and 299." +:+ nl);;
      mret 1
    else
      dir ← parse_direction (default EmptyString (argv !! 2%nat));
      req ← lift (alloca (replicate (Z.to_nat NUM_REQUESTS) None));
      match fs "request.bin" with
      | inl reason =>
          perror "ERROR opening request.bin" reason;;
          lift (leave req);;
          mret 1
      | inr fp =>
          '(got, fp) ← lift (fread req NUM_REQUESTS fp);
          if decide (got ≠ NUM_REQUESTS) then
            fprintf_stderr ("ERROR: Could not read all requests." +:+ nl);;
            lift (leave req);;
            mret 1
          else
            fclose fp;;
            sorted ← lift (alloca (replicate (Z.to_nat NUM_REQUESTS) None));
            lift (memcpy sorted req NUM_REQUESTS);;
            lift (qsort sorted NUM_REQUESTS cmp_int);;
            printf ("Total requests = " +:+ pretty NUM_REQUESTS +:+ nl);;
            printf ("Initial Head Position: " +:+ pretty start +:+ nl);;
            printf ("Direction of Head: " +:+
                    (if decide (dir = DIR_LEFT) then "LEFT" else "RIGHT") +:+ nl +:+ nl);;
            r ← lift (schedule_fcfs NUM_REQUESTS req start);
            print_result "FCFS" r;;
            r ← lift (schedule_sstf NUM_REQUESTS fuel req start);
            print_result "SSTF" r;;
            r ← lift (schedule_scan NUM_CYLINDERS NUM_REQUESTS sorted start dir);
            print_result "SCAN" r;;
            r ← lift (schedule_cscan NUM_CYLINDERS NUM_REQUESTS sorted start dir);
            print_result "C-SCAN" r;;
            r ← lift (schedule_look NUM_REQUESTS sorted start dir);
            print_result "LOOK" r;;
            r ← lift (schedule_clook NUM_REQUESTS sorted start dir);
            print_result "C-LOOK" r;;
            lift (leave sorted);;
            lift (leave req);;
            mret 0
      end.

End Main.

(** ** What the program prints *)

(** The name [main] prints for a direction. *)
Definition direction_name (dir : Direction) : string :=
  if decide (dir = DIR_LEFT) then "LEFT" else "RIGHT".

(** The name under which [main] prints the result of each call. *)
Definition algorithm_name (alg : algorithm) : string :=
  match alg with
  | FCFS => "FCFS"
  | SSTF => "SSTF"
  | SCAN => "SCAN"
  | CSCAN => "C-SCAN"
  | LOOK => "LOOK"
  | CLOOK => "C-LOOK"
  end.

(** The block of text for one result: a heading, the service order with
    its entries separated by a comma and a space, and the total. *)
Definition result_text (name : string) (out : list Z) (mv : Z) : string :=
  name +:+ " DISK SCHEDULING ALGORITHM:" +:+ nl +:+ nl +:+
  String.concat ", " (pretty <$> out) +:+
  nl +:+ nl +:+ name +:+ " - Total head movements = " +:+ pretty mv +:+ nl +:+ nl.

(** The block of text for the call of one algorithm. *)
Definition schedule_text (C : Z) (reqs srt : list Z) (start : Z) (dir : Direction)
    (alg : algorithm) : string :=
  let out := service_order C alg reqs srt start dir in
  result_text (algorithm_name alg) out (movement_sum out start).

(** The whole output of a successful run. *)
Definition report (C N : Z) (reqs srt : list Z) (start : Z) (dir : Direction) : string :=
  "Total requests = " +:+ pretty N +:+ nl +:+
  "Initial Head Position: " +:+ pretty start +:+ nl +:+
  "Direction of Head: " +:+ direction_name dir +:+ nl +:+ nl +:+
  schedule_text C reqs srt start dir FCFS +:+
  schedule_text C reqs srt start dir SSTF +:+
  schedule_text C reqs srt start dir SCAN +:+
  schedule_text C reqs srt start dir CSCAN +:+
  schedule_text C reqs srt start dir LOOK +:+
  schedule_text C reqs srt start dir CLOOK.

(** The diagnostic of the first check of [main] that fails, if any: the
    argument count, the range of the initial position, the direction, the
    opening of the file, the number of requests read. *)
Definition complaint (C N : Z) (fs : files) (argv : list string) : option string :=
  if decide (length argv ≠ 3%nat) then
    Some ("Usage: ./A4Q1 <initial> <LEFT|RIGHT>" +:+ nl)
  else if decide (¬ cylinder C (atoi_value (default EmptyString (argv !! 1%nat)))) then
    Some ("ERROR: Initial head must be between 0 and 299." +:+ nl)
  else if decide (default EmptyString (argv !! 2%nat) ≠ "LEFT" ∧
                  default EmptyString (argv !! 2%nat) ≠ "RIGHT") then
    Some ("ERROR: Direction must be LEFT or RIGHT." +:+ nl)
  else
    match fs "request.bin" with
    | inl reason => Some ("ERROR opening request.bin: " +:+ reason +:+ nl)
    | inr items =>
        if decide (Z.of_nat (length items) < N)
        then Some ("ERROR: Could not read all requests." +:+ nl)
        else None
    end.

(** ** Pure counterparts of the library sort *)

(** [x] inserted into the descending list [ra]. *)
Fixpoint ins (x : Z) (ra : list Z) : list Z :=
  match ra with
  | [] => [x]
  | y :: ra' => if decide (x < y) then y :: ins x ra' else x :: ra
  end.

(** The array after the insertion sort has worked through [T], the
    elements before [T] being the reverse of the descending list [ra]. *)
Fixpoint isort (ra T : list Z) : list Z :=
  match T with
  | [] => reverse ra
  | x :: T' => isort (ins x ra) T'
  end.

(** ** Argument strings *)

(** [s] is empty or begins with a character that is not a decimal digit. *)
Definition no_leading_digit (s : string) : Prop :=
  match s with
  | EmptyString => True
  | String c _ => Ascii.is_nat c = None
  end.

(** [s] is empty or begins with a character that is neither white space,
    nor a sign, nor a decimal digit. *)
Definition no_leading_number (s : string) : Prop :=
  match s with
  | EmptyString => True
  | String c _ =>
      Ascii.is_space c = false ∧ c ≠ "-"%char ∧ c ≠ "+"%char ∧ Ascii.is_nat c = None
  end.

(** * Lemmas and theorems *)

(** ** Running monadic code *)

Lemma run_ret {A} (x : A) m : run (mret x) m = inr (x, m).
Proof. reflexivity. Qed.

Lemma run_bind {A B} (c : M A) (f : A → M B) m :
  run (c ≫= f) m =
  match run c m with
  | inl e => inl e
  | inr (x, m') => run (f x) m'
  end.
Proof. reflexivity. Qed.

Lemma run_bind_ok {A B} (c : M A) (f : A → M B) m x m' :
  run c m = inr (x, m') → run (c ≫= f) m = run (f x) m'.
Proof. intros H. rewrite run_bind, H. reflexivity. Qed.

Lemma run_int_of z m :
  run (int_of z) m = if decide (INT_MIN ≤ z ≤ INT_MAX) then inr (z, m) else inl Overflow.
Proof. unfold int_of. case_decide; reflexivity. Qed.

Lemma run_int_of_ok z m : INT_MIN ≤ z ≤ INT_MAX → run (int_of z) m = inr (z, m).
Proof. intros H. rewrite run_int_of. rewrite decide_True; auto. Qed.

Lemma run_load a i m cells v :
  m !! a = Some cells → 0 ≤ i → cells !! Z.to_nat i = Some (Some v) →
  run (load a i) m = inr (v, m).
Proof.
  intros Ha Hi Hc. unfold run, load. rewrite Ha.
  rewrite decide_True by done. rewrite Hc. reflexivity.
Qed.

Lemma run_store a i v m cells :
  m !! a = Some cells → 0 ≤ i < Z.of_nat (length cells) →
  run (store a i v) m = inr ((), <[a := <[Z.to_nat i := Some v]> cells]> m).
Proof.
  intros Ha Hi. unfold run, store. rewrite Ha.
  rewrite decide_True by done. reflexivity.
Qed.

Lemma run_leave a m cells :
  m !! a = Some cells → run (leave a) m = inr (cells, delete a m).
Proof. intros Ha. unfold run, leave. rewrite Ha. reflexivity. Qed.

Lemma lookup_cells_of l i : cells_of l !! i = Some <$> (l !! i).
Proof. apply list_lookup_fmap. Qed.

Lemma length_cells_of l : length (cells_of l) = length l.
Proof. apply length_fmap. Qed.

(** ** The movement accumulator *)

Lemma imap_head_before_cons (x : Z) rest start :
  imap (λ i y, Z.abs (y - head_before (x :: rest) start (Datatypes.S i))) rest =
  imap (λ i y, Z.abs (y - head_before rest x i)) rest.
Proof.
  apply imap_ext. intros i y Hy. destruct i as [|i]; simpl; reflexivity.
Qed.

Lemma movement_sum_travel s start : movement_sum s start = travel s start.
Proof.
  revert start. induction s as [|x rest IH]; intros start; [reflexivity|].
  unfold movement_sum in *. rewrite imap_cons. simpl.
  unfold compose. rewrite imap_head_before_cons, IH. reflexivity.
Qed.

Lemma travel_nonneg s head : 0 ≤ travel s head.
Proof.
  revert head. induction s as [|x rest IH]; intros head; simpl; [lia|].
  specialize (IH x). lia.
Qed.

Lemma last_cons (x : Z) rest d : List.last (x :: rest) d = List.last rest x.
Proof.
  revert x d. induction rest as [|y r IH]; intros x d; [reflexivity|].
  change (List.last (x :: y :: r) d) with (List.last (y :: r) d).
  rewrite (IH y d), (IH y x). reflexivity.
Qed.

Lemma travel_app s1 s2 head :
  travel (s1 ++ s2) head = travel s1 head + travel s2 (List.last s1 head).
Proof.
  revert head. induction s1 as [|x rest IH]; intros head; [simpl; lia|].
  change ((x :: rest) ++ s2) with (x :: (rest ++ s2)).
  cbn [travel]. rewrite IH, last_cons. lia.
Qed.

Lemma run_movement_body a i m cells x head total :
  m !! a = Some cells → 0 ≤ i → cells !! Z.to_nat i = Some (Some x) →
  0 ≤ total ≤ INT_MAX →
  run (movement_body a i (head, total)) m =
  if decide (total + Z.abs (x - head) ≤ INT_MAX)
  then inr ((x, total + Z.abs (x - head)), m) else inl Overflow.
Proof.
  intros Ha Hi Hc Ht. unfold movement_body.
  rewrite (run_bind_ok _ _ _ _ _ (run_load _ _ _ _ _ Ha Hi Hc)).
  unfold int_sub, int_abs, int_add.
  rewrite run_bind, run_int_of.
  destruct (decide (INT_MIN ≤ x - head ≤ INT_MAX)) as [Hd|Hd].
  - rewrite run_bind, run_int_of.
    destruct (decide (INT_MIN ≤ Z.abs (x - head) ≤ INT_MAX)) as [Hb|Hb].
    + rewrite run_bind, run_int_of.
      destruct (decide (INT_MIN ≤ total + Z.abs (x - head) ≤ INT_MAX)) as [Hs|Hs].
      * rewrite (run_bind_ok _ _ _ _ _ (run_load _ _ _ _ _ Ha Hi Hc)).
        rewrite decide_True by lia. reflexivity.
      * rewrite decide_False; [reflexivity|]. unfold INT_MIN, INT_MAX in *. lia.
    + rewrite decide_False; [reflexivity|]. unfold INT_MIN, INT_MAX in *. lia.
  - rewrite decide_False; [reflexivity|]. unfold INT_MIN, INT_MAX in *. lia.
Qed.

Lemma run_movement_loop a m cells w :
  m !! a = Some cells →
  ∀ i head total,
    0 ≤ i → 0 ≤ total ≤ INT_MAX →
    take (length w) (drop (Z.to_nat i) cells) = cells_of w →
    run (for_up_from (length w) i (movement_body a) (head, total)) m =
    if decide (total + travel w head ≤ INT_MAX)
    then inr ((List.last w head, total + travel w head), m) else inl Overflow.
Proof.
  intros Ha. induction w as [|x rest IH]; intros i head total Hi Ht Hw.
  - simpl. rewrite decide_True by lia. rewrite Z.add_0_r. reflexivity.
  - assert (Hx : cells !! Z.to_nat i = Some (Some x)).
    { assert (E : take (length (x :: rest)) (drop (Z.to_nat i) cells) !! 0%nat = Some (Some x))
        by (rewrite Hw; reflexivity).
      rewrite lookup_take_lt in E by (simpl; lia).
      rewrite lookup_drop in E. rewrite Nat.add_0_r in E. exact E. }
    cbn [length for_up_from]. rewrite run_bind.
    rewrite (run_movement_body _ _ _ _ _ _ _ Ha Hi Hx Ht).
    pose proof (travel_nonneg rest x) as Hnn.
    destruct (decide (total + Z.abs (x - head) ≤ INT_MAX)) as [Hs|Hs].
    + rewrite IH; [| lia | lia |].
      * cbn [travel]. rewrite last_cons.
        destruct (decide (total + Z.abs (x - head) + travel rest x ≤ INT_MAX)).
        -- rewrite decide_True by lia. f_equal. f_equal. f_equal. lia.
        -- rewrite decide_False by lia. reflexivity.
      * replace (Z.to_nat (i + 1)) with (Datatypes.S (Z.to_nat i)) by lia.
        cbn [length] in Hw.
        erewrite drop_S in Hw by exact Hx. cbn [take] in Hw.
        unfold cells_of in Hw. rewrite fmap_cons in Hw. by inversion Hw.
    + cbn [travel]. rewrite decide_False by lia. reflexivity.
Qed.

Lemma run_compute_movement a m cells w start :
  m !! a = Some cells → take (length w) cells = cells_of w →
  run (compute_movement a (Z.of_nat (length w)) start) m =
  if decide (travel w start ≤ INT_MAX)
  then inr (travel w start, m) else inl Overflow.
Proof.
  intros Ha Hw. unfold compute_movement, for_up.
  replace (Z.to_nat (Z.of_nat (length w) - 0)) with (length w) by lia.
  rewrite run_bind.
  change (for_up_from (length w) 0 _ (start, 0))
    with (for_up_from (length w) 0 (movement_body a) (start, 0)).
  rewrite (run_movement_loop a m cells w Ha 0 start 0); [| lia | unfold INT_MAX; lia | exact Hw].
  rewrite Z.add_0_l. case_decide; reflexivity.
Qed.

(** ** The array of a [Result] under construction *)

Lemma buffer_nil : buffer [] = fresh_seq.
Proof. reflexivity. Qed.

Lemma length_buffer w :
  (length w ≤ Z.to_nat SEQ_CAPACITY)%nat → length (buffer w) = Z.to_nat SEQ_CAPACITY.
Proof.
  intros H. unfold buffer. rewrite length_app, length_cells_of, length_replicate. lia.
Qed.

Lemma take_buffer w : take (length w) (buffer w) = cells_of w.
Proof. unfold buffer. apply take_app_length'. by rewrite length_cells_of. Qed.

Lemma buffer_snoc w v :
  (length w < Z.to_nat SEQ_CAPACITY)%nat →
  <[length w := Some v]> (buffer w) = buffer (w ++ [v]).
Proof.
  intros H. unfold buffer.
  rewrite <- (length_cells_of w) at 1.
  rewrite <- (Nat.add_0_r (length (cells_of w))).
  rewrite insert_app_r.
  destruct (Z.to_nat SEQ_CAPACITY - length w)%nat as [|k] eqn:E; [lia|].
  rewrite length_app. cbn [length].
  replace (Z.to_nat SEQ_CAPACITY - (length w + 1))%nat with k by lia.
  unfold cells_of. rewrite fmap_app. cbn. rewrite <- app_assoc. reflexivity.
Qed.

Section Emit.

Variable m0 : mem.
Variable rseq : block.

Lemma run_emit w v :
  (length w < Z.to_nat SEQ_CAPACITY)%nat →
  run (emit rseq v (Z.of_nat (length w))) (<[rseq := buffer w]> m0) =
  inr (Z.of_nat (length (w ++ [v])), <[rseq := buffer (w ++ [v])]> m0).
Proof.
  intros H. unfold emit.
  erewrite run_bind_ok.
  2:{ eapply run_store; [apply lookup_insert_eq|]. rewrite length_buffer; lia. }
  rewrite insert_insert_eq, Nat2Z.id, buffer_snoc by done.
  rewrite run_ret, length_app. cbn [length]. do 2 f_equal. lia.
Qed.

Variable a : block.
Variable l : list Z.
Hypothesis Ha : m0 !! a = Some (cells_of l).
Hypothesis Hne : rseq ≠ a.

Lemma run_emit_from w i x :
  0 ≤ i → l !! Z.to_nat i = Some x →
  (length w < Z.to_nat SEQ_CAPACITY)%nat →
  run (emit_from rseq a i (Z.of_nat (length w))) (<[rseq := buffer w]> m0) =
  inr (Z.of_nat (length (w ++ [x])), <[rseq := buffer (w ++ [x])]> m0).
Proof.
  intros Hi Hx H. unfold emit_from.
  erewrite run_bind_ok.
  2:{ eapply run_load; [rewrite lookup_insert_ne by done; exact Ha | done |].
      rewrite lookup_cells_of, Hx. reflexivity. }
  apply (run_emit w x H).
Qed.

Lemma run_for_up_emit n :
  ∀ i w,
    0 ≤ i → (Z.to_nat i + n ≤ length l)%nat →
    (length w + n ≤ Z.to_nat SEQ_CAPACITY)%nat →
    let chunk := take n (drop (Z.to_nat i) l) in
    run (for_up_from n i (emit_from rseq a) (Z.of_nat (length w)))
        (<[rseq := buffer w]> m0) =
    inr (Z.of_nat (length (w ++ chunk)), <[rseq := buffer (w ++ chunk)]> m0).
Proof.
  induction n as [|n IH]; intros i w Hi Hl Hw chunk; subst chunk.
  - cbn [take for_up_from]. rewrite app_nil_r. reflexivity.
  - destruct (lookup_lt_is_Some_2 l (Z.to_nat i)) as [x Hx]; [lia|].
    cbn [for_up_from]. erewrite run_bind_ok by (apply run_emit_from; [done|exact Hx|lia]).
    rewrite IH; [| lia | lia | rewrite length_app; cbn [length]; lia].
    replace (Z.to_nat (i + 1)) with (Datatypes.S (Z.to_nat i)) by lia.
    erewrite (drop_S l x (Z.to_nat i)) by exact Hx. cbn [take].
    rewrite <- app_assoc. reflexivity.
Qed.

Lemma run_for_down_emit n :
  ∀ i w,
    Z.of_nat n ≤ i + 1 → i < Z.of_nat (length l) →
    (length w + n ≤ Z.to_nat SEQ_CAPACITY)%nat →
    let chunk := reverse (take n (drop (Z.to_nat (i + 1) - n) l)) in
    run (for_down_from n i (emit_from rseq a) (Z.of_nat (length w)))
        (<[rseq := buffer w]> m0) =
    inr (Z.of_nat (length (w ++ chunk)), <[rseq := buffer (w ++ chunk)]> m0).
Proof.
  induction n as [|n IH]; intros i w Hi Hl Hw chunk; subst chunk.
  - cbn [take reverse for_down_from]. rewrite app_nil_r. reflexivity.
  - destruct (lookup_lt_is_Some_2 l (Z.to_nat i)) as [x Hx]; [lia|].
    cbn [for_down_from]. erewrite run_bind_ok by (apply run_emit_from; [lia|exact Hx|lia]).
    rewrite IH; [| lia | lia | rewrite length_app; cbn [length]; lia].
    replace (Z.to_nat (i + 1) - Datatypes.S n)%nat with (Z.to_nat (i - 1 + 1) - n)%nat by lia.
    erewrite (take_S_r _ n x).
    2:{ rewrite lookup_drop. rewrite <- Hx. f_equal. lia. }
    rewrite reverse_app. cbn. rewrite <- app_assoc. reflexivity.
Qed.

End Emit.

(** ** The split index *)

Lemma split_index_le l ref : (split_index l ref ≤ length l)%nat.
Proof. induction l as [|x rest IH]; simpl; [lia|]. case_decide; lia. Qed.

Lemma split_index_below l ref i x :
  (i < split_index l ref)%nat → l !! i = Some x → x < ref.
Proof.
  revert i. induction l as [|y rest IH]; intros i Hi Hx; simpl in *; [lia|].
  case_decide; [lia|]. destruct i as [|i]; simpl in Hx.
  - inversion Hx; subst. lia.
  - apply (IH i); [lia | done].
Qed.

Lemma run_find_index_from a m l n ref :
  m !! a = Some (cells_of l) → n = Z.of_nat (length l) →
  ∀ rest i,
    0 ≤ i ≤ n → drop (Z.to_nat i) l = rest →
    run (find_index_from (length rest) a n ref i) m =
    inr (i + Z.of_nat (split_index rest ref), m).
Proof.
  intros Ha Hn. induction rest as [|x rest IH]; intros i Hi Hd.
  - cbn [length find_index_from split_index]. rewrite run_ret.
    assert (length (drop (Z.to_nat i) l) = 0%nat) as E by (rewrite Hd; done).
    rewrite length_drop in E. do 2 f_equal. lia.
  - cbn [length find_index_from split_index].
    assert (Hx : l !! Z.to_nat i = Some x).
    { rewrite <- (Nat.add_0_r (Z.to_nat i)), <- lookup_drop, Hd. reflexivity. }
    pose proof (lookup_lt_Some _ _ _ Hx) as Hlt.
    erewrite run_bind_ok.
    2:{ eapply run_load; [exact Ha | lia |]. rewrite lookup_cells_of, Hx. reflexivity. }
    case_decide.
    + rewrite run_ret. do 2 f_equal. lia.
    + rewrite IH; [do 2 f_equal; lia | lia |].
      replace (Z.to_nat (i + 1)) with (Datatypes.S (Z.to_nat i)) by lia.
      erewrite drop_S in Hd by exact Hx. by inversion Hd.
Qed.

Lemma run_find_index a m l ref :
  m !! a = Some (cells_of l) →
  run (find_index a (Z.of_nat (length l)) ref) m =
  inr (Z.of_nat (split_index l ref), m).
Proof.
  intros Ha. unfold find_index. rewrite Nat2Z.id.
  rewrite (run_find_index_from a m l _ ref Ha eq_refl l 0); [reflexivity | lia | reflexivity].
Qed.

(** ** The four sweeps *)

Lemma below_above l start : below l start ++ above l start = l.
Proof. apply take_drop. Qed.

Lemma length_below_above l start :
  (length (below l start) + length (above l start) = length l)%nat.
Proof. rewrite <- length_app, below_above. reflexivity. Qed.

Lemma run_alloca init m :
  run (alloca init) m = inr (fresh (dom m), <[fresh (dom m) := init]> m).
Proof. reflexivity. Qed.

Lemma mem_insert_swap (m : mem) a b x y :
  a ≠ b → <[a := x]> (<[b := y]> m) = <[b := y]> (<[a := x]> m).
Proof. apply insert_insert_ne. Qed.

Lemma fresh_block_unused (m : mem) : m !! fresh (dom m) = None.
Proof. apply not_elem_of_dom, is_fresh. Qed.

Section Sweep.

Variable NUM_REQUESTS : Z.
Variable m : mem.
Variable sorted : block.
Variable l : list Z.
Variable start : Z.
Hypothesis Hsorted : m !! sorted = Some (cells_of l).
Hypothesis Hlen : Z.of_nat (length l) = NUM_REQUESTS.

Variable rseq : block.
Hypothesis Hfresh : m !! rseq = None.

Lemma rseq_not_sorted : rseq ≠ sorted.
Proof. intros ->. rewrite Hfresh in Hsorted. done. Qed.

Lemma emit_below_descending w :
  (length w + length (below l start) ≤ Z.to_nat SEQ_CAPACITY)%nat →
  run (for_down (Z.of_nat (split_index l start) - 1) 0 (emit_from rseq sorted)
         (Z.of_nat (length w)))
      (<[rseq := buffer w]> m) =
  inr (Z.of_nat (length (w ++ reverse (below l start))),
       <[rseq := buffer (w ++ reverse (below l start))]> m).
Proof.
  intros Hw. pose proof (split_index_le l start) as Hk.
  unfold below in *. rewrite length_take in Hw.
  unfold for_down.
  replace (Z.to_nat (Z.of_nat (split_index l start) - 1 - 0 + 1))
    with (split_index l start) by lia.
  rewrite (run_for_down_emit m rseq sorted l Hsorted rseq_not_sorted); [| lia | lia | lia].
  replace (Z.to_nat (Z.of_nat (split_index l start) - 1 + 1) - split_index l start)%nat
    with 0%nat by lia.
  reflexivity.
Qed.

Lemma emit_above_ascending w :
  (length w + length (above l start) ≤ Z.to_nat SEQ_CAPACITY)%nat →
  run (for_up (Z.of_nat (split_index l start)) NUM_REQUESTS (emit_from rseq sorted)
         (Z.of_nat (length w)))
      (<[rseq := buffer w]> m) =
  inr (Z.of_nat (length (w ++ above l start)),
       <[rseq := buffer (w ++ above l start)]> m).
Proof.
  intros Hw. pose proof (split_index_le l start) as Hk.
  unfold above in *. rewrite length_drop in Hw.
  unfold for_up. rewrite <- Hlen.
  rewrite (run_for_up_emit m rseq sorted l Hsorted rseq_not_sorted); [| lia | lia | lia].
  rewrite Nat2Z.id. rewrite take_ge; [reflexivity|]. rewrite length_drop. lia.
Qed.

Lemma emit_below_ascending w :
  (length w + length (below l start) ≤ Z.to_nat SEQ_CAPACITY)%nat →
  run (for_up 0 (Z.of_nat (split_index l start)) (emit_from rseq sorted) (Z.of_nat (length w)))
      (<[rseq := buffer w]> m) =
  inr (Z.of_nat (length (w ++ below l start)),
       <[rseq := buffer (w ++ below l start)]> m).
Proof.
  intros Hw. pose proof (split_index_le l start) as Hk.
  unfold below in *. rewrite length_take in Hw.
  unfold for_up.
  rewrite (run_for_up_emit m rseq sorted l Hsorted rseq_not_sorted); [| lia | lia | lia].
  replace (Z.to_nat (Z.of_nat (split_index l start) - 0)) with (split_index l start) by lia.
  reflexivity.
Qed.

Lemma emit_above_descending w :
  (length w + length (above l start) ≤ Z.to_nat SEQ_CAPACITY)%nat →
  run (for_down (NUM_REQUESTS - 1) (Z.of_nat (split_index l start)) (emit_from rseq sorted)
         (Z.of_nat (length w)))
      (<[rseq := buffer w]> m) =
  inr (Z.of_nat (length (w ++ reverse (above l start))),
       <[rseq := buffer (w ++ reverse (above l start))]> m).
Proof.
  intros Hw. pose proof (split_index_le l start) as Hk.
  unfold above in *. rewrite length_drop in Hw.
  unfold for_down. rewrite <- Hlen.
  rewrite (run_for_down_emit m rseq sorted l Hsorted rseq_not_sorted); [| lia | lia | lia].
  replace (Z.to_nat (Z.of_nat (length l) - 1 + 1) -
           Z.to_nat (Z.of_nat (length l) - 1 - Z.of_nat (split_index l start) + 1))%nat
    with (split_index l start) by lia.
  rewrite take_ge; [reflexivity|]. rewrite length_drop. lia.
Qed.

(** The tail shared by the six functions: movement of what was written,
    then the struct is returned and the local array dies. *)
Lemma run_finish out :
  run (mv ← compute_movement rseq (Z.of_nat (length out)) start;
       return_result rseq (Z.of_nat (length out)) mv)
      (<[rseq := buffer out]> m) =
  if decide (travel out start ≤ INT_MAX)
  then inr (mkResult (buffer out) (Z.of_nat (length out)) (travel out start), m)
  else inl Overflow.
Proof.
  rewrite run_bind.
  rewrite (run_compute_movement rseq _ (buffer out) out start);
    [| apply lookup_insert_eq | apply take_buffer].
  case_decide; [|reflexivity].
  unfold return_result. erewrite run_bind_ok by (apply run_leave, lookup_insert_eq).
  rewrite run_ret, delete_insert_eq, delete_id by done. reflexivity.
Qed.

End Sweep.

Lemma run_bind_assoc {A B C} (c : M A) (f : A → M B) (g : B → M C) m :
  run ((c ≫= f) ≫= g) m = run (c ≫= λ x, f x ≫= g) m.
Proof. rewrite !run_bind. destruct (run c m) as [e|[x m']]; reflexivity. Qed.

Lemma run_finish_as out out' start m rseq :
  m !! rseq = None → out' = out →
  run (mv ← compute_movement rseq (Z.of_nat (length out')) start;
       return_result rseq (Z.of_nat (length out')) mv)
      (<[rseq := buffer out']> m) = outcome out start m.
Proof. intros Hf ->. apply run_finish, Hf. Qed.

Ltac sweep_sizes :=
  repeat rewrite ?length_app, ?length_reverse; cbn [length]; lia.

Ltac sweep_segment Hs Hl Hf :=
  first
    [ erewrite run_bind_ok by (apply (emit_below_descending _ _ _ _ Hs _ Hf); sweep_sizes)
    | erewrite run_bind_ok by (apply (emit_above_ascending _ _ _ _ _ Hs Hl _ Hf); sweep_sizes)
    | erewrite run_bind_ok by (apply (emit_below_ascending _ _ _ _ Hs _ Hf); sweep_sizes)
    | erewrite run_bind_ok by (apply (emit_above_descending _ _ _ _ _ Hs Hl _ Hf); sweep_sizes)
    | erewrite run_bind_ok by (apply run_emit; sweep_sizes) ].

Ltac sweep_run Hs Hl Hf :=
  repeat (rewrite ?run_bind_assoc; sweep_segment Hs Hl Hf);
  apply run_finish_as; [exact Hf|];
  cbn [app]; rewrite <- ?app_assoc; reflexivity.

Section SweepRuns.

Variable NUM_CYLINDERS : Z.
Variable NUM_REQUESTS : Z.
Variable m : mem.
Variable sorted : block.
Variable l : list Z.
Variable start : Z.
Hypothesis Hsorted : m !! sorted = Some (cells_of l).
Hypothesis Hlen : Z.of_nat (length l) = NUM_REQUESTS.
Hypothesis Hcap : NUM_REQUESTS + 2 ≤ SEQ_CAPACITY.

Lemma run_sweep_prologue (k : block → Z → Z → M Result) R :
  (∀ rseq, m !! rseq = None →
     run (k rseq (Z.of_nat (split_index l start)) (Z.of_nat (length (@nil Z))))
         (<[rseq := buffer []]> m) = R) →
  run (rseq ← alloca fresh_seq;
       idx ← find_index sorted NUM_REQUESTS start;
       k rseq idx 0) m = R.
Proof.
  intros Hk. pose proof (fresh_block_unused m) as Hf.
  rewrite run_bind, run_alloca.
  erewrite run_bind_ok.
  2:{ rewrite <- Hlen. apply run_find_index.
      rewrite lookup_insert_ne; [exact Hsorted | intros E; rewrite E, Hsorted in Hf; done]. }
  apply Hk, Hf.
Qed.

Lemma run_schedule_scan dir :
  run (schedule_scan NUM_CYLINDERS NUM_REQUESTS sorted start dir) m =
  outcome (scan_order NUM_CYLINDERS l start dir) start m.
Proof.
  pose proof (length_below_above l start) as Hba.
  unfold schedule_scan.
  apply (run_sweep_prologue (λ rseq idx rlen, _ ≫= _)). intros rseq Hf.
  destruct dir; sweep_run Hsorted Hlen Hf.
Qed.

Lemma run_schedule_cscan dir :
  run (schedule_cscan NUM_CYLINDERS NUM_REQUESTS sorted start dir) m =
  outcome (cscan_order NUM_CYLINDERS l start dir) start m.
Proof.
  pose proof (length_below_above l start) as Hba.
  unfold schedule_cscan.
  apply (run_sweep_prologue (λ rseq idx rlen, _ ≫= _)). intros rseq Hf.
  destruct dir; sweep_run Hsorted Hlen Hf.
Qed.

Lemma run_schedule_look dir :
  run (schedule_look NUM_REQUESTS sorted start dir) m =
  outcome (look_order l start dir) start m.
Proof.
  pose proof (length_below_above l start) as Hba.
  unfold schedule_look.
  apply (run_sweep_prologue (λ rseq idx rlen, _ ≫= _)). intros rseq Hf.
  destruct dir; sweep_run Hsorted Hlen Hf.
Qed.

Lemma run_schedule_clook dir :
  run (schedule_clook NUM_REQUESTS sorted start dir) m =
  outcome (clook_order l start dir) start m.
Proof.
  pose proof (length_below_above l start) as Hba.
  unfold schedule_clook.
  apply (run_sweep_prologue (λ rseq idx rlen, _ ≫= _)). intros rseq Hf.
  destruct dir; sweep_run Hsorted Hlen Hf.
Qed.

End SweepRuns.

(** ** FCFS *)

Lemma run_fcfs_copy m rseq req l :
  m !! req = Some (cells_of l) → m !! rseq = None →
  ∀ n w,
    (length w + n ≤ length l)%nat → (length l ≤ Z.to_nat SEQ_CAPACITY)%nat →
    w = take (length w) l →
    run (for_up_from n (Z.of_nat (length w))
           (λ i (_ : ()), x ← load req i; store rseq i x) ())
        (<[rseq := buffer w]> m) =
    inr ((), <[rseq := buffer (take (length w + n) l)]> m).
Proof.
  intros Hreq Hf. induction n as [|n IH]; intros w Hn Hcap Hw.
  - cbn [for_up_from]. rewrite Nat.add_0_r, <- Hw. reflexivity.
  - destruct (lookup_lt_is_Some_2 l (length w)) as [x Hx]; [lia|].
    cbn [for_up_from]. rewrite run_bind.
    erewrite run_bind_ok.
    2:{ eapply run_load; [|lia|].
        - rewrite lookup_insert_ne; [exact Hreq | intros E; rewrite E, Hreq in Hf; done].
        - rewrite lookup_cells_of, Nat2Z.id, Hx. reflexivity. }
    erewrite run_store; [| apply lookup_insert_eq | rewrite length_buffer; lia].
    rewrite insert_insert_eq, Nat2Z.id, buffer_snoc by lia.
    assert (Hw' : w ++ [x] = take (length (w ++ [x])) l).
    { rewrite length_app. cbn [length]. rewrite Nat.add_1_r.
      erewrite take_S_r by exact Hx. rewrite <- Hw. reflexivity. }
    replace (Z.of_nat (length w) + 1) with (Z.of_nat (length (w ++ [x])))
      by (rewrite length_app; cbn [length]; lia).
    rewrite IH; [| rewrite length_app; cbn [length]; lia | done | exact Hw'].
    rewrite length_app. cbn [length].
    replace (length w + 1 + n)%nat with (length w + Datatypes.S n)%nat by lia.
    reflexivity.
Qed.

Lemma run_schedule_fcfs NUM_REQUESTS m req l start :
  m !! req = Some (cells_of l) →
  Z.of_nat (length l) = NUM_REQUESTS → NUM_REQUESTS ≤ SEQ_CAPACITY →
  run (schedule_fcfs NUM_REQUESTS req start) m = outcome l start m.
Proof.
  intros Hreq Hlen Hcap. pose proof (fresh_block_unused m) as Hf.
  unfold schedule_fcfs. rewrite run_bind, run_alloca.
  set (rseq := fresh (dom m)) in *.
  rewrite <- buffer_nil. unfold for_up.
  erewrite run_bind_ok.
  2:{ apply (run_fcfs_copy m rseq req l Hreq Hf _ []); [cbn [length]; lia | lia | reflexivity]. }
  cbn [length]. rewrite Nat.add_0_l.
  replace (Z.to_nat (NUM_REQUESTS - 0)) with (length l) by lia.
  rewrite firstn_all, <- Hlen. apply run_finish, Hf.
Qed.

(** ** SSTF *)

Lemma lookup_marks n picks j :
  (j < n)%nat → marks n picks !! j = Some (if decide (j ∈ picks) then 1 else 0).
Proof.
  intros Hj. unfold marks. rewrite list_lookup_fmap, lookup_seq_lt by done. reflexivity.
Qed.

Lemma length_marks n picks : length (marks n picks) = n.
Proof. unfold marks. rewrite length_fmap, length_seq. reflexivity. Qed.

Lemma marks_pick n picks i :
  <[i := 1]> (marks n picks) = marks n (picks ++ [i]).
Proof.
  apply list_eq. intros j.
  destruct (decide (j < n)%nat) as [Hj|Hj].
  - rewrite (lookup_marks n (picks ++ [i]) j Hj).
    destruct (decide (i = j)) as [->|Hne].
    + rewrite list_lookup_insert_eq by (rewrite length_marks; done).
      rewrite decide_True; [done|]. apply elem_of_app. right. apply list_elem_of_singleton. done.
    + rewrite list_lookup_insert_ne, lookup_marks by done.
      destruct (decide (j ∈ picks)) as [Hp|Hp].
      * rewrite decide_True; [done|]. apply elem_of_app. by left.
      * rewrite decide_False; [done|]. rewrite elem_of_app, list_elem_of_singleton.
        intros [?|?]; [done|]. by subst.
  - rewrite !lookup_ge_None_2; [done | | ]; rewrite ?length_insert, length_marks; lia.
Qed.

Lemma seek_lookup req head i x :
  req !! i = Some x → seek req head i = Z.abs (x - head).
Proof. unfold seek. intros ->. reflexivity. Qed.

Lemma seek_bound C req head i :
  Forall (cylinder C) req → cylinder C head → (i < length req)%nat →
  0 ≤ seek req head i < C.
Proof.
  intros Hreq Hh Hi. unfold seek.
  destruct (lookup_lt_is_Some_2 req i Hi) as [x Hx]. rewrite Hx. cbn.
  pose proof (Forall_lookup_1 _ _ _ _ Hreq Hx) as Hc. unfold cylinder in *. lia.
Qed.

Lemma scan_S req picks head n :
  scan req picks head (Datatypes.S n) =
  scan_step req picks head (scan req picks head n) n.
Proof. unfold scan. rewrite seq_S, foldl_app. reflexivity. Qed.

Lemma scan_found_scan req picks head n :
  scan_found req picks head n (scan req picks head n).
Proof.
  induction n as [|n IH].
  - left. split; [reflexivity|]. intros j Hj. lia.
  - rewrite scan_S. unfold scan_step.
    destruct IH as [[E H]|(i & E & Hi & Hp & Hd & Hmin & Hfst)]; rewrite E; cbn [fst].
    + destruct (decide (n ∈ picks)) as [Hin|Hin]; [|case_decide].
      * left. split; [done|]. intros j Hj Hjp.
        destruct (decide (j = n)) as [->|]; [done|]. apply H; [lia|done].
      * right. exists n. split; [done|]. split; [lia|]. split; [done|]. split; [done|].
        split; intros j Hj Hjp.
        -- destruct (decide (j = n)) as [->|]; [lia|].
           pose proof (H j ltac:(lia) Hjp). lia.
        -- pose proof (H j ltac:(lia) Hjp). lia.
      * left. split; [done|]. intros j Hj Hjp.
        destruct (decide (j = n)) as [->|]; [lia|]. apply H; [lia|done].
    + destruct (decide (n ∈ picks)) as [Hin|Hin]; [|case_decide].
      * right. exists i. split; [done|]. split; [lia|]. split; [done|]. split; [done|].
        split; [|done]. intros j Hj Hjp.
        destruct (decide (j = n)) as [->|]; [done|]. apply Hmin; [lia|done].
      * right. exists n. split; [done|]. split; [lia|]. split; [done|]. split; [lia|].
        split; intros j Hj Hjp.
        -- destruct (decide (j = n)) as [->|]; [lia|].
           pose proof (Hmin j ltac:(lia) Hjp). lia.
        -- pose proof (Hmin j ltac:(lia) Hjp). lia.
      * right. exists i. split; [done|]. split; [lia|]. split; [done|]. split; [done|].
        split; [|done]. intros j Hj Hjp.
        destruct (decide (j = n)) as [->|]; [lia|]. apply Hmin; [lia|done].
Qed.

Lemma unserviced_exists n (picks : list nat) :
  NoDup picks → (length picks < n)%nat → ∃ j, (j < n)%nat ∧ j ∉ picks.
Proof.
  intros Hnd Hlen.
  destruct (decide (Forall (λ j, j ∈ picks) (List.seq 0 n))) as [Hall|Hex].
  - exfalso.
    assert (List.seq 0 n ⊆+ picks) as Hsub.
    { apply NoDup_submseteq; [apply NoDup_seq|].
      intros j Hj. rewrite Forall_forall in Hall. by apply Hall. }
    apply submseteq_length in Hsub. rewrite length_seq in Hsub. lia.
  - apply not_Forall_Exists in Hex; [|apply _].
    apply Exists_exists in Hex as (j & Hj & Hnot).
    exists j. split; [|done]. apply elem_of_seq in Hj. lia.
Qed.

Section Sstf.

Variable C : Z.
Variable l : list Z.
Hypothesis Hreq : Forall (cylinder C) l.
Hypothesis Hsentinel : C ≤ 1000000000.

Lemma scan_choice picks head :
  cylinder C head → NoDup picks → (length picks < length l)%nat →
  let i := Z.to_nat (scan l picks head (length l)).2 in
  scan l picks head (length l) = (seek l head i, Z.of_nat i) ∧
  sstf_choice l picks head i.
Proof.
  intros Hh Hnd Hlen.
  destruct (unserviced_exists (length l) picks Hnd Hlen) as (j0 & Hj0 & Hp0).
  pose proof (seek_bound C l head j0 Hreq Hh Hj0) as Hb0.
  destruct (scan_found_scan l picks head (length l))
    as [[E H]|(i & E & Hi & Hp & Hd & Hmin & Hfst)].
  - pose proof (H j0 Hj0 Hp0). lia.
  - rewrite E. cbn [snd]. rewrite Nat2Z.id. split; [reflexivity|].
    split; [done|]. split; [done|]. intros j Hj Hjp. split; [by apply Hmin|].
    intros Heq. destruct (decide (j < i)%nat) as [Hlt|]; [|lia].
    pose proof (Hfst j Hlt Hjp). lia.
Qed.

Lemma serviced_snoc picks i :
  serviced l picks → (i < length l)%nat → i ∉ picks → serviced l (picks ++ [i]).
Proof.
  intros [Hnd Hall] Hi Hp. split.
  - apply NoDup_app. split; [done|]. split; [|apply NoDup_singleton].
    intros x Hx Hx'. apply list_elem_of_singleton in Hx'. by subst.
  - apply Forall_app. split; [done|]. by apply Forall_singleton.
Qed.

Lemma request_cylinder i :
  (i < length l)%nat → cylinder C (default 0 (l !! i)).
Proof.
  intros Hi. destruct (lookup_lt_is_Some_2 l i Hi) as [x Hx]. rewrite Hx. cbn.
  exact (Forall_lookup_1 _ _ _ _ Hreq Hx).
Qed.

Lemma sstf_picks_spec k :
  ∀ picks head,
    cylinder C head → serviced l picks → (length picks + k ≤ length l)%nat →
    let rest := sstf_picks l k picks head in
    length rest = k ∧ serviced l (picks ++ rest) ∧ sstf_trace l picks head rest.
Proof.
  induction k as [|k IH]; intros picks head Hh Hs Hk rest; subst rest.
  - cbn [sstf_picks]. rewrite app_nil_r. split; [done|]. split; [done|]. constructor.
  - cbn [sstf_picks].
    destruct Hs as [Hnd Hall].
    destruct (scan_choice picks head Hh Hnd ltac:(lia)) as [E Hc].
    set (i := Z.to_nat (scan l picks head (length l)).2) in *.
    destruct Hc as (Hi & Hp & Hmin).
    destruct (IH (picks ++ [i]) (default 0 (l !! i))) as (Hl & Hs' & Ht).
    + by apply request_cylinder.
    + by apply serviced_snoc.
    + rewrite length_app. cbn [length]. lia.
    + split; [cbn [length]; lia|]. split.
      * rewrite <- app_assoc in Hs'. exact Hs'.
      * constructor; [done|exact Ht].
Qed.

End Sstf.

Section SstfRun.

Variable C : Z.
Variable m : mem.
Variable req : block.
Variable l : list Z.
Hypothesis Hm : m !! req = Some (cells_of l).
Hypothesis Hreq : Forall (cylinder C) l.
Hypothesis Hint : C - 1 ≤ INT_MAX.
Hypothesis Hsentinel : C ≤ 1000000000.
Hypothesis Hcap : (length l ≤ Z.to_nat SEQ_CAPACITY)%nat.

Variable rseq visited : block.
Hypothesis Hrseq : m !! rseq = None.
Hypothesis Hvisited : m !! visited = None.
Hypothesis Hlocals : rseq ≠ visited.

Lemma rseq_not_req : rseq ≠ req.
Proof. intros ->. rewrite Hrseq in Hm. done. Qed.

Lemma visited_not_req : visited ≠ req.
Proof. intros ->. rewrite Hvisited in Hm. done. Qed.

Lemma sstf_mem_req w picks : sstf_mem m l rseq visited w picks !! req = Some (cells_of l).
Proof.
  unfold sstf_mem.
  rewrite lookup_insert_ne by apply rseq_not_req.
  rewrite lookup_insert_ne by apply visited_not_req. exact Hm.
Qed.

Lemma sstf_mem_rseq w picks : sstf_mem m l rseq visited w picks !! rseq = Some (buffer w).
Proof. apply lookup_insert_eq. Qed.

Lemma sstf_mem_visited w picks :
  sstf_mem m l rseq visited w picks !! visited = Some (cells_of (marks (length l) picks)).
Proof.
  unfold sstf_mem. rewrite lookup_insert_ne by done. apply lookup_insert_eq.
Qed.

Lemma run_sstf_scan_body w picks head i best :
  cylinder C head → (i < length l)%nat →
  run (sstf_scan_body req visited head (Z.of_nat i) best) (sstf_mem m l rseq visited w picks) =
  inr (scan_step l picks head best i, sstf_mem m l rseq visited w picks).
Proof.
  intros Hh Hi. destruct best as [bestDist bestIdx].
  destruct (lookup_lt_is_Some_2 l i Hi) as [x Hx].
  pose proof (Forall_lookup_1 _ _ _ _ Hreq Hx) as Hc.
  unfold sstf_scan_body, scan_step. cbn [fst].
  erewrite run_bind_ok.
  2:{ eapply run_load; [apply sstf_mem_visited | lia |].
      rewrite lookup_cells_of, Nat2Z.id, lookup_marks by done. reflexivity. }
  destruct (decide (i ∈ picks)) as [Hp|Hp].
  - rewrite decide_False by done. reflexivity.
  - rewrite decide_True by done.
    erewrite run_bind_ok.
    2:{ eapply run_load; [apply sstf_mem_req | lia |].
        rewrite lookup_cells_of, Nat2Z.id, Hx. reflexivity. }
    unfold cylinder in Hh, Hc.
    unfold int_sub. erewrite run_bind_ok by (apply run_int_of_ok; unfold INT_MIN; lia).
    unfold int_abs. erewrite run_bind_ok by (apply run_int_of_ok; unfold INT_MIN; lia).
    rewrite (seek_lookup _ _ _ _ Hx). case_decide; reflexivity.
Qed.

Lemma run_sstf_scan_from w picks head n :
  cylinder C head →
  ∀ i best,
    (i + n ≤ length l)%nat →
    run (for_up_from n (Z.of_nat i) (sstf_scan_body req visited head) best)
        (sstf_mem m l rseq visited w picks) =
    inr (foldl (scan_step l picks head) best (List.seq i n), sstf_mem m l rseq visited w picks).
Proof.
  intros Hh. induction n as [|n IH]; intros i best Hn; [reflexivity|].
  cbn [for_up_from List.seq foldl].
  erewrite run_bind_ok by (apply run_sstf_scan_body; [done|lia]).
  replace (Z.of_nat i + 1) with (Z.of_nat (Datatypes.S i)) by lia.
  apply IH. lia.
Qed.

Lemma run_sstf_scan w picks head :
  cylinder C head →
  run (sstf_scan (Z.of_nat (length l)) req visited head) (sstf_mem m l rseq visited w picks) =
  inr (scan l picks head (length l), sstf_mem m l rseq visited w picks).
Proof.
  intros Hh. unfold sstf_scan, for_up.
  replace (Z.to_nat (Z.of_nat (length l) - 0)) with (length l) by lia.
  apply (run_sstf_scan_from w picks head (length l) Hh 0%nat). lia.
Qed.

Lemma run_sstf_step w picks head :
  cylinder C head → serviced l picks →
  (length picks < length l)%nat → length w = length picks →
  let i := Z.to_nat (scan l picks head (length l)).2 in
  run (sstf_step (Z.of_nat (length l)) req visited rseq (head, Z.of_nat (length w)))
      (sstf_mem m l rseq visited w picks) =
  inr ((request l i, Z.of_nat (length (w ++ [request l i]))),
       sstf_mem m l rseq visited (w ++ [request l i]) (picks ++ [i])).
Proof.
  intros Hh [Hnd Hall] Hlt Hw i.
  destruct (scan_choice C l Hreq Hsentinel picks head Hh Hnd Hlt) as [E (Hi & Hp & _)].
  fold i in E, Hi, Hp.
  destruct (lookup_lt_is_Some_2 l i Hi) as [x Hx].
  assert (Hr : request l i = x) by (unfold request; rewrite Hx; reflexivity).
  unfold sstf_step.
  erewrite run_bind_ok by (apply run_sstf_scan; done).
  rewrite E.
  erewrite run_bind_ok.
  2:{ eapply run_store; [apply sstf_mem_visited|].
      rewrite length_cells_of, length_marks. lia. }
  erewrite run_bind_ok.
  2:{ eapply run_load; [|lia|].
      - rewrite lookup_insert_ne by apply visited_not_req. apply sstf_mem_req.
      - rewrite lookup_cells_of, Nat2Z.id, Hx. reflexivity. }
  erewrite run_bind_ok.
  2:{ eapply run_store.
      - rewrite lookup_insert_ne by done. apply sstf_mem_rseq.
      - rewrite length_buffer; lia. }
  erewrite run_bind_ok.
  2:{ eapply run_load; [|lia|].
      - rewrite lookup_insert_ne by apply rseq_not_req.
        rewrite lookup_insert_ne by apply visited_not_req. apply sstf_mem_req.
      - rewrite lookup_cells_of, Nat2Z.id, Hx. reflexivity. }
  rewrite run_ret, Hr. f_equal. f_equal.
  - f_equal. rewrite length_app. cbn [length]. lia.
  - unfold sstf_mem. rewrite !Nat2Z.id.
    rewrite (mem_insert_swap _ visited rseq) by done.
    rewrite !insert_insert_eq.
    rewrite buffer_snoc by lia.
    unfold cells_of at 1. rewrite <- list_fmap_insert, marks_pick. reflexivity.
Qed.

Lemma run_sstf_loop k :
  ∀ fuel w picks head,
    (k ≤ fuel)%nat →
    cylinder C head → serviced l picks →
    (length picks + k = length l)%nat → length w = length picks →
    let rest := sstf_picks l k picks head in
    ∃ head',
      run (while fuel (λ st : Z * Z, bool_decide (st.2 < Z.of_nat (length l)))
             (sstf_step (Z.of_nat (length l)) req visited rseq)
             (head, Z.of_nat (length w)))
          (sstf_mem m l rseq visited w picks) =
      inr ((head', Z.of_nat (length l)),
           sstf_mem m l rseq visited (w ++ (request l <$> rest)) (picks ++ rest)).
Proof.
  induction k as [|k IH]; intros fuel w picks head Hfuel Hh Hs Hk Hw rest; subst rest.
  - exists head. cbn [sstf_picks fmap list_fmap]. rewrite !app_nil_r.
    destruct fuel; cbn [while snd]; rewrite bool_decide_eq_false_2 by lia;
      rewrite run_ret; do 3 f_equal; lia.
  - destruct fuel as [|fuel]; [lia|].
    cbn [while snd]. rewrite bool_decide_eq_true_2 by lia.
    erewrite run_bind_ok by (apply run_sstf_step; [done|done|lia|done]).
    cbn [sstf_picks].
    set (i := Z.to_nat (scan l picks head (length l)).2) in *.
    destruct Hs as [Hnd Hall].
    destruct (scan_choice C l Hreq Hsentinel picks head Hh Hnd ltac:(lia))
      as [_ (Hi & Hp & _)]. fold i in Hi, Hp.
    destruct (IH fuel (w ++ [request l i]) (picks ++ [i]) (request l i)) as [head' Hrun].
    + lia.
    + by apply (request_cylinder C l Hreq).
    + by apply serviced_snoc.
    + rewrite length_app. cbn [length]. lia.
    + rewrite !length_app. cbn [length]. lia.
    + exists head'. fold (request l i). rewrite Hrun.
      rewrite fmap_cons, <- !app_assoc. reflexivity.
Qed.

End SstfRun.

Lemma marks_nil n : marks n [] = replicate n 0.
Proof.
  apply list_eq. intros j. destruct (decide (j < n)%nat) as [Hj|Hj].
  - rewrite lookup_marks, lookup_replicate_2 by done.
    rewrite decide_False; [done|]. apply not_elem_of_nil.
  - rewrite !lookup_ge_None_2; [done | |]; rewrite ?length_replicate, ?length_marks; lia.
Qed.

Lemma run_schedule_sstf C NUM_REQUESTS fuel m req l start :
  m !! req = Some (cells_of l) →
  Forall (cylinder C) l → cylinder C start →
  Z.of_nat (length l) = NUM_REQUESTS → NUM_REQUESTS ≤ SEQ_CAPACITY →
  C ≤ 1000000000 → (length l ≤ fuel)%nat →
  run (schedule_sstf NUM_REQUESTS fuel req start) m = outcome (sstf_order l start) start m.
Proof.
  intros Hm Hreq Hstart Hlen Hcap Hsent Hfuel. subst NUM_REQUESTS.
  unfold schedule_sstf. rewrite run_bind, run_alloca.
  pose proof (fresh_block_unused m) as Hrseq.
  set (rseq := fresh (dom m)) in *.
  rewrite run_bind, run_alloca.
  pose proof (fresh_block_unused (<[rseq := fresh_seq]> m)) as Hv.
  set (visited := fresh (dom (<[rseq := fresh_seq]> m))) in *.
  apply lookup_insert_None in Hv as [Hvisited Hlocals].
  assert (Hcap' : (length l ≤ Z.to_nat SEQ_CAPACITY)%nat) by lia.
  assert (Hint : C - 1 ≤ INT_MAX) by (unfold INT_MAX; lia).
  match goal with
  | |- run _ ?mm = _ => replace mm with (sstf_mem m l rseq visited [] [])
  end.
  2:{ unfold sstf_mem. rewrite mem_insert_swap by done.
      rewrite buffer_nil, marks_nil, Nat2Z.id. unfold cells_of. rewrite fmap_replicate.
      reflexivity. }
  destruct (run_sstf_loop C m req l Hm Hreq Hint Hsent Hcap' rseq visited
              Hrseq Hvisited Hlocals (length l) fuel [] [] start)
    as [head' Hloop]; [done | done | split; [apply NoDup_nil_2 | apply Forall_nil_2]
                       | reflexivity | reflexivity |].
  cbn [length app] in Hloop.
  erewrite run_bind_ok by exact Hloop.
  destruct (sstf_picks_spec C l Hreq Hsent (length l) [] start Hstart)
    as (Hl & _ & _); [split; [apply NoDup_nil_2 | apply Forall_nil_2] | cbn; lia |].
  fold (sstf_order l start).
  assert (Hout : length (sstf_order l start) = length l).
  { unfold sstf_order. rewrite length_fmap. exact Hl. }
  change (request l <$> sstf_picks l (length l) [] start) with (sstf_order l start).
  rewrite run_bind, <- Hout.
  rewrite (run_compute_movement rseq _ (buffer (sstf_order l start)) (sstf_order l start) start);
    [| apply sstf_mem_rseq | apply take_buffer].
  unfold outcome. case_decide; [|reflexivity].
  erewrite run_bind_ok by (apply run_leave, sstf_mem_visited; done).
  unfold return_result, sstf_mem.
  rewrite mem_insert_swap, delete_insert_eq by done.
  rewrite delete_insert_ne, (delete_id m visited) by done.
  erewrite run_bind_ok by (apply run_leave, lookup_insert_eq).
  rewrite run_ret, delete_insert_eq, delete_id by done. reflexivity.
Qed.

(** ** Bounds on the movement of cylinder sequences *)

Lemma travel_bound C s head :
  Forall (cylinder C) s → cylinder C head →
  travel s head ≤ Z.of_nat (length s) * (C - 1).
Proof.
  intros Hs. revert head. induction Hs as [|x rest Hx Hrest IH]; intros head Hh.
  - simpl. lia.
  - cbn [travel length]. specialize (IH x Hx). unfold cylinder in *. lia.
Qed.

Lemma outcome_ok out start m :
  travel out start ≤ INT_MAX →
  outcome out start m =
  inr (mkResult (buffer out) (Z.of_nat (length out)) (travel out start), m).
Proof. intros H. unfold outcome. rewrite decide_True by done. reflexivity. Qed.

Lemma entries_written out mv :
  entries (mkResult (buffer out) (Z.of_nat (length out)) mv) = cells_of out.
Proof. unfold entries. cbn [len seq]. rewrite Nat2Z.id. apply take_buffer. Qed.

Lemma config_source : config_ok A4Q1.NUM_CYLINDERS A4Q1.NUM_REQUESTS.
Proof. unfold config_ok, A4Q1.NUM_CYLINDERS, A4Q1.NUM_REQUESTS, SEQ_CAPACITY, INT_MAX. lia. Qed.

Lemma config_sentinel C N : config_ok C N → C ≤ 1000000000.
Proof. unfold config_ok, INT_MAX. intros (? & ? & ? & ?). nia. Qed.

Lemma travel_fits C N out start :
  config_ok C N → Forall (cylinder C) out → cylinder C start →
  Z.of_nat (length out) ≤ N + 2 →
  travel out start ≤ INT_MAX.
Proof.
  intros (? & ? & ? & ?) Hout Hs Hl.
  pose proof (travel_bound C out start Hout Hs). nia.
Qed.

(** * The claims *)

(** ** C5: the movement accumulator *)

(** C5, as amended.  For an array whose first [L] cells hold the sequence
    [s] and any start position, the sum of the [|s[i] - head_before_i|] is
    non-negative; [compute_movement] returns exactly that sum, leaving memory
    as it was, whenever the sum is at most [INT_MAX], and otherwise stops on a
    signed overflow.  The sum of the empty sequence is 0 and the sum of a
    one-element sequence [[x]] is [|x - start|].  When the sequence fits a
    [Result] (at most 50 entries) and its entries and the start position are
    valid cylinders of the 300-cylinder disk, the sum is at most [INT_MAX],
    so that it is returned. *)
Theorem compute_movement_sum (m : mem) (a : block) (cells : list cell) (s : list Z) (start : Z) :
  m !! a = Some cells →
  take (length s) cells = cells_of s →
  0 ≤ movement_sum s start ∧
  (movement_sum s start ≤ INT_MAX →
     run (compute_movement a (Z.of_nat (length s)) start) m = inr (movement_sum s start, m)) ∧
  (INT_MAX < movement_sum s start →
     run (compute_movement a (Z.of_nat (length s)) start) m = inl Overflow) ∧
  movement_sum [] start = 0 ∧
  (∀ x, movement_sum [x] start = Z.abs (x - start)) ∧
  (Forall (cylinder A4Q1.NUM_CYLINDERS) s → cylinder A4Q1.NUM_CYLINDERS start →
   Z.of_nat (length s) ≤ SEQ_CAPACITY →
     movement_sum s start ≤ INT_MAX ∧
     run (compute_movement a (Z.of_nat (length s)) start) m = inr (movement_sum s start, m)).
Proof.
  intros Ha Hs. rewrite (movement_sum_travel s start).
  split; [apply travel_nonneg|].
  rewrite (run_compute_movement a m cells s start Ha Hs).
  split; [|split; [|split; [|split]]].
  - intros H. rewrite decide_True by done. reflexivity.
  - intros H. rewrite decide_False by lia. reflexivity.
  - reflexivity.
  - intros x. rewrite movement_sum_travel. cbn [travel]. lia.
  - intros Hcyl Hstart Hlen.
    pose proof (travel_bound A4Q1.NUM_CYLINDERS s start Hcyl Hstart) as Hb.
    assert (Hfit : travel s start ≤ INT_MAX)
      by (unfold A4Q1.NUM_CYLINDERS, SEQ_CAPACITY, INT_MAX in *; nia).
    split; [done|]. rewrite decide_True by done. reflexivity.
Qed.

Lemma compute_movement_sum_witness :
  fixture_mem !! 1%positive = Some (cells_of fixture_requests) ∧
  take (length fixture_requests) (cells_of fixture_requests) = cells_of fixture_requests ∧
  0 ≤ movement_sum fixture_requests 53 ∧
  (movement_sum fixture_requests 53 ≤ INT_MAX →
     run (compute_movement 1%positive (Z.of_nat (length fixture_requests)) 53) fixture_mem =
     inr (movement_sum fixture_requests 53, fixture_mem)) ∧
  (INT_MAX < movement_sum fixture_requests 53 →
     run (compute_movement 1%positive (Z.of_nat (length fixture_requests)) 53) fixture_mem =
     inl Overflow) ∧
  movement_sum [] 53 = 0 ∧
  (∀ x, movement_sum [x] 53 = Z.abs (x - 53)) ∧
  (Forall (cylinder A4Q1.NUM_CYLINDERS) fixture_requests →
   cylinder A4Q1.NUM_CYLINDERS 53 →
   Z.of_nat (length fixture_requests) ≤ SEQ_CAPACITY →
     movement_sum fixture_requests 53 ≤ INT_MAX ∧
     run (compute_movement 1%positive (Z.of_nat (length fixture_requests)) 53) fixture_mem =
     inr (movement_sum fixture_requests 53, fixture_mem)).
Proof.
  exact (conj eq_refl (conj eq_refl
    (compute_movement_sum fixture_mem 1%positive (cells_of fixture_requests)
       fixture_requests 53 eq_refl eq_refl))).
Defined.

Lemma zigzag_travel k : travel (zigzag k) 0 = 598 * Z.of_nat k.
Proof. induction k as [|k IH]; [reflexivity|]. cbn [zigzag travel]. rewrite IH. lia. Qed.

Lemma zigzag_length k : length (zigzag k) = (2 * k)%nat.
Proof. induction k as [|k IH]; [reflexivity|]. cbn [zigzag length]. lia. Qed.

Lemma zigzag_cylinders k : Forall (cylinder 300) (zigzag k).
Proof.
  induction k as [|k IH]; [constructor|].
  cbn [zigzag]. repeat constructor; unfold cylinder; try lia. exact IH.
Qed.

(** C5 as stated fails on the code.  With the head at 0 the one-element
    sequence [[INT_MIN]] makes [abs] overflow (its sum, 2147483648, is no
    int); and a sequence of valid cylinders of the 300-cylinder disk that is
    long enough (7182220 entries, with sum 2147483780) makes the running
    total overflow: in neither case is the sum returned. *)
Lemma compute_movement_sum_counterexample :
  (let m : mem := {[ 1%positive := cells_of [-2147483648] ]} in
   run (compute_movement 1%positive 1 0) m = inl Overflow ∧
   movement_sum [-2147483648] 0 = 2147483648) ∧
  (let s := zigzag (Z.to_nat 3591110) in
   let m : mem := {[ 1%positive := cells_of s ]} in
   Forall (cylinder 300) s ∧ cylinder 300 0 ∧
   Z.of_nat (length s) = 7182220 ∧
   run (compute_movement 1%positive (Z.of_nat (length s)) 0) m = inl Overflow ∧
   movement_sum s 0 = 2147483780).
Proof.
  split.
  - split; reflexivity.
  - intros s m.
    assert (Ht : travel s 0 = 2147483780).
    { subst s. rewrite zigzag_travel. rewrite Z2Nat.id by lia. reflexivity. }
    split; [apply zigzag_cylinders|]. split; [unfold cylinder; lia|]. split.
    + subst s. rewrite zigzag_length. lia.
    + split; [|rewrite movement_sum_travel; exact Ht].
      rewrite (run_compute_movement 1%positive m (cells_of s) s 0);
        [| apply lookup_singleton_eq | rewrite <- length_cells_of; apply firstn_all ].
      rewrite decide_False; [reflexivity|]. rewrite Ht. unfold INT_MAX. lia.
Qed.

(** ** C6: the split index *)

Lemma split_index_above l ref :
  StronglySorted Z.le l →
  ∀ i x, l !! i = Some x → (split_index l ref ≤ i)%nat → ref ≤ x.
Proof.
  induction 1 as [|y rest Hrest IH Hy]; intros i x Hx Hi; [done|].
  cbn [split_index] in Hi. destruct (decide (ref ≤ y)) as [Hle|Hlt].
  - destruct i as [|i]; cbn in Hx; [inversion Hx; subst; done|].
    apply list_elem_of_lookup_2 in Hx. rewrite Forall_forall in Hy.
    specialize (Hy x Hx). lia.
  - destruct i as [|i]; [lia|]. cbn in Hx. apply (IH i x Hx). lia.
Qed.

Lemma split_index_all_below l ref :
  split_index l ref = length l ↔ Forall (λ x, x < ref) l.
Proof.
  induction l as [|y rest IH]; cbn [split_index length].
  - split; [constructor|done].
  - case_decide.
    + split; [lia|]. intros Hall. apply Forall_cons_1 in Hall as [? _]. lia.
    + split.
      * intros E. constructor; [lia|]. apply IH. lia.
      * intros Hall. apply Forall_cons_1 in Hall as [_ Hall]. apply IH in Hall. lia.
Qed.

(** C6.  On an array holding the ascending list [l] of [n] requests,
    [find_index] returns, for every reference position, an index [idx <= n]
    with every element at an index below [idx] strictly below the reference
    and every element at an index from [idx] on at or above it: the smallest
    index whose element is at or above the reference, and [n] exactly when
    no element is. *)
Theorem find_index_partitions (m : mem) (sorted : block) (l : list Z) (ref : Z) :
  m !! sorted = Some (cells_of l) →
  Sorted Z.le l →
  ∃ idx : nat,
    run (find_index sorted (Z.of_nat (length l)) ref) m = inr (Z.of_nat idx, m) ∧
    (idx ≤ length l)%nat ∧
    (∀ i x, l !! i = Some x → (i < idx)%nat → x < ref) ∧
    (∀ i x, l !! i = Some x → (idx ≤ i)%nat → ref ≤ x) ∧
    (idx = length l ↔ Forall (λ x, x < ref) l).
Proof.
  intros Hm Hs. apply Sorted_StronglySorted in Hs; [|apply _].
  exists (split_index l ref).
  split; [by apply run_find_index|].
  split; [apply split_index_le|].
  split; [intros i x Hx Hi; by apply (split_index_below l ref i x)|].
  split; [by apply split_index_above|].
  apply split_index_all_below.
Qed.

Lemma find_index_partitions_witness :
  sample_mem !! 2%positive = Some (cells_of sample_sorted) ∧
  Sorted Z.le sample_sorted ∧
  ∃ idx : nat,
    run (find_index 2%positive (Z.of_nat (length sample_sorted)) 53) sample_mem =
    inr (Z.of_nat idx, sample_mem) ∧
    (idx ≤ length sample_sorted)%nat ∧
    (∀ i x, sample_sorted !! i = Some x → (i < idx)%nat → x < 53) ∧
    (∀ i x, sample_sorted !! i = Some x → (idx ≤ i)%nat → 53 ≤ x) ∧
    (idx = length sample_sorted ↔ Forall (λ x, x < 53) sample_sorted).
Proof.
  assert (Hs : Sorted Z.le sample_sorted)
    by (apply (bool_decide_unpack _); vm_compute; exact I).
  exact (conj eq_refl (conj Hs
    (find_index_partitions sample_mem 2%positive sample_sorted 53 eq_refl Hs))).
Defined.

(** ** The six functions together *)

Section Valid.

Variables (C N : Z) (m : mem) (req sorted : block) (reqs srt : list Z) (start : Z).
Hypothesis Hconfig : config_ok C N.
Hypothesis Hvalid : valid_input C N m req sorted reqs srt start.

Lemma valid_sorted_count : Z.of_nat (length srt) = N.
Proof. destruct Hvalid. rewrite valid_perm0. done. Qed.

Lemma boundary_cylinders : cylinder C 0 ∧ cylinder C (C - 1).
Proof. destruct Hconfig as (_ & _ & ? & _). unfold cylinder. lia. Qed.

Lemma sstf_order_spec :
  let picks := sstf_picks reqs (length reqs) [] start in
  sstf_order reqs start = (λ i, default 0 (reqs !! i)) <$> picks ∧
  length picks = length reqs ∧ serviced reqs picks ∧ sstf_trace reqs [] start picks.
Proof.
  intros picks. split; [reflexivity|]. destruct Hvalid.
  apply (sstf_picks_spec C reqs valid_cylinders0 (config_sentinel C N Hconfig)
           (length reqs) [] start valid_start0).
  - split; [apply NoDup_nil_2 | apply Forall_nil_2].
  - cbn. lia.
Qed.

Lemma picks_permutation picks :
  length picks = length reqs → serviced reqs picks → picks ≡ₚ List.seq 0 (length reqs).
Proof.
  intros Hl [Hnd Hall]. symmetry. apply submseteq_length_Permutation; [|rewrite length_seq; lia].
  apply NoDup_submseteq; [apply NoDup_seq|].
  intros j Hj. apply elem_of_seq in Hj.
  destruct (decide (j ∈ picks)) as [|Hnot]; [done|]. exfalso.
  assert (j :: picks ⊆+ List.seq 0 (length reqs)) as Hsub.
  { apply NoDup_submseteq; [by constructor|].
    intros x Hx. apply elem_of_seq. apply elem_of_cons in Hx as [->|Hx]; [lia|].
    rewrite Forall_forall in Hall. specialize (Hall x Hx). lia. }
  apply submseteq_length in Hsub. rewrite length_seq in Hsub. cbn in Hsub. lia.
Qed.

Lemma lookup_all_indices (l : list Z) :
  (λ i, default 0 (l !! i)) <$> List.seq 0 (length l) = l.
Proof.
  apply list_eq. intros i. rewrite list_lookup_fmap.
  destruct (decide (i < length l)%nat) as [Hi|Hi].
  - rewrite lookup_seq_lt by done. cbn.
    destruct (lookup_lt_is_Some_2 l i Hi) as [x Hx]. rewrite Hx. reflexivity.
  - rewrite lookup_seq_ge by lia. rewrite lookup_ge_None_2 by lia. reflexivity.
Qed.

Lemma sstf_order_permutation : sstf_order reqs start ≡ₚ reqs.
Proof.
  destruct sstf_order_spec as (E & Hl & Hs & _). rewrite E.
  rewrite (picks_permutation _ Hl Hs). by rewrite lookup_all_indices.
Qed.

(** Each service order is the boundary entries the call emits, inserted
    between two runs of requests that together are the request set. *)
Lemma service_order_split alg dir :
  ∃ pre post,
    service_order C alg reqs srt start dir = pre ++ boundary_entries C alg dir ++ post ∧
    pre ++ post ≡ₚ reqs.
Proof.
  destruct Hvalid. pose proof (below_above srt start) as Hba.
  destruct alg; cbn [service_order boundary_entries].
  - exists [], reqs. by rewrite !app_nil_l.
  - exists [], (sstf_order reqs start). rewrite !app_nil_l. split; [done|].
    apply sstf_order_permutation.
  - destruct dir; cbn [scan_order].
    + exists (reverse (below srt start)), (above srt start). split; [done|].
      by rewrite reverse_Permutation, Hba.
    + exists (above srt start), (reverse (below srt start)). split; [done|].
      by rewrite reverse_Permutation, (comm (++)), Hba.
  - destruct dir; cbn [cscan_order].
    + exists (reverse (below srt start)), (reverse (above srt start)). split; [done|].
      by rewrite !reverse_Permutation, Hba.
    + exists (above srt start), (below srt start). split; [done|].
      by rewrite (comm (++)), Hba.
  - destruct dir; cbn [look_order].
    + exists (reverse (below srt start)), (above srt start). split; [done|].
      by rewrite reverse_Permutation, Hba.
    + exists (above srt start), (reverse (below srt start)). split; [done|].
      by rewrite reverse_Permutation, (comm (++)), Hba.
  - destruct dir; cbn [clook_order].
    + exists (reverse (below srt start)), (reverse (above srt start)). split; [done|].
      by rewrite !reverse_Permutation, Hba.
    + exists (above srt start), (below srt start). split; [done|].
      by rewrite (comm (++)), Hba.
Qed.

Lemma boundary_entries_cylinders alg dir :
  Forall (cylinder C) (boundary_entries C alg dir) ∧
  (length (boundary_entries C alg dir) ≤ 2)%nat.
Proof.
  destruct boundary_cylinders as [H0 H1].
  destruct alg, dir; cbn [boundary_entries length];
    (split; [repeat first [apply Forall_nil_2 | apply Forall_cons_2; [done|]] | lia]).
Qed.

Lemma service_order_fits alg dir :
  travel (service_order C alg reqs srt start dir) start ≤ INT_MAX.
Proof.
  destruct (service_order_split alg dir) as (pre & post & E & Hp).
  destruct (boundary_entries_cylinders alg dir) as [Hb Hl].
  destruct Hvalid.
  assert (Hpp : Forall (cylinder C) (pre ++ post)) by (by rewrite Hp).
  apply Forall_app in Hpp as [Hpre Hpost].
  assert (Hlen : (length (pre ++ post) = length reqs)%nat) by (by rewrite Hp).
  rewrite length_app in Hlen.
  apply (travel_fits C N); [done| |done|].
  - rewrite E. by repeat apply Forall_app_2.
  - rewrite E, !length_app. lia.
Qed.

(** What each call returns on a valid input. *)
Lemma run_schedule fuel alg dir :
  (Z.to_nat N ≤ fuel)%nat →
  let out := service_order C alg reqs srt start dir in
  run (schedule C N fuel alg req sorted start dir) m =
  inr (mkResult (buffer out) (Z.of_nat (length out)) (travel out start), m).
Proof.
  intros Hfuel out. subst out.
  rewrite <- (outcome_ok _ _ _ (service_order_fits alg dir)).
  pose proof valid_sorted_count as Hsc.
  destruct Hvalid. destruct Hconfig as (? & ? & ? & ?).
  destruct alg; cbn [schedule service_order].
  - apply run_schedule_fcfs; [done|done|lia].
  - apply (run_schedule_sstf C); try done; [lia | by eapply config_sentinel | lia].
  - by apply run_schedule_scan.
  - by apply run_schedule_cscan.
  - by apply run_schedule_look.
  - by apply run_schedule_clook.
Qed.

End Valid.

(** ** A sample input of the source's size *)

Lemma sample_valid :
  valid_input A4Q1.NUM_CYLINDERS A4Q1.NUM_REQUESTS sample_mem 1%positive 2%positive
    sample_requests sample_sorted 53.
Proof.
  split.
  - reflexivity.
  - reflexivity.
  - reflexivity.
  - apply (bool_decide_unpack _). vm_compute. exact I.
  - apply (bool_decide_unpack _). vm_compute. exact I.
  - apply (bool_decide_unpack _). vm_compute. exact I.
  - unfold cylinder, A4Q1.NUM_CYLINDERS. lia.
Qed.

(** ** C1: every request is serviced exactly once *)

(** C1.  For every valid input and either direction, each of the six
    functions returns a sequence of the form [pre ++ boundary ++ post], where
    [boundary] is the synthetic boundary entries of that function (none for
    FCFS, SSTF, LOOK and C-LOOK; one for SCAN; two for C-SCAN) and, these
    removed, [pre ++ post] is a permutation of the requests: every request
    occurs exactly once.  The configuration constants are any that satisfy
    [config_ok], as the source's 300 and 20 do, and [fuel] any budget of at
    least [NUM_REQUESTS] iterations for the loop of SSTF. *)
Theorem schedules_permute_requests (C N : Z) (m : mem) (req sorted : block)
    (reqs srt : list Z) (start : Z) (fuel : nat) (alg : algorithm) (dir : Direction) :
  config_ok C N →
  valid_input C N m req sorted reqs srt start →
  (Z.to_nat N ≤ fuel)%nat →
  ∃ r pre post,
    run (schedule C N fuel alg req sorted start dir) m = inr (r, m) ∧
    entries r = cells_of (pre ++ boundary_entries C alg dir ++ post) ∧
    pre ++ post ≡ₚ reqs.
Proof.
  intros Hc Hv Hf.
  destruct (service_order_split C N m req sorted reqs srt start Hc Hv alg dir)
    as (pre & post & E & Hp).
  eexists _, pre, post. split; [by apply (run_schedule C N m req sorted reqs srt)|].
  split; [|done]. rewrite entries_written, E. reflexivity.
Qed.

Lemma schedules_permute_requests_witness :
  config_ok A4Q1.NUM_CYLINDERS A4Q1.NUM_REQUESTS ∧
  valid_input A4Q1.NUM_CYLINDERS A4Q1.NUM_REQUESTS sample_mem 1%positive 2%positive
    sample_requests sample_sorted 53 ∧
  (Z.to_nat A4Q1.NUM_REQUESTS ≤ 20)%nat ∧
  ∃ r pre post,
    run (schedule A4Q1.NUM_CYLINDERS A4Q1.NUM_REQUESTS 20 CSCAN
           1%positive 2%positive 53 DIR_RIGHT) sample_mem = inr (r, sample_mem) ∧
    entries r = cells_of (pre ++ boundary_entries A4Q1.NUM_CYLINDERS CSCAN DIR_RIGHT ++ post) ∧
    pre ++ post ≡ₚ sample_requests.
Proof.
  assert (Hf : (Z.to_nat A4Q1.NUM_REQUESTS ≤ 20)%nat) by (vm_compute; lia).
  exact (conj config_source (conj sample_valid (conj Hf
    (schedules_permute_requests _ _ _ _ _ _ _ _ _ CSCAN DIR_RIGHT
       config_source sample_valid Hf)))).
Defined.

(** ** C9: the inputs are only read *)

(** C9.  On a valid input each of the six functions returns with the
    memory of its caller exactly as it was before the call, so the request
    array and the sorted array hold the values they held; hence in any
    sequence of calls, in any order and with either direction, every call
    returns what it returns when it is the only call. *)
Theorem schedules_leave_inputs (C N : Z) (m : mem) (req sorted : block)
    (reqs srt : list Z) (start : Z) (fuel : nat) :
  config_ok C N →
  valid_input C N m req sorted reqs srt start →
  (Z.to_nat N ≤ fuel)%nat →
  (∀ alg dir, ∃ r m',
     run (schedule C N fuel alg req sorted start dir) m = inr (r, m') ∧
     m' = m ∧
     m' !! req = Some (cells_of reqs) ∧ m' !! sorted = Some (cells_of srt)) ∧
  (∀ calls, ∃ rs,
     run (invoke_all C N fuel req sorted start calls) m = inr (rs, m) ∧
     Forall2 (λ call r,
        run (schedule C N fuel call.1 req sorted start call.2) m = inr (r, m)) calls rs).
Proof.
  intros Hc Hv Hf.
  assert (Hone : ∀ alg dir, ∃ r,
            run (schedule C N fuel alg req sorted start dir) m = inr (r, m)).
  { intros alg dir. eexists. by apply (run_schedule C N m req sorted reqs srt). }
  split.
  - intros alg dir. destruct (Hone alg dir) as [r Hr]. exists r, m.
    split; [done|]. split; [done|]. destruct Hv. done.
  - induction calls as [|[alg dir] rest IH].
    + exists []. split; [reflexivity|constructor].
    + destruct (Hone alg dir) as [r Hr]. destruct IH as (rs & Hrs & Hall).
      exists (r :: rs). split; [|by constructor].
      cbn [invoke_all]. erewrite run_bind_ok by exact Hr.
      erewrite run_bind_ok by exact Hrs. reflexivity.
Qed.

Lemma schedules_leave_inputs_witness :
  config_ok A4Q1.NUM_CYLINDERS A4Q1.NUM_REQUESTS ∧
  valid_input A4Q1.NUM_CYLINDERS A4Q1.NUM_REQUESTS sample_mem 1%positive 2%positive
    sample_requests sample_sorted 53 ∧
  (Z.to_nat A4Q1.NUM_REQUESTS ≤ 20)%nat ∧
  (∀ alg dir, ∃ r m',
     run (schedule A4Q1.NUM_CYLINDERS A4Q1.NUM_REQUESTS 20 alg
            1%positive 2%positive 53 dir) sample_mem = inr (r, m') ∧
     m' = sample_mem ∧
     m' !! 1%positive = Some (cells_of sample_requests) ∧
     m' !! 2%positive = Some (cells_of sample_sorted)) ∧
  (∀ calls, ∃ rs,
     run (invoke_all A4Q1.NUM_CYLINDERS A4Q1.NUM_REQUESTS 20
            1%positive 2%positive 53 calls) sample_mem = inr (rs, sample_mem) ∧
     Forall2 (λ call r,
        run (schedule A4Q1.NUM_CYLINDERS A4Q1.NUM_REQUESTS 20 call.1
               1%positive 2%positive 53 call.2) sample_mem = inr (r, sample_mem))
       calls rs).
Proof.
  assert (Hf : (Z.to_nat A4Q1.NUM_REQUESTS ≤ 20)%nat) by (vm_compute; lia).
  exact (conj config_source (conj sample_valid (conj Hf
    (schedules_leave_inputs _ _ _ _ _ _ _ _ 20%nat config_source sample_valid Hf)))).
Defined.

(** ** C2: SSTF takes the nearest unserviced request, the earliest on a tie *)

Lemma sstf_order_cylinders C reqs start :
  Forall (cylinder C) reqs → C ≤ 1000000000 → cylinder C start →
  Forall (cylinder C) (sstf_order reqs start) ∧
  length (sstf_order reqs start) = length reqs.
Proof.
  intros Hreq Hsent Hstart.
  destruct (sstf_picks_spec C reqs Hreq Hsent (length reqs) [] start Hstart)
    as (Hl & [_ Hall] & _); [split; [apply NoDup_nil_2 | apply Forall_nil_2] | cbn; lia |].
  unfold sstf_order. rewrite length_fmap. split; [|exact Hl].
  apply Forall_fmap, Forall_forall. intros i Hi. rewrite Forall_forall in Hall.
  apply (request_cylinder C reqs Hreq), Hall, Hi.
Qed.

(** [schedule_sstf] returns on requests and a start position that are valid
    cylinders. *)
Lemma sstf_returns C N m req reqs start fuel :
  config_ok C N →
  m !! req = Some (cells_of reqs) → Z.of_nat (length reqs) = N →
  Forall (cylinder C) reqs → cylinder C start → (Z.to_nat N ≤ fuel)%nat →
  let out := sstf_order reqs start in
  run (schedule_sstf N fuel req start) m =
  inr (mkResult (buffer out) (Z.of_nat (length out)) (travel out start), m).
Proof.
  intros Hc Hm Hlen Hreq Hstart Hfuel out. subst out.
  pose proof (config_sentinel C N Hc) as Hsent.
  destruct (sstf_order_cylinders C reqs start Hreq Hsent Hstart) as [Hcyl Hout].
  rewrite (run_schedule_sstf C N fuel m req reqs start); try done.
  - apply outcome_ok. apply (travel_fits C N); [done|done|done|lia].
  - destruct Hc as (? & ? & _). lia.
  - lia.
Qed.

(** C2.  On every valid input (an array of [NUM_REQUESTS] valid cylinders
    and a valid start position) [schedule_sstf] returns, and the order it
    returns is a run of [NUM_REQUESTS] greedy selections starting with the
    head at [start]: each selected request is not yet serviced, no unserviced
    request is strictly nearer to the current head, any unserviced request
    at the same distance has a larger arrival index, and the head then moves
    to the selected cylinder. *)
Theorem sstf_selects_nearest (C N : Z) (m : mem) (req : block) (reqs : list Z)
    (start : Z) (fuel : nat) :
  config_ok C N →
  m !! req = Some (cells_of reqs) →
  Z.of_nat (length reqs) = N →
  Forall (cylinder C) reqs →
  cylinder C start →
  (Z.to_nat N ≤ fuel)%nat →
  ∃ r picks,
    run (schedule_sstf N fuel req start) m = inr (r, m) ∧
    Z.of_nat (length picks) = N ∧
    entries r = cells_of ((λ i, default 0 (reqs !! i)) <$> picks) ∧
    sstf_trace reqs [] start picks.
Proof.
  intros Hc Hm Hlen Hreq Hstart Hfuel.
  destruct (sstf_picks_spec C reqs Hreq (config_sentinel C N Hc) (length reqs) [] start Hstart)
    as (Hl & _ & Ht); [split; [apply NoDup_nil_2 | apply Forall_nil_2] | cbn; lia |].
  eexists _, (sstf_picks reqs (length reqs) [] start).
  split; [by apply (sstf_returns C N m req reqs start fuel)|].
  split; [lia|]. split; [|exact Ht].
  rewrite entries_written. reflexivity.
Qed.

Lemma sstf_selects_nearest_witness :
  config_ok A4Q1.NUM_CYLINDERS A4Q1.NUM_REQUESTS ∧
  sample_mem !! 1%positive = Some (cells_of sample_requests) ∧
  Z.of_nat (length sample_requests) = A4Q1.NUM_REQUESTS ∧
  Forall (cylinder A4Q1.NUM_CYLINDERS) sample_requests ∧
  cylinder A4Q1.NUM_CYLINDERS 53 ∧
  (Z.to_nat A4Q1.NUM_REQUESTS ≤ 20)%nat ∧
  ∃ r picks,
    run (schedule_sstf A4Q1.NUM_REQUESTS 20 1%positive 53) sample_mem = inr (r, sample_mem) ∧
    Z.of_nat (length picks) = A4Q1.NUM_REQUESTS ∧
    entries r = cells_of ((λ i, default 0 (sample_requests !! i)) <$> picks) ∧
    sstf_trace sample_requests [] 53 picks.
Proof.
  assert (Hf : (Z.to_nat A4Q1.NUM_REQUESTS ≤ 20)%nat) by (vm_compute; lia).
  pose proof sample_valid as [H1 _ H3 H4 _ _ H7].
  exact (conj config_source (conj H1 (conj H3 (conj H4 (conj H7 (conj Hf
    (sstf_selects_nearest _ _ _ _ _ _ _ config_source H1 H3 H4 H7 Hf))))))).
Defined.

(** ** C10: the scan of SSTF always finds a candidate *)

Lemma sstf_reachable_inv C m req l rseq visited start st mm :
  m !! req = Some (cells_of l) → Forall (cylinder C) l →
  C ≤ 1000000000 → (length l ≤ Z.to_nat SEQ_CAPACITY)%nat →
  m !! rseq = None → m !! visited = None → rseq ≠ visited →
  cylinder C start →
  sstf_reachable (Z.of_nat (length l)) req visited rseq
    (start, 0) (sstf_mem m l rseq visited [] []) st mm →
  ∃ w picks head,
    st = (head, Z.of_nat (length w)) ∧ mm = sstf_mem m l rseq visited w picks ∧
    cylinder C head ∧ serviced l picks ∧ length w = length picks ∧
    (length picks ≤ length l)%nat.
Proof.
  intros Hm Hreq Hsent Hcap Hr Hv Hne Hstart Hreach.
  assert (Hint : C - 1 ≤ INT_MAX) by (unfold INT_MAX; lia).
  induction Hreach as [|st mm st' mm' _ IH Hlt Hstep].
  - exists [], [], start. split; [done|]. split; [done|]. split; [done|].
    split; [split; [apply NoDup_nil_2 | apply Forall_nil_2]|]. cbn. split; [done|lia].
  - destruct IH as (w & picks & head & -> & -> & Hh & Hs & Hw & Hle).
    cbn [snd] in Hlt.
    rewrite (run_sstf_step C m req l Hm Hreq Hint Hsent Hcap rseq visited Hr Hv Hne
               w picks head Hh Hs ltac:(lia) Hw) in Hstep.
    set (i := Z.to_nat (scan l picks head (length l)).2) in *.
    destruct Hs as [Hnd Hall].
    destruct (scan_choice C l Hreq Hsent picks head Hh Hnd ltac:(lia)) as [_ (Hi & Hp & _)].
    fold i in Hi, Hp.
    inversion Hstep; subst st' mm'; clear Hstep.
    exists (w ++ [request l i]), (picks ++ [i]), (request l i).
    split; [done|]. split; [done|].
    split; [by apply (request_cylinder C l Hreq)|].
    split; [by apply serviced_snoc|].
    rewrite !length_app. cbn [length]. lia.
Qed.

(** C10.  Let all requests and the start position be valid cylinders, and
    let [rseq] and [visited] be the blocks of the two local arrays.  In
    every state the outer loop of [schedule_sstf] reaches with
    [count < NUM_REQUESTS], the inner scan ends with [bestDist] below the
    sentinel 1e9 and [0 <= bestIdx < NUM_REQUESTS], the size of [visited];
    the candidate is unvisited ([visited[bestIdx]] is 0) and [bestDist] is
    its distance [|req[bestIdx] - head|] from the head; [count] is a valid
    index of the 50-cell [r.seq]; and the iteration completes without a
    fault.  The function itself returns, within
    [NUM_REQUESTS] iterations of the outer loop. *)
Theorem sstf_scan_finds_candidate (C N : Z) (m : mem) (req rseq visited : block)
    (reqs : list Z) (start : Z) :
  config_ok C N →
  m !! req = Some (cells_of reqs) →
  Z.of_nat (length reqs) = N →
  Forall (cylinder C) reqs →
  cylinder C start →
  m !! rseq = None → m !! visited = None → rseq ≠ visited →
  let m0 : mem :=
    <[visited := replicate (Z.to_nat N) (Some 0)]> (<[rseq := fresh_seq]> m) in
  (∀ st mm,
     sstf_reachable N req visited rseq (start, 0) m0 st mm →
     st.2 < N →
     ∃ bestDist bestIdx vcells scells st' mm',
       run (sstf_scan N req visited st.1) mm = inr ((bestDist, bestIdx), mm) ∧
       bestDist < 1000000000 ∧
       mm !! visited = Some vcells ∧ 0 ≤ bestIdx < Z.of_nat (length vcells) ∧
       Z.of_nat (length vcells) = N ∧
       mm !! rseq = Some scells ∧ 0 ≤ st.2 < Z.of_nat (length scells) ∧
       Z.of_nat (length scells) = SEQ_CAPACITY ∧
       run (sstf_step N req visited rseq st) mm = inr (st', mm') ∧
       vcells !! Z.to_nat bestIdx = Some (Some 0) ∧
       (∃ x, reqs !! Z.to_nat bestIdx = Some x ∧ bestDist = Z.abs (x - st.1))) ∧
  (∀ fuel, (Z.to_nat N ≤ fuel)%nat →
     ∃ r, run (schedule_sstf N fuel req start) m = inr (r, m)).
Proof.
  intros Hc Hm Hlen Hreq Hstart Hr Hv Hne m0.
  pose proof (config_sentinel C N Hc) as Hsent.
  assert (Hint : C - 1 ≤ INT_MAX) by (unfold INT_MAX; lia).
  assert (Hcap : (length reqs ≤ Z.to_nat SEQ_CAPACITY)%nat)
    by (destruct Hc as (? & ? & _); lia).
  split.
  - intros st mm Hreach Hlt. subst N.
    assert (Hm0 : m0 = sstf_mem m reqs rseq visited [] []).
    { subst m0. unfold sstf_mem. rewrite mem_insert_swap by done.
      rewrite buffer_nil, marks_nil, Nat2Z.id. unfold cells_of.
      rewrite fmap_replicate. reflexivity. }
    rewrite Hm0 in Hreach.
    destruct (sstf_reachable_inv C m req reqs rseq visited start st mm
                Hm Hreq Hsent Hcap Hr Hv Hne Hstart Hreach)
      as (w & picks & head & -> & -> & Hh & Hs & Hw & Hle).
    cbn [fst snd] in *.
    assert (Hs' := Hs). destruct Hs' as [Hnd Hall].
    destruct (scan_choice C reqs Hreq Hsent picks head Hh Hnd ltac:(lia))
      as [E (Hi & Hp & _)].
    set (i := Z.to_nat (scan reqs picks head (length reqs)).2) in *.
    pose proof (seek_bound C reqs head i Hreq Hh Hi) as Hb.
    eexists (seek reqs head i), (Z.of_nat i), _, _, _, _.
    split; [rewrite <- E; by apply (run_sstf_scan C m req reqs Hm Hreq Hint)|].
    split; [lia|].
    split; [by apply sstf_mem_visited|].
    rewrite length_cells_of, length_marks.
    split; [lia|]. split; [done|].
    split; [apply sstf_mem_rseq|].
    rewrite length_buffer by lia.
    split; [lia|]. split; [lia|].
    split; [apply (run_sstf_step C m req reqs Hm Hreq Hint Hsent Hcap rseq visited
                     Hr Hv Hne); [done | done | lia | done]|].
    rewrite Nat2Z.id. split.
    + rewrite lookup_cells_of, lookup_marks by done.
      rewrite decide_False by done. reflexivity.
    + destruct (lookup_lt_is_Some_2 reqs i Hi) as [x Hx]. exists x.
      split; [done|]. by apply seek_lookup.
  - intros fuel Hfuel.
    eexists. by apply (sstf_returns C N m req reqs start fuel).
Qed.

Lemma sstf_scan_finds_candidate_witness :
  config_ok A4Q1.NUM_CYLINDERS A4Q1.NUM_REQUESTS ∧
  sample_mem !! 1%positive = Some (cells_of sample_requests) ∧
  Z.of_nat (length sample_requests) = A4Q1.NUM_REQUESTS ∧
  Forall (cylinder A4Q1.NUM_CYLINDERS) sample_requests ∧
  cylinder A4Q1.NUM_CYLINDERS 53 ∧
  sample_mem !! 3%positive = None ∧ sample_mem !! 4%positive = None ∧
  3%positive ≠ 4%positive ∧
  (∀ st mm,
     sstf_reachable A4Q1.NUM_REQUESTS 1%positive 4%positive 3%positive (53, 0)
       (<[4%positive := replicate (Z.to_nat A4Q1.NUM_REQUESTS) (Some 0)]>
          (<[3%positive := fresh_seq]> sample_mem)) st mm →
     st.2 < A4Q1.NUM_REQUESTS →
     ∃ bestDist bestIdx vcells scells st' mm',
       run (sstf_scan A4Q1.NUM_REQUESTS 1%positive 4%positive st.1) mm =
       inr ((bestDist, bestIdx), mm) ∧
       bestDist < 1000000000 ∧
       mm !! 4%positive = Some vcells ∧ 0 ≤ bestIdx < Z.of_nat (length vcells) ∧
       Z.of_nat (length vcells) = A4Q1.NUM_REQUESTS ∧
       mm !! 3%positive = Some scells ∧ 0 ≤ st.2 < Z.of_nat (length scells) ∧
       Z.of_nat (length scells) = SEQ_CAPACITY ∧
       run (sstf_step A4Q1.NUM_REQUESTS 1%positive 4%positive 3%positive st) mm =
       inr (st', mm') ∧
       vcells !! Z.to_nat bestIdx = Some (Some 0) ∧
       (∃ x, sample_requests !! Z.to_nat bestIdx = Some x ∧
             bestDist = Z.abs (x - st.1))) ∧
  (∀ fuel, (Z.to_nat A4Q1.NUM_REQUESTS ≤ fuel)%nat →
     ∃ r, run (schedule_sstf A4Q1.NUM_REQUESTS fuel 1%positive 53) sample_mem =
          inr (r, sample_mem)).
Proof.
  pose proof sample_valid as [H1 _ H3 H4 _ _ H7].
  assert (H5 : sample_mem !! 3%positive = None) by reflexivity.
  assert (H6 : sample_mem !! 4%positive = None) by reflexivity.
  assert (H8 : 3%positive ≠ 4%positive) by discriminate.
  exact (conj config_source (conj H1 (conj H3 (conj H4 (conj H7 (conj H5 (conj H6 (conj H8
    (sstf_scan_finds_candidate _ _ _ _ 3%positive 4%positive _ _
       config_source H1 H3 H4 H7 H5 H6 H8))))))))).
Defined.

(** ** C3 and C4: the shape of the SCAN and C-SCAN orders *)

Lemma sorted_segments (l : list Z) (k : nat) :
  Sorted Z.le l →
  Sorted Z.le (take k l) ∧ Sorted Z.le (drop k l) ∧
  Sorted (flip Z.le) (reverse (take k l)) ∧ Sorted (flip Z.le) (reverse (drop k l)).
Proof.
  intros Hs. apply Sorted_StronglySorted in Hs; [|apply _].
  rewrite <- (take_drop k l) in Hs.
  apply StronglySorted_app in Hs as (_ & H1 & H2).
  apply StronglySorted_Sorted in H1, H2.
  repeat split; try done; by apply Sorted_reverse.
Qed.

(** The sorted array alone is a valid input of the sweeps. *)
Lemma sweep_input C N m sorted srt start :
  m !! sorted = Some (cells_of srt) → Z.of_nat (length srt) = N →
  Forall (cylinder C) srt → Sorted Z.le srt → cylinder C start →
  valid_input C N m sorted sorted srt srt start.
Proof. intros. by split. Qed.

(** The two sides of the split: ascending runs of valid cylinders, the
    first strictly below the start position, the second at or above it. *)
Lemma below_facts C srt start :
  Forall (cylinder C) srt → Sorted Z.le srt →
  StronglySorted Z.le (below srt start) ∧
  Forall (λ x, x < start) (below srt start) ∧
  Forall (cylinder C) (below srt start).
Proof.
  intros Hcyl Hsorted. unfold below.
  destruct (sorted_segments srt (split_index srt start) Hsorted) as (H1 & _).
  split; [apply Sorted_StronglySorted; [apply _|done]|].
  split; [|by apply Forall_take].
  apply Forall_forall. intros x Hx. apply list_elem_of_lookup in Hx as [i Hi].
  apply lookup_take_Some in Hi as [Hi Hlt].
  by apply (split_index_below srt start i x).
Qed.

Lemma above_facts C srt start :
  Forall (cylinder C) srt → Sorted Z.le srt →
  StronglySorted Z.le (above srt start) ∧
  Forall (λ x, start ≤ x) (above srt start) ∧
  Forall (cylinder C) (above srt start).
Proof.
  intros Hcyl Hsorted. unfold above.
  destruct (sorted_segments srt (split_index srt start) Hsorted) as (_ & H2 & _).
  split; [apply Sorted_StronglySorted; [apply _|done]|].
  split; [|by apply Forall_drop].
  apply Forall_forall. intros x Hx. apply list_elem_of_lookup in Hx as [i Hi].
  rewrite lookup_drop in Hi.
  assert (HSS : StronglySorted Z.le srt) by (apply Sorted_StronglySorted; [apply _|done]).
  apply (split_index_above srt start HSS _ x Hi). lia.
Qed.

(** An ascending run between two bounds, with the bounds at its ends. *)
Lemma sorted_from (lo : Z) (l : list Z) :
  StronglySorted Z.le l → Forall (λ x, lo ≤ x) l → Sorted Z.le ([lo] ++ l).
Proof.
  intros Hs Hall. apply StronglySorted_Sorted. cbn [app]. by constructor.
Qed.

Lemma sorted_upto (l : list Z) (hi : Z) :
  StronglySorted Z.le l → Forall (λ x, x ≤ hi) l → StronglySorted Z.le (l ++ [hi]).
Proof.
  intros Hs Hall. apply StronglySorted_app_2; [|done|repeat constructor].
  intros x1 x2 H1 H2. apply list_elem_of_singleton in H2 as ->.
  rewrite Forall_forall in Hall. by apply Hall.
Qed.

Lemma sorted_between (lo hi : Z) (l : list Z) :
  StronglySorted Z.le l → Forall (λ x, lo ≤ x) l → Forall (λ x, x ≤ hi) l → lo ≤ hi →
  Sorted Z.le ([lo] ++ l ++ [hi]).
Proof.
  intros Hs Hlo Hhi Hle. apply sorted_from; [by apply sorted_upto|].
  apply Forall_app. split; [done|]. by apply Forall_singleton.
Qed.

Lemma sorted_down_from (hi : Z) (l : list Z) :
  StronglySorted Z.le l → Forall (λ x, x ≤ hi) l →
  Sorted (flip Z.le) ([hi] ++ reverse l).
Proof.
  intros Hs Hall.
  replace ([hi] ++ reverse l) with (reverse (l ++ [hi]))
    by (by rewrite reverse_app, reverse_singleton).
  apply Sorted_reverse, StronglySorted_Sorted. by apply sorted_upto.
Qed.

Lemma sorted_down_between (lo hi : Z) (l : list Z) :
  StronglySorted Z.le l → Forall (λ x, lo ≤ x) l → Forall (λ x, x ≤ hi) l → lo ≤ hi →
  Sorted (flip Z.le) ([hi] ++ reverse l ++ [lo]).
Proof.
  intros Hs Hlo Hhi Hle.
  replace ([hi] ++ reverse l ++ [lo]) with (reverse ([lo] ++ l ++ [hi])).
  - by apply Sorted_reverse, sorted_between.
  - rewrite !reverse_app, !reverse_singleton, <- app_assoc. reflexivity.
Qed.

(** Bounds on the two sides of the split, as the sweeps use them. *)
Lemma split_bounds C srt start :
  Forall (cylinder C) srt → Sorted Z.le srt → cylinder C start →
  let B := take (split_index srt start) srt in
  let A := drop (split_index srt start) srt in
  StronglySorted Z.le B ∧ StronglySorted Z.le A ∧
  Forall (λ x, x < start) B ∧ Forall (λ x, start ≤ x) A ∧
  Forall (λ x, 0 ≤ x) B ∧ Forall (λ x, x ≤ start) B ∧
  Forall (λ x, x ≤ C - 1) A ∧ Forall (λ x, 0 ≤ x) A ∧ Forall (λ x, x ≤ C - 1) B ∧
  0 ≤ start ≤ C - 1.
Proof.
  intros Hcyl Hs Hstart B A.
  destruct (below_facts C srt start Hcyl Hs) as (HBs & HBlt & HBc).
  destruct (above_facts C srt start Hcyl Hs) as (HAs & HAge & HAc).
  fold B in HBs, HBlt, HBc. fold A in HAs, HAge, HAc.
  unfold below in *. unfold above in *.
  repeat split; try done; try (unfold cylinder in Hstart; lia);
    try (eapply Forall_impl; [exact HBc|]; unfold cylinder; cbn; intros; lia);
    try (eapply Forall_impl; [exact HAc|]; unfold cylinder; cbn; intros; lia).
  eapply Forall_impl; [exact HBlt|]. cbn. intros. lia.
Qed.

(** C3.  On an array holding an ascending list of [NUM_REQUESTS] cylinder
    numbers and for an in-range start position, with [idx] the index
    [find_index] returns: [schedule_scan] with DIR_LEFT returns the requests
    below index [idx] in descending order, then the boundary cylinder 0 once,
    then the requests from [idx] on in ascending order; with DIR_RIGHT the
    requests from [idx] on ascending, then the boundary cylinder
    [NUM_CYLINDERS - 1] once, then the requests below [idx] descending.  The
    boundary entry is always there ([NUM_REQUESTS + 1] entries), also when
    one side of the split is empty.  The index [idx] is the split at the
    start position: every request below [idx] is strictly below the start
    position and every request from [idx] on is at or above it, so that the
    head moves monotonically from the start position to the boundary and
    monotonically back from there. *)
Theorem scan_order_shape (C N : Z) (m : mem) (sorted : block) (srt : list Z)
    (start : Z) (dir : Direction) :
  config_ok C N →
  m !! sorted = Some (cells_of srt) →
  Z.of_nat (length srt) = N →
  Forall (cylinder C) srt →
  Sorted Z.le srt →
  cylinder C start →
  ∃ (idx : nat) (r : Result),
    run (find_index sorted N start) m = inr (Z.of_nat idx, m) ∧
    run (schedule_scan C N sorted start dir) m = inr (r, m) ∧
    entries r = cells_of
      match dir with
      | DIR_LEFT => reverse (take idx srt) ++ [0] ++ drop idx srt
      | DIR_RIGHT => drop idx srt ++ [C - 1] ++ reverse (take idx srt)
      end ∧
    len r = N + 1 ∧
    Sorted (flip Z.le) (reverse (take idx srt)) ∧
    Sorted Z.le (drop idx srt) ∧
    (idx = 0%nat → entries r = cells_of
       match dir with DIR_LEFT => [0] ++ srt | DIR_RIGHT => srt ++ [C - 1] end) ∧
    (idx = length srt → entries r = cells_of
       match dir with DIR_LEFT => reverse srt ++ [0] | DIR_RIGHT => [C - 1] ++ reverse srt end) ∧
    Forall (λ x, x < start) (take idx srt) ∧
    Forall (λ x, start ≤ x) (drop idx srt) ∧
    match dir with
    | DIR_LEFT =>
        Sorted (flip Z.le) ([start] ++ reverse (take idx srt) ++ [0]) ∧
        Sorted Z.le ([0] ++ drop idx srt)
    | DIR_RIGHT =>
        Sorted Z.le ([start] ++ drop idx srt ++ [C - 1]) ∧
        Sorted (flip Z.le) ([C - 1] ++ reverse (take idx srt))
    end.
Proof.
  intros Hc Hm Hlen Hcyl Hs Hstart.
  pose proof (sweep_input C N m sorted srt start Hm Hlen Hcyl Hs Hstart) as Hv.
  pose proof (run_schedule C N m sorted sorted srt srt start Hc Hv (Z.to_nat N) SCAN dir
                ltac:(lia)) as Hrun.
  cbn [schedule service_order] in Hrun.
  destruct (sorted_segments srt (split_index srt start) Hs) as (_ & Hup & Hdown & _).
  pose proof (length_below_above srt start) as Hba.
  exists (split_index srt start). eexists.
  split; [rewrite <- Hlen; by apply run_find_index|].
  split; [exact Hrun|].
  rewrite entries_written. cbn [len].
  assert (E : scan_order C srt start dir =
              match dir with
              | DIR_LEFT => reverse (take (split_index srt start) srt) ++ [0] ++
                            drop (split_index srt start) srt
              | DIR_RIGHT => drop (split_index srt start) srt ++ [C - 1] ++
                             reverse (take (split_index srt start) srt)
              end) by (by destruct dir).
  split; [by rewrite E|].
  split.
  { unfold below, above in Hba.
    destruct dir; cbn [scan_order]; rewrite !length_app, ?length_reverse; cbn [length];
      unfold below, above; lia. }
  split; [done|]. split; [done|]. rewrite E.
  destruct (split_bounds C srt start Hcyl Hs Hstart)
    as (HBs & HAs & HBlt & HAge & HB0 & HBle & HAhi & HA0 & HBhi & Hst).
  split; [|split; [|split; [done|split; [done|]]]].
  - intros ->. rewrite take_0, drop_0, reverse_nil. destruct dir; [done|].
    by rewrite app_nil_r.
  - intros ->. rewrite firstn_all, drop_all. destruct dir; [|done].
    by rewrite app_nil_r.
  - destruct dir; split.
    + apply sorted_down_between; [done|done|done|lia].
    + by apply sorted_from.
    + apply sorted_between; [done|done|done|lia].
    + by apply sorted_down_from.
Qed.

Lemma scan_order_shape_witness :
  config_ok A4Q1.NUM_CYLINDERS A4Q1.NUM_REQUESTS ∧
  sample_mem !! 2%positive = Some (cells_of sample_sorted) ∧
  Z.of_nat (length sample_sorted) = A4Q1.NUM_REQUESTS ∧
  Forall (cylinder A4Q1.NUM_CYLINDERS) sample_sorted ∧
  Sorted Z.le sample_sorted ∧
  cylinder A4Q1.NUM_CYLINDERS 53 ∧
  ∃ (idx : nat) (r : Result),
    run (find_index 2%positive A4Q1.NUM_REQUESTS 53) sample_mem =
    inr (Z.of_nat idx, sample_mem) ∧
    run (schedule_scan A4Q1.NUM_CYLINDERS A4Q1.NUM_REQUESTS 2%positive 53 DIR_LEFT)
      sample_mem = inr (r, sample_mem) ∧
    entries r = cells_of
      (reverse (take idx sample_sorted) ++ [0] ++ drop idx sample_sorted) ∧
    len r = A4Q1.NUM_REQUESTS + 1 ∧
    Sorted (flip Z.le) (reverse (take idx sample_sorted)) ∧
    Sorted Z.le (drop idx sample_sorted) ∧
    (idx = 0%nat → entries r = cells_of ([0] ++ sample_sorted)) ∧
    (idx = length sample_sorted → entries r = cells_of (reverse sample_sorted ++ [0])) ∧
    Forall (λ x, x < 53) (take idx sample_sorted) ∧
    Forall (λ x, 53 ≤ x) (drop idx sample_sorted) ∧
    (Sorted (flip Z.le) ([53] ++ reverse (take idx sample_sorted) ++ [0]) ∧
     Sorted Z.le ([0] ++ drop idx sample_sorted)).
Proof.
  pose proof sample_valid as [_ H2 _ _ _ H6 H7].
  assert (H3 : Z.of_nat (length sample_sorted) = A4Q1.NUM_REQUESTS) by reflexivity.
  assert (H4 : Forall (cylinder A4Q1.NUM_CYLINDERS) sample_sorted)
    by (apply (bool_decide_unpack _); vm_compute; exact I).
  exact (conj config_source (conj H2 (conj H3 (conj H4 (conj H6 (conj H7
    (scan_order_shape _ _ _ _ _ 53 DIR_LEFT config_source H2 H3 H4 H6 H7))))))).
Defined.

(** C4.  Under the same conditions [schedule_cscan] with DIR_RIGHT returns
    the requests from [idx] on in ascending order, then the boundary
    [NUM_CYLINDERS - 1], then the boundary 0, then the requests below [idx]
    in ascending order again; with DIR_LEFT the requests below [idx]
    descending, then 0, then [NUM_CYLINDERS - 1], then the requests from
    [idx] on descending.  Both request runs are monotonic in the sweep
    direction.  The index [idx] is the split at the start position (every
    request below [idx] is strictly below the start position, every request
    from [idx] on at or above it), so the traversal never reverses: for
    DIR_RIGHT the head position, the first run and the boundary
    [NUM_CYLINDERS - 1] are ascending, and so are the boundary 0 and the
    second run after the wrap; for DIR_LEFT the head position, the first run
    and the boundary 0 are descending, and so are the boundary
    [NUM_CYLINDERS - 1] and the second run. *)
Theorem cscan_order_shape (C N : Z) (m : mem) (sorted : block) (srt : list Z)
    (start : Z) (dir : Direction) :
  config_ok C N →
  m !! sorted = Some (cells_of srt) →
  Z.of_nat (length srt) = N →
  Forall (cylinder C) srt →
  Sorted Z.le srt →
  cylinder C start →
  ∃ (idx : nat) (r : Result),
    run (find_index sorted N start) m = inr (Z.of_nat idx, m) ∧
    run (schedule_cscan C N sorted start dir) m = inr (r, m) ∧
    entries r = cells_of
      match dir with
      | DIR_RIGHT => drop idx srt ++ [C - 1; 0] ++ take idx srt
      | DIR_LEFT => reverse (take idx srt) ++ [0; C - 1] ++ reverse (drop idx srt)
      end ∧
    len r = N + 2 ∧
    match dir with
    | DIR_RIGHT => Sorted Z.le (drop idx srt) ∧ Sorted Z.le (take idx srt)
    | DIR_LEFT => Sorted (flip Z.le) (reverse (take idx srt)) ∧
                  Sorted (flip Z.le) (reverse (drop idx srt))
    end ∧
    Forall (λ x, x < start) (take idx srt) ∧
    Forall (λ x, start ≤ x) (drop idx srt) ∧
    match dir with
    | DIR_RIGHT =>
        Sorted Z.le ([start] ++ drop idx srt ++ [C - 1]) ∧
        Sorted Z.le ([0] ++ take idx srt)
    | DIR_LEFT =>
        Sorted (flip Z.le) ([start] ++ reverse (take idx srt) ++ [0]) ∧
        Sorted (flip Z.le) ([C - 1] ++ reverse (drop idx srt))
    end.
Proof.
  intros Hc Hm Hlen Hcyl Hs Hstart.
  pose proof (sweep_input C N m sorted srt start Hm Hlen Hcyl Hs Hstart) as Hv.
  pose proof (run_schedule C N m sorted sorted srt srt start Hc Hv (Z.to_nat N) CSCAN dir
                ltac:(lia)) as Hrun.
  cbn [schedule service_order] in Hrun.
  destruct (sorted_segments srt (split_index srt start) Hs) as (Hlo & Hup & Hdown & Hupd).
  pose proof (length_below_above srt start) as Hba.
  exists (split_index srt start). eexists.
  split; [rewrite <- Hlen; by apply run_find_index|].
  split; [exact Hrun|].
  rewrite entries_written. cbn [len].
  split; [by destruct dir|].
  destruct (split_bounds C srt start Hcyl Hs Hstart)
    as (HBs & HAs & HBlt & HAge & HB0 & HBle & HAhi & HA0 & HBhi & Hst).
  split; [|split; [by destruct dir|split; [done|split; [done|]]]].
  - unfold below, above in Hba.
    destruct dir; cbn [cscan_order]; rewrite !length_app, ?length_reverse; cbn [length];
      unfold below, above; rewrite ?length_reverse; lia.
  - destruct dir; split.
    + apply sorted_down_between; [done|done|done|lia].
    + by apply sorted_down_from.
    + apply sorted_between; [done|done|done|lia].
    + by apply sorted_from.
Qed.

Lemma cscan_order_shape_witness :
  config_ok A4Q1.NUM_CYLINDERS A4Q1.NUM_REQUESTS ∧
  sample_mem !! 2%positive = Some (cells_of sample_sorted) ∧
  Z.of_nat (length sample_sorted) = A4Q1.NUM_REQUESTS ∧
  Forall (cylinder A4Q1.NUM_CYLINDERS) sample_sorted ∧
  Sorted Z.le sample_sorted ∧
  cylinder A4Q1.NUM_CYLINDERS 53 ∧
  ∃ (idx : nat) (r : Result),
    run (find_index 2%positive A4Q1.NUM_REQUESTS 53) sample_mem =
    inr (Z.of_nat idx, sample_mem) ∧
    run (schedule_cscan A4Q1.NUM_CYLINDERS A4Q1.NUM_REQUESTS 2%positive 53 DIR_RIGHT)
      sample_mem = inr (r, sample_mem) ∧
    entries r = cells_of
      (drop idx sample_sorted ++ [A4Q1.NUM_CYLINDERS - 1; 0] ++ take idx sample_sorted) ∧
    len r = A4Q1.NUM_REQUESTS + 2 ∧
    (Sorted Z.le (drop idx sample_sorted) ∧ Sorted Z.le (take idx sample_sorted)) ∧
    Forall (λ x, x < 53) (take idx sample_sorted) ∧
    Forall (λ x, 53 ≤ x) (drop idx sample_sorted) ∧
    (Sorted Z.le ([53] ++ drop idx sample_sorted ++ [A4Q1.NUM_CYLINDERS - 1]) ∧
     Sorted Z.le ([0] ++ take idx sample_sorted)).
Proof.
  pose proof sample_valid as [_ H2 _ _ _ H6 H7].
  assert (H3 : Z.of_nat (length sample_sorted) = A4Q1.NUM_REQUESTS) by reflexivity.
  assert (H4 : Forall (cylinder A4Q1.NUM_CYLINDERS) sample_sorted)
    by (apply (bool_decide_unpack _); vm_compute; exact I).
  exact (conj config_source (conj H2 (conj H3 (conj H4 (conj H6 (conj H7
    (cscan_order_shape _ _ _ _ _ 53 DIR_RIGHT config_source H2 H3 H4 H6 H7))))))).
Defined.

(** ** C7: LOOK against SCAN *)

Lemma last_reverse_hd (s : list Z) d : List.last (reverse s) d = hd d s.
Proof. destruct s as [|x s]; [reflexivity|]. rewrite reverse_cons. apply last_last. Qed.

Lemma last_nil_or_same (s : list Z) d d' :
  (s = [] ∧ List.last s d = d ∧ List.last s d' = d') ∨
  (List.last s d = List.last s d' ∧ List.last s d ∈ s).
Proof.
  destruct s as [|x s]; [left; done|]. right.
  rewrite !last_cons. split; [done|].
  revert x. induction s as [|y s IH]; intros x; [cbn; by left|].
  rewrite last_cons. right. apply IH.
Qed.

Lemma hd_nil_or_same (s : list Z) d d' :
  (s = [] ∧ hd d s = d ∧ hd d' s = d') ∨ (hd d s = hd d' s ∧ hd d s ∈ s).
Proof. destruct s as [|x s]; [left; done|]. right. cbn. split; [done|by left]. Qed.

Lemma travel_ascending s head :
  StronglySorted Z.le s → Forall (λ x, head ≤ x) s →
  travel s head = List.last s head - head.
Proof.
  intros Hs. revert head. induction Hs as [|x rest Hrest IH Hx]; intros head Hh.
  - cbn. lia.
  - apply Forall_cons_1 in Hh as [Hhx _].
    cbn [travel]. rewrite last_cons, (IH x Hx). lia.
Qed.

Lemma travel_descending s head :
  StronglySorted Z.le s → Forall (λ x, x ≤ head) s →
  travel (reverse s) head = head - hd head s.
Proof.
  intros Hs. revert head. induction Hs as [|x rest Hrest IH Hx]; intros head Hh.
  - cbn. lia.
  - apply Forall_cons_1 in Hh as [Hhx Hh].
    rewrite reverse_cons, travel_app, (IH head Hh), last_reverse_hd.
    cbn [travel hd].
    assert (x ≤ hd head rest).
    { destruct rest as [|y rest']; cbn; [done|]. by apply Forall_cons_1 in Hx as [? _]. }
    lia.
Qed.

(** SCAN against LOOK for any split of the requests into an ascending run
    [B] below the start position and an ascending run [A] at or above it. *)
Section ScanLook.

Variables (C : Z) (B A : list Z) (start : Z).
Hypothesis HBs : StronglySorted Z.le B.
Hypothesis HBlt : Forall (λ x, x < start) B.
Hypothesis HBc : Forall (cylinder C) B.
Hypothesis HAs : StronglySorted Z.le A.
Hypothesis HAge : Forall (λ x, start ≤ x) A.
Hypothesis HAc : Forall (cylinder C) A.
Hypothesis Hstart : cylinder C start.

(** SCAN minus LOOK, sweeping left first: once or twice the lowest position
    LOOK reaches. *)
Lemma scan_look_left :
  ∃ k, (k = 1 ∨ k = 2) ∧
    travel (reverse B ++ [0] ++ A) start - travel (reverse B ++ A) start
    = k * hd start B ∧
    0 ≤ hd start B ∧
    (0 < hd start B ↔ (0 ∉ B ++ A) ∧ start ≠ 0).
Proof.
  assert (HBle : Forall (λ x, x ≤ start) B)
    by (eapply Forall_impl; [exact HBlt|]; intros x Hx; cbn in *; lia).
  assert (Hlo : 0 ≤ hd start B ≤ start).
  { destruct (hd_nil_or_same B start start) as [(_ & -> & _)|[_ Hin]].
    - unfold cylinder in Hstart. lia.
    - pose proof (proj1 (Forall_forall _ _) HBlt _ Hin) as Hfa1. cbn beta in Hfa1.
      pose proof (proj1 (Forall_forall _ _) HBc _ Hin) as Hc. cbn beta in Hc.
      unfold cylinder in Hc. lia. }
  rewrite !travel_app, !(travel_descending B start HBs HBle), !last_reverse_hd.
  cbn [travel app]. rewrite !last_cons. cbn [List.last].
  rewrite (travel_ascending A 0 HAs),
          (travel_ascending A (hd start B) HAs).
  2:{ eapply Forall_impl; [exact HAge|]. intros x Hx. cbn in *. lia. }
  2:{ eapply Forall_impl; [exact HAc|]. unfold cylinder. intros x Hx. cbn in *. lia. }
  assert (Hk : ∃ k, (k = 1 ∨ k = 2) ∧
             List.last A 0 + hd start B - List.last A (hd start B) + hd start B
             = k * hd start B).
  { destruct (last_nil_or_same A 0 (hd start B)) as [(_ & -> & ->)|[-> _]].
    - exists 1. split; [by left|lia].
    - exists 2. split; [by right|lia]. }
  destruct Hk as (k & Hk & E). exists k. split; [done|]. split; [lia|].
  split; [lia|]. split.
  - intros Hpos. split; [|lia]. intros H0. apply elem_of_app in H0 as [H0|H0].
    + assert (hd start B ≤ 0); [|lia].
      clear -HBs H0. destruct HBs as [|b B' HB' Hb]; [by apply elem_of_nil in H0|]. cbn.
      apply elem_of_cons in H0 as [<-|H0]; [done|].
      rewrite Forall_forall in Hb. by apply Hb.
    + pose proof (proj1 (Forall_forall _ _) HAge 0 H0) as Hfa3. cbn beta in Hfa3. lia.
  - intros [Hnot Hne].
    destruct (hd_nil_or_same B start start) as [(_ & -> & _)|[_ Hin]].
    + unfold cylinder in Hstart. lia.
    + assert (hd start B ≠ 0); [|lia]. intros E0. apply Hnot.
      apply elem_of_app. left. by rewrite <- E0.
Qed.

Lemma last_ascending_max (s : list Z) x d :
  StronglySorted Z.le s → x ∈ s → x ≤ List.last s d.
Proof.
  intros Hs. revert d. induction Hs as [|a s' Hs' IH Ha]; intros d Hx;
    [by apply elem_of_nil in Hx|].
  rewrite last_cons. apply elem_of_cons in Hx as [->|Hx].
  - destruct (last_nil_or_same s' a a) as [(_ & -> & _)|[_ Hin]]; [done|].
    rewrite Forall_forall in Ha. by apply Ha.
  - by apply IH.
Qed.

(** SCAN minus LOOK, sweeping right first: once or twice the distance from
    the highest position LOOK reaches to the last cylinder. *)
Lemma scan_look_right :
  ∃ k, (k = 1 ∨ k = 2) ∧
    travel (A ++ [C - 1] ++ reverse B) start - travel (A ++ reverse B) start
    = k * (C - 1 - List.last A start) ∧
    List.last A start ≤ C - 1 ∧
    (List.last A start < C - 1 ↔ ((C - 1) ∉ B ++ A) ∧ start ≠ C - 1).
Proof.
  assert (Hhi : start ≤ List.last A start ≤ C - 1).
  { destruct (last_nil_or_same A start start) as [(_ & -> & _)|[_ Hin]].
    - unfold cylinder in Hstart. lia.
    - pose proof (proj1 (Forall_forall _ _) HAge _ Hin) as Hfa4. cbn beta in Hfa4.
      pose proof (proj1 (Forall_forall _ _) HAc _ Hin) as Hc. cbn beta in Hc.
      unfold cylinder in Hc. lia. }
  rewrite !travel_app, !(travel_ascending A start HAs HAge).
  cbn [travel app]. rewrite !last_cons. cbn [List.last].
  rewrite (travel_descending B (C - 1) HBs),
          (travel_descending B (List.last A start) HBs).
  2:{ eapply Forall_impl; [exact HBlt|]. intros x Hx. cbn in *. lia. }
  2:{ eapply Forall_impl; [exact HBc|]. unfold cylinder. intros x Hx. cbn in *. lia. }
  assert (Hk : ∃ k, (k = 1 ∨ k = 2) ∧
             (C - 1 - List.last A start) + (C - 1 - hd (C - 1) B)
             - (List.last A start - hd (List.last A start) B)
             = k * (C - 1 - List.last A start)).
  { destruct (hd_nil_or_same B (C - 1) (List.last A start)) as [(_ & -> & ->)|[-> _]].
    - exists 1. split; [by left|lia].
    - exists 2. split; [by right|lia]. }
  destruct Hk as (k & Hk & E). exists k. split; [done|]. split; [lia|].
  split; [lia|]. split.
  - intros Hlt. split; [|lia]. intros Htop. apply elem_of_app in Htop as [Htop|Htop].
    + pose proof (proj1 (Forall_forall _ _) HBlt _ Htop) as Hfa6. cbn beta in Hfa6. lia.
    + pose proof (last_ascending_max A (C - 1) start HAs Htop). lia.
  - intros [Hnot Hne].
    destruct (last_nil_or_same A start start) as [(_ & -> & _)|[_ Hin]].
    + unfold cylinder in Hstart. lia.
    + assert (List.last A start ≠ C - 1); [|lia]. intros E0. apply Hnot.
      apply elem_of_app. right. by rewrite <- E0.
Qed.

End ScanLook.

Lemma scan_look_movement C srt start dir :
  Forall (cylinder C) srt → Sorted Z.le srt → cylinder C start →
  travel (look_order srt start dir) start ≤ travel (scan_order C srt start dir) start ∧
  (travel (look_order srt start dir) start < travel (scan_order C srt start dir) start ↔
   (edge C dir ∉ srt) ∧ start ≠ edge C dir).
Proof.
  intros Hcyl Hsorted Hstart.
  destruct (below_facts C srt start Hcyl Hsorted) as (HBs & HBlt & HBc).
  destruct (above_facts C srt start Hcyl Hsorted) as (HAs & HAge & HAc).
  destruct dir; cbn [edge scan_order look_order].
  - destruct (scan_look_left C _ _ start HBs HBlt HBc HAs HAge HAc Hstart)
      as (k & Hk & E & Hnn & Hiff).
    rewrite below_above in Hiff.
    split; [nia|]. rewrite <- Hiff. split; intros; nia.
  - destruct (scan_look_right C _ _ start HBs HBlt HBc HAs HAge HAc Hstart)
      as (k & Hk & E & Hnn & Hiff).
    rewrite below_above in Hiff.
    split; [nia|]. rewrite <- Hiff. split; intros; nia.
Qed.

(** C7, as amended.  On every valid input and for either direction the
    total movement of [schedule_look] is at most that of [schedule_scan],
    whether or not the boundary cylinder is a request; and it is strictly
    smaller exactly when the boundary cylinder the sweep runs to (0 for
    DIR_LEFT, [NUM_CYLINDERS - 1] for DIR_RIGHT) is neither a request nor the
    start position. *)
Theorem look_movement_at_most_scan (C N : Z) (m : mem) (sorted : block) (srt : list Z)
    (start : Z) (dir : Direction) :
  config_ok C N →
  m !! sorted = Some (cells_of srt) →
  Z.of_nat (length srt) = N →
  Forall (cylinder C) srt →
  Sorted Z.le srt →
  cylinder C start →
  ∃ r_scan r_look,
    run (schedule_scan C N sorted start dir) m = inr (r_scan, m) ∧
    run (schedule_look N sorted start dir) m = inr (r_look, m) ∧
    movement r_look ≤ movement r_scan ∧
    (movement r_look < movement r_scan ↔ (edge C dir ∉ srt) ∧ start ≠ edge C dir).
Proof.
  intros Hc Hm Hlen Hcyl Hs Hstart.
  pose proof (sweep_input C N m sorted srt start Hm Hlen Hcyl Hs Hstart) as Hv.
  pose proof (run_schedule C N m sorted sorted srt srt start Hc Hv (Z.to_nat N) SCAN dir
                ltac:(lia)) as Hscan.
  pose proof (run_schedule C N m sorted sorted srt srt start Hc Hv (Z.to_nat N) LOOK dir
                ltac:(lia)) as Hlook.
  cbn [schedule service_order] in Hscan, Hlook.
  eexists _, _. split; [exact Hscan|]. split; [exact Hlook|]. cbn [movement].
  apply (scan_look_movement C srt start dir Hcyl Hs Hstart).
Qed.

Lemma look_movement_at_most_scan_witness :
  config_ok A4Q1.NUM_CYLINDERS A4Q1.NUM_REQUESTS ∧
  sample_mem !! 2%positive = Some (cells_of sample_sorted) ∧
  Z.of_nat (length sample_sorted) = A4Q1.NUM_REQUESTS ∧
  Forall (cylinder A4Q1.NUM_CYLINDERS) sample_sorted ∧
  Sorted Z.le sample_sorted ∧
  cylinder A4Q1.NUM_CYLINDERS 53 ∧
  ∃ r_scan r_look,
    run (schedule_scan A4Q1.NUM_CYLINDERS A4Q1.NUM_REQUESTS 2%positive 53 DIR_RIGHT)
      sample_mem = inr (r_scan, sample_mem) ∧
    run (schedule_look A4Q1.NUM_REQUESTS 2%positive 53 DIR_RIGHT)
      sample_mem = inr (r_look, sample_mem) ∧
    movement r_look ≤ movement r_scan ∧
    (movement r_look < movement r_scan ↔
     (edge A4Q1.NUM_CYLINDERS DIR_RIGHT ∉ sample_sorted) ∧
     53 ≠ edge A4Q1.NUM_CYLINDERS DIR_RIGHT).
Proof.
  pose proof sample_valid as [_ H2 _ _ _ H6 H7].
  assert (H3 : Z.of_nat (length sample_sorted) = A4Q1.NUM_REQUESTS) by reflexivity.
  assert (H4 : Forall (cylinder A4Q1.NUM_CYLINDERS) sample_sorted)
    by (apply (bool_decide_unpack _); vm_compute; exact I).
  exact (conj config_source (conj H2 (conj H3 (conj H4 (conj H6 (conj H7
    (look_movement_at_most_scan _ _ _ _ _ 53 DIR_RIGHT config_source H2 H3 H4 H6 H7))))))).
Defined.

(** C7 as stated fails on the code.  With 20 sorted requests that include
    cylinder 0 but not cylinder 299 and the head starting at 299, the
    boundary the rightward sweep runs to (299) is not a request and the
    requests do not span both edges, yet LOOK and SCAN report the same total
    movement in both directions: the inequality is strict on neither side.
    And with no request on either edge and the head starting at 0, the
    leftward LOOK and SCAN totals are equal as well. *)
Lemma look_scan_strictness_counterexample :
  (edge_mem !! 2%positive = Some (cells_of edge_sorted) ∧
   Z.of_nat (length edge_sorted) = A4Q1.NUM_REQUESTS ∧
   Forall (cylinder A4Q1.NUM_CYLINDERS) edge_sorted ∧
   Sorted Z.le edge_sorted ∧
   cylinder A4Q1.NUM_CYLINDERS 299 ∧
   (edge A4Q1.NUM_CYLINDERS DIR_RIGHT ∉ edge_sorted) ∧
   ¬ (0 ∈ edge_sorted ∧ (A4Q1.NUM_CYLINDERS - 1) ∈ edge_sorted) ∧
   movement_of (run (schedule_scan A4Q1.NUM_CYLINDERS A4Q1.NUM_REQUESTS
                       2%positive 299 DIR_RIGHT) edge_mem) = Some 299 ∧
   movement_of (run (schedule_look A4Q1.NUM_REQUESTS 2%positive 299 DIR_RIGHT) edge_mem)
     = Some 299 ∧
   movement_of (run (schedule_scan A4Q1.NUM_CYLINDERS A4Q1.NUM_REQUESTS
                       2%positive 299 DIR_LEFT) edge_mem) = Some 299 ∧
   movement_of (run (schedule_look A4Q1.NUM_REQUESTS 2%positive 299 DIR_LEFT) edge_mem)
     = Some 299) ∧
  (valid_input A4Q1.NUM_CYLINDERS A4Q1.NUM_REQUESTS sample_mem 1%positive 2%positive
     sample_requests sample_sorted 0 ∧
   (edge A4Q1.NUM_CYLINDERS DIR_LEFT ∉ sample_sorted) ∧
   ((A4Q1.NUM_CYLINDERS - 1) ∉ sample_sorted) ∧
   movement_of (run (schedule_scan A4Q1.NUM_CYLINDERS A4Q1.NUM_REQUESTS
                       2%positive 0 DIR_LEFT) sample_mem) = Some 290 ∧
   movement_of (run (schedule_look A4Q1.NUM_REQUESTS 2%positive 0 DIR_LEFT) sample_mem)
     = Some 290).
Proof.
  split.
  - split; [reflexivity|]. split; [reflexivity|].
    split; [apply (bool_decide_unpack _); vm_compute; exact I|].
    split; [apply (bool_decide_unpack _); vm_compute; exact I|].
    split; [unfold cylinder, A4Q1.NUM_CYLINDERS; lia|].
    split; [apply (bool_decide_unpack _); vm_compute; exact I|].
    split; [apply (bool_decide_unpack _); vm_compute; exact I|].
    repeat split; vm_compute; reflexivity.
  - split.
    { destruct sample_valid as [H1 H2 H3 H4 H5 H6 _].
      split; (done || (unfold cylinder, A4Q1.NUM_CYLINDERS; lia)). }
    split; [apply (bool_decide_unpack _); vm_compute; exact I|].
    split; [apply (bool_decide_unpack _); vm_compute; exact I|].
    split; vm_compute; reflexivity.
Qed.

(** ** C8: the eight-request fixture *)

(** C8, as amended.  With the request count [NUM_REQUESTS] set to 8 (the
    source fixes it at 20) and the array holding 98, 183, 37, 122, 14, 124,
    65, 67, [schedule_sstf] from start position 53 returns the order
    65, 67, 37, 14, 98, 122, 124, 183 with total movement 236; the function
    takes no direction. *)
Theorem sstf_fixture (m : mem) (req : block) (fuel : nat) :
  m !! req = Some (cells_of fixture_requests) →
  (8 ≤ fuel)%nat →
  ∃ r,
    run (schedule_sstf 8 fuel req 53) m = inr (r, m) ∧
    entries r = cells_of [65; 67; 37; 14; 98; 122; 124; 183] ∧
    len r = 8 ∧
    movement r = 236.
Proof.
  intros Hm Hfuel.
  assert (Hcyl : Forall (cylinder 300) fixture_requests)
    by (apply (bool_decide_unpack _); vm_compute; exact I).
  assert (Horder : sstf_order fixture_requests 53 = [65; 67; 37; 14; 98; 122; 124; 183])
    by (vm_compute; reflexivity).
  eexists. split.
  - rewrite (run_schedule_sstf 300 8 fuel m req fixture_requests 53 Hm Hcyl);
      [| unfold cylinder; lia | reflexivity | unfold SEQ_CAPACITY; lia | lia | cbn; lia].
    rewrite Horder. apply outcome_ok. vm_compute. discriminate.
  - rewrite entries_written. cbn [len movement]. split; [reflexivity|].
    split; reflexivity.
Qed.

Lemma sstf_fixture_witness :
  fixture_mem !! 1%positive = Some (cells_of fixture_requests) ∧
  (8 ≤ 8)%nat ∧
  ∃ r,
    run (schedule_sstf 8 8 1%positive 53) fixture_mem = inr (r, fixture_mem) ∧
    entries r = cells_of [65; 67; 37; 14; 98; 122; 124; 183] ∧
    len r = 8 ∧
    movement r = 236.
Proof.
  exact (conj eq_refl (conj (le_n 8) (sstf_fixture fixture_mem 1%positive 8 eq_refl (le_n 8)))).
Defined.

(** C8 as stated fails on the code.  The source compiles [schedule_sstf]
    for 20 requests: on the array of the 8 fixture requests its first scan
    reads [req[8]], outside the array, and no order is produced. *)
Lemma sstf_fixture_counterexample :
  Z.of_nat (length fixture_requests) = 8 ∧
  run (schedule_sstf A4Q1.NUM_REQUESTS 20 1%positive 53) fixture_mem = inl OutOfBounds.
Proof. split; vm_compute; reflexivity. Qed.

(** * Further properties of the code *)

(** ** FCFS *)

(** X1.  [schedule_fcfs] on an array of [NUM_REQUESTS] (at most 50) ints
    returns them in arrival order, [NUM_REQUESTS] entries, with the movement
    of that order from the start position, whenever that movement is at most
    [INT_MAX]; memory is left as it was. *)
Theorem fcfs_keeps_arrival_order (N : Z) (m : mem) (req : block) (reqs : list Z)
    (start : Z) :
  m !! req = Some (cells_of reqs) →
  Z.of_nat (length reqs) = N →
  N ≤ SEQ_CAPACITY →
  movement_sum reqs start ≤ INT_MAX →
  ∃ r,
    run (schedule_fcfs N req start) m = inr (r, m) ∧
    entries r = cells_of reqs ∧
    len r = N ∧
    movement r = movement_sum reqs start.
Proof.
  intros Hm Hlen Hcap Hsum. rewrite movement_sum_travel in Hsum.
  eexists. split.
  - rewrite (run_schedule_fcfs N m req reqs start Hm Hlen Hcap).
    apply outcome_ok, Hsum.
  - rewrite entries_written. cbn [len movement].
    split; [done|]. split; [done|]. by rewrite movement_sum_travel.
Qed.

Lemma fcfs_keeps_arrival_order_witness :
  sample_mem !! 1%positive = Some (cells_of sample_requests) ∧
  Z.of_nat (length sample_requests) = A4Q1.NUM_REQUESTS ∧
  A4Q1.NUM_REQUESTS ≤ SEQ_CAPACITY ∧
  movement_sum sample_requests 53 ≤ INT_MAX ∧
  ∃ r,
    run (schedule_fcfs A4Q1.NUM_REQUESTS 1%positive 53) sample_mem = inr (r, sample_mem) ∧
    entries r = cells_of sample_requests ∧
    len r = A4Q1.NUM_REQUESTS ∧
    movement r = movement_sum sample_requests 53.
Proof.
  assert (H3 : A4Q1.NUM_REQUESTS ≤ SEQ_CAPACITY) by (vm_compute; discriminate).
  assert (H4 : movement_sum sample_requests 53 ≤ INT_MAX) by (vm_compute; discriminate).
  exact (conj eq_refl (conj eq_refl (conj H3 (conj H4
    (fcfs_keeps_arrival_order A4Q1.NUM_REQUESTS sample_mem 1%positive sample_requests 53
       eq_refl eq_refl H3 H4))))).
Defined.

(** ** LOOK and C-LOOK *)

(** X2.  On a sorted array of [NUM_REQUESTS] valid cylinders, with [idx] the
    index [find_index] returns, [schedule_look] returns exactly the
    [NUM_REQUESTS] requests: for DIR_LEFT those below [idx] in descending
    order and then those from [idx] on in ascending order, for DIR_RIGHT the
    other way round; and [schedule_scan] returns the same two runs with the
    boundary cylinder of the direction between them. *)
Theorem look_is_scan_without_boundary (C N : Z) (m : mem) (sorted : block)
    (srt : list Z) (start : Z) (dir : Direction) :
  config_ok C N →
  m !! sorted = Some (cells_of srt) →
  Z.of_nat (length srt) = N →
  Forall (cylinder C) srt →
  Sorted Z.le srt →
  cylinder C start →
  ∃ (idx : nat) (r_look r_scan : Result),
    run (find_index sorted N start) m = inr (Z.of_nat idx, m) ∧
    run (schedule_look N sorted start dir) m = inr (r_look, m) ∧
    run (schedule_scan C N sorted start dir) m = inr (r_scan, m) ∧
    let first_run :=
      match dir with
      | DIR_LEFT => reverse (take idx srt)
      | DIR_RIGHT => drop idx srt
      end in
    let second_run :=
      match dir with
      | DIR_LEFT => drop idx srt
      | DIR_RIGHT => reverse (take idx srt)
      end in
    entries r_look = cells_of (first_run ++ second_run) ∧
    len r_look = N ∧
    entries r_scan = cells_of (first_run ++ [edge C dir] ++ second_run).
Proof.
  intros Hc Hm Hlen Hcyl Hs Hstart.
  pose proof (sweep_input C N m sorted srt start Hm Hlen Hcyl Hs Hstart) as Hv.
  pose proof (run_schedule C N m sorted sorted srt srt start Hc Hv (Z.to_nat N) LOOK dir
                ltac:(lia)) as Hlook.
  pose proof (run_schedule C N m sorted sorted srt srt start Hc Hv (Z.to_nat N) SCAN dir
                ltac:(lia)) as Hscan.
  cbn [schedule service_order] in Hlook, Hscan.
  pose proof (length_below_above srt start) as Hba. unfold below, above in Hba.
  exists (split_index srt start). eexists _, _.
  split; [rewrite <- Hlen; by apply run_find_index|].
  split; [exact Hlook|]. split; [exact Hscan|].
  rewrite !entries_written. cbn [len].
  destruct dir; cbn [look_order scan_order edge]; unfold below, above;
    (split; [reflexivity|]); (split; [|reflexivity]);
    rewrite length_app, length_reverse; lia.
Qed.

Lemma look_is_scan_without_boundary_witness :
  config_ok A4Q1.NUM_CYLINDERS A4Q1.NUM_REQUESTS ∧
  sample_mem !! 2%positive = Some (cells_of sample_sorted) ∧
  Z.of_nat (length sample_sorted) = A4Q1.NUM_REQUESTS ∧
  Forall (cylinder A4Q1.NUM_CYLINDERS) sample_sorted ∧
  Sorted Z.le sample_sorted ∧
  cylinder A4Q1.NUM_CYLINDERS 53 ∧
  ∃ (idx : nat) (r_look r_scan : Result),
    run (find_index 2%positive A4Q1.NUM_REQUESTS 53) sample_mem =
      inr (Z.of_nat idx, sample_mem) ∧
    run (schedule_look A4Q1.NUM_REQUESTS 2%positive 53 DIR_LEFT) sample_mem =
      inr (r_look, sample_mem) ∧
    run (schedule_scan A4Q1.NUM_CYLINDERS A4Q1.NUM_REQUESTS 2%positive 53 DIR_LEFT)
      sample_mem = inr (r_scan, sample_mem) ∧
    entries r_look = cells_of (reverse (take idx sample_sorted) ++ drop idx sample_sorted) ∧
    len r_look = A4Q1.NUM_REQUESTS ∧
    entries r_scan = cells_of
      (reverse (take idx sample_sorted) ++ [edge A4Q1.NUM_CYLINDERS DIR_LEFT] ++
       drop idx sample_sorted).
Proof.
  pose proof sample_valid as [_ H2 _ _ _ H6 H7].
  assert (H3 : Z.of_nat (length sample_sorted) = A4Q1.NUM_REQUESTS) by reflexivity.
  assert (H4 : Forall (cylinder A4Q1.NUM_CYLINDERS) sample_sorted)
    by (apply (bool_decide_unpack _); vm_compute; exact I).
  exact (conj config_source (conj H2 (conj H3 (conj H4 (conj H6 (conj H7
    (look_is_scan_without_boundary A4Q1.NUM_CYLINDERS A4Q1.NUM_REQUESTS sample_mem
       2%positive sample_sorted 53 DIR_LEFT config_source H2 H3 H4 H6 H7))))))).
Defined.

(** X3.  Under the same conditions [schedule_clook] returns exactly the
    [NUM_REQUESTS] requests: for DIR_RIGHT those from [idx] on and then
    those below [idx], both in ascending order; for DIR_LEFT those below
    [idx] and then those from [idx] on, both in descending order; and
    [schedule_cscan] returns the same two runs with the two boundary
    cylinders between them, the one of the direction first. *)
Theorem clook_is_cscan_without_boundaries (C N : Z) (m : mem) (sorted : block)
    (srt : list Z) (start : Z) (dir : Direction) :
  config_ok C N →
  m !! sorted = Some (cells_of srt) →
  Z.of_nat (length srt) = N →
  Forall (cylinder C) srt →
  Sorted Z.le srt →
  cylinder C start →
  ∃ (idx : nat) (r_clook r_cscan : Result),
    run (find_index sorted N start) m = inr (Z.of_nat idx, m) ∧
    run (schedule_clook N sorted start dir) m = inr (r_clook, m) ∧
    run (schedule_cscan C N sorted start dir) m = inr (r_cscan, m) ∧
    let first_run :=
      match dir with
      | DIR_RIGHT => drop idx srt
      | DIR_LEFT => reverse (take idx srt)
      end in
    let second_run :=
      match dir with
      | DIR_RIGHT => take idx srt
      | DIR_LEFT => reverse (drop idx srt)
      end in
    let far_edge :=
      match dir with
      | DIR_RIGHT => edge C DIR_LEFT
      | DIR_LEFT => edge C DIR_RIGHT
      end in
    entries r_clook = cells_of (first_run ++ second_run) ∧
    len r_clook = N ∧
    entries r_cscan = cells_of (first_run ++ [edge C dir; far_edge] ++ second_run).
Proof.
  intros Hc Hm Hlen Hcyl Hs Hstart.
  pose proof (sweep_input C N m sorted srt start Hm Hlen Hcyl Hs Hstart) as Hv.
  pose proof (run_schedule C N m sorted sorted srt srt start Hc Hv (Z.to_nat N) CLOOK dir
                ltac:(lia)) as Hclook.
  pose proof (run_schedule C N m sorted sorted srt srt start Hc Hv (Z.to_nat N) CSCAN dir
                ltac:(lia)) as Hcscan.
  cbn [schedule service_order] in Hclook, Hcscan.
  pose proof (length_below_above srt start) as Hba. unfold below, above in Hba.
  exists (split_index srt start). eexists _, _.
  split; [rewrite <- Hlen; by apply run_find_index|].
  split; [exact Hclook|]. split; [exact Hcscan|].
  rewrite !entries_written. cbn [len].
  destruct dir; cbn [clook_order cscan_order edge]; unfold below, above;
    (split; [reflexivity|]); (split; [|reflexivity]);
    rewrite length_app, ?length_reverse; lia.
Qed.

Lemma clook_is_cscan_without_boundaries_witness :
  config_ok A4Q1.NUM_CYLINDERS A4Q1.NUM_REQUESTS ∧
  sample_mem !! 2%positive = Some (cells_of sample_sorted) ∧
  Z.of_nat (length sample_sorted) = A4Q1.NUM_REQUESTS ∧
  Forall (cylinder A4Q1.NUM_CYLINDERS) sample_sorted ∧
  Sorted Z.le sample_sorted ∧
  cylinder A4Q1.NUM_CYLINDERS 53 ∧
  ∃ (idx : nat) (r_clook r_cscan : Result),
    run (find_index 2%positive A4Q1.NUM_REQUESTS 53) sample_mem =
      inr (Z.of_nat idx, sample_mem) ∧
    run (schedule_clook A4Q1.NUM_REQUESTS 2%positive 53 DIR_RIGHT) sample_mem =
      inr (r_clook, sample_mem) ∧
    run (schedule_cscan A4Q1.NUM_CYLINDERS A4Q1.NUM_REQUESTS 2%positive 53 DIR_RIGHT)
      sample_mem = inr (r_cscan, sample_mem) ∧
    entries r_clook = cells_of (drop idx sample_sorted ++ take idx sample_sorted) ∧
    len r_clook = A4Q1.NUM_REQUESTS ∧
    entries r_cscan = cells_of
      (drop idx sample_sorted ++
       [edge A4Q1.NUM_CYLINDERS DIR_RIGHT; edge A4Q1.NUM_CYLINDERS DIR_LEFT] ++
       take idx sample_sorted).
Proof.
  pose proof sample_valid as [_ H2 _ _ _ H6 H7].
  assert (H3 : Z.of_nat (length sample_sorted) = A4Q1.NUM_REQUESTS) by reflexivity.
  assert (H4 : Forall (cylinder A4Q1.NUM_CYLINDERS) sample_sorted)
    by (apply (bool_decide_unpack _); vm_compute; exact I).
  exact (conj config_source (conj H2 (conj H3 (conj H4 (conj H6 (conj H7
    (clook_is_cscan_without_boundaries A4Q1.NUM_CYLINDERS A4Q1.NUM_REQUESTS sample_mem
       2%positive sample_sorted 53 DIR_RIGHT config_source H2 H3 H4 H6 H7))))))).
Defined.

(** ** What every [Result] satisfies *)

Lemma service_order_cylinders C N m req sorted reqs srt start alg dir :
  config_ok C N → valid_input C N m req sorted reqs srt start →
  Forall (cylinder C) (service_order C alg reqs srt start dir) ∧
  N ≤ Z.of_nat (length (service_order C alg reqs srt start dir)) ≤ N + 2.
Proof.
  intros Hc Hv.
  destruct (service_order_split C N m req sorted reqs srt start Hc Hv alg dir)
    as (pre & post & E & Hp).
  destruct (boundary_entries_cylinders C N Hc alg dir) as [Hb Hl].
  destruct Hv.
  assert (Hpp : Forall (cylinder C) (pre ++ post)) by (by rewrite Hp).
  apply Forall_app in Hpp as [Hpre Hpost].
  assert (Hlen : (length (pre ++ post) = length reqs)%nat) by (by rewrite Hp).
  rewrite length_app in Hlen. rewrite E. split.
  - by repeat apply Forall_app_2.
  - rewrite !length_app. lia.
Qed.

(** X4.  On a valid input every one of the six functions returns a [Result]
    that is coherent: its array has 50 cells of which the first [len] are
    written, [len] is [NUM_REQUESTS] plus at most two, every entry is a
    valid cylinder, and [movement] is the movement of exactly these entries
    from the start position, at most [len * (NUM_CYLINDERS - 1)]. *)
Theorem results_are_coherent (C N : Z) (m : mem) (req sorted : block)
    (reqs srt : list Z) (start : Z) (fuel : nat) (alg : algorithm) (dir : Direction) :
  config_ok C N →
  valid_input C N m req sorted reqs srt start →
  (Z.to_nat N ≤ fuel)%nat →
  ∃ r out,
    run (schedule C N fuel alg req sorted start dir) m = inr (r, m) ∧
    Z.of_nat (length (seq r)) = SEQ_CAPACITY ∧
    entries r = cells_of out ∧
    len r = Z.of_nat (length out) ∧
    N ≤ len r ≤ N + 2 ∧
    Forall (cylinder C) out ∧
    movement r = movement_sum out start ∧
    0 ≤ movement r ≤ len r * (C - 1).
Proof.
  intros Hc Hv Hf.
  destruct (service_order_cylinders C N m req sorted reqs srt start alg dir Hc Hv)
    as [Hcyl Hlen].
  set (out := service_order C alg reqs srt start dir) in *.
  eexists _, out.
  split; [by apply (run_schedule C N m req sorted reqs srt)|].
  fold out. rewrite entries_written. cbn [seq len movement].
  split.
  { rewrite length_buffer; [unfold SEQ_CAPACITY; lia|].
    destruct Hc as (_ & ? & _). lia. }
  split; [done|]. split; [done|]. split; [done|]. split; [done|].
  split; [by rewrite movement_sum_travel|].
  split; [apply travel_nonneg|].
  apply (travel_bound C); [done|]. by destruct Hv.
Qed.

Lemma results_are_coherent_witness :
  config_ok A4Q1.NUM_CYLINDERS A4Q1.NUM_REQUESTS ∧
  valid_input A4Q1.NUM_CYLINDERS A4Q1.NUM_REQUESTS sample_mem 1%positive 2%positive
    sample_requests sample_sorted 53 ∧
  (Z.to_nat A4Q1.NUM_REQUESTS ≤ 20)%nat ∧
  ∃ r out,
    run (schedule A4Q1.NUM_CYLINDERS A4Q1.NUM_REQUESTS 20 SSTF
           1%positive 2%positive 53 DIR_LEFT) sample_mem = inr (r, sample_mem) ∧
    Z.of_nat (length (seq r)) = SEQ_CAPACITY ∧
    entries r = cells_of out ∧
    len r = Z.of_nat (length out) ∧
    A4Q1.NUM_REQUESTS ≤ len r ≤ A4Q1.NUM_REQUESTS + 2 ∧
    Forall (cylinder A4Q1.NUM_CYLINDERS) out ∧
    movement r = movement_sum out 53 ∧
    0 ≤ movement r ≤ len r * (A4Q1.NUM_CYLINDERS - 1).
Proof.
  assert (Hf : (Z.to_nat A4Q1.NUM_REQUESTS ≤ 20)%nat) by (vm_compute; lia).
  exact (conj config_source (conj sample_valid (conj Hf
    (results_are_coherent A4Q1.NUM_CYLINDERS A4Q1.NUM_REQUESTS sample_mem
       1%positive 2%positive sample_requests sample_sorted 53 20 SSTF DIR_LEFT
       config_source sample_valid Hf)))).
Defined.

(** ** Movement of the sweeps *)

Lemma travel_sorted_from s h :
  StronglySorted Z.le s →
  travel s h = match s with
               | [] => 0
               | x :: _ => Z.abs (x - h) + (List.last s x - x)
               end.
Proof.
  intros Hs. destruct Hs as [|x rest Hrest Hx]; [reflexivity|].
  cbn [travel]. rewrite last_cons, (travel_ascending rest x Hrest Hx). reflexivity.
Qed.

Lemma travel_reverse_sorted_from s h :
  StronglySorted Z.le s →
  travel (reverse s) h = match s with
                         | [] => 0
                         | x :: _ => Z.abs (List.last s x - h) + (List.last s x - x)
                         end.
Proof.
  intros Hs. induction Hs as [|x rest Hrest IH Hx]; [reflexivity|].
  rewrite reverse_cons, travel_app, IH, last_reverse_hd, last_cons. cbn [travel].
  destruct rest as [|y r]; [cbn; lia|].
  cbn [hd]. rewrite !last_cons.
  apply Forall_cons_1 in Hx as [Hxy _].
  assert (y ≤ List.last r y).
  { destruct (last_nil_or_same r y y) as [(_ & -> & _)|[_ Hin]]; [done|].
    apply StronglySorted_cons in Hrest as [Hy _].
    rewrite Forall_forall in Hy. by apply Hy. }
  lia.
Qed.

Lemma wrap_ascending_bound s h d :
  StronglySorted Z.le s → Forall (λ x, 0 ≤ x ≤ h) s → 0 ≤ d ≤ h →
  travel s h + hd d s ≤ h + List.last s 0.
Proof.
  intros Hs Hall Hd. rewrite (travel_sorted_from s h Hs).
  destruct s as [|b s']; cbn [hd]; [cbn; lia|].
  rewrite !last_cons. apply Forall_cons_1 in Hall as [Hb _]. lia.
Qed.

Lemma wrap_descending_bound s l top d :
  StronglySorted Z.le s → Forall (λ x, l ≤ x ≤ top) s → 0 ≤ l → l ≤ d ≤ top →
  travel (reverse s) l + (top - List.last s d) ≤ 2 * top - hd top s.
Proof.
  intros Hs Hall Hl Hd. rewrite (travel_reverse_sorted_from s l Hs).
  destruct s as [|a s']; cbn [hd]; [cbn; lia|].
  rewrite !last_cons. apply Forall_cons_1 in Hall as [Ha Hall].
  assert (Hlast : a ≤ List.last s' a ≤ top).
  { destruct (last_nil_or_same s' a a) as [(_ & -> & _)|[_ Hin]]; [lia|].
    apply StronglySorted_cons in Hs as [Hy _].
    rewrite Forall_forall in Hy, Hall. specialize (Hy _ Hin). specialize (Hall _ Hin).
    cbn beta in Hall. lia. }
  lia.
Qed.

(** The movement of each sweep over an ascending run [B] of cylinders below
    the start position and an ascending run [A] of cylinders at or above it. *)
Section SweepMovement.

Variables (C : Z) (B A : list Z) (start : Z).
Hypothesis HBs : StronglySorted Z.le B.
Hypothesis HBlt : Forall (λ x, x < start) B.
Hypothesis HBc : Forall (cylinder C) B.
Hypothesis HAs : StronglySorted Z.le A.
Hypothesis HAge : Forall (λ x, start ≤ x) A.
Hypothesis HAc : Forall (cylinder C) A.
Hypothesis Hstart : cylinder C start.

Lemma lowest_bounds : 0 ≤ hd start B ≤ start.
Proof.
  destruct (hd_nil_or_same B start start) as [(_ & -> & _)|[_ Hin]].
  - unfold cylinder in Hstart. lia.
  - pose proof (proj1 (Forall_forall _ _) HBlt _ Hin) as H1. cbn beta in H1.
    pose proof (proj1 (Forall_forall _ _) HBc _ Hin) as H2. unfold cylinder in H2. lia.
Qed.

Lemma highest_bounds : start ≤ List.last A start ≤ C - 1.
Proof.
  destruct (last_nil_or_same A start start) as [(_ & -> & _)|[_ Hin]].
  - unfold cylinder in Hstart. lia.
  - pose proof (proj1 (Forall_forall _ _) HAge _ Hin) as H1. cbn beta in H1.
    pose proof (proj1 (Forall_forall _ _) HAc _ Hin) as H2. unfold cylinder in H2. lia.
Qed.

Lemma below_le (h : Z) : start ≤ h → Forall (λ x, x ≤ h) B.
Proof. intros Hh. eapply Forall_impl; [exact HBlt|]. intros x Hx. cbn in Hx. lia. Qed.

Lemma above_ge (h : Z) : h ≤ start → Forall (λ x, h ≤ x) A.
Proof. intros Hh. eapply Forall_impl; [exact HAge|]. intros x Hx. cbn in Hx. lia. Qed.

Lemma travel_scan_left :
  travel (reverse B ++ [0] ++ A) start = start + List.last A 0.
Proof.
  pose proof lowest_bounds as Hlo.
  rewrite travel_app, (travel_descending B start HBs (below_le start ltac:(lia))).
  rewrite last_reverse_hd. cbn [travel app].
  rewrite (travel_ascending A 0 HAs); [lia|].
  apply above_ge. unfold cylinder in Hstart. lia.
Qed.

Lemma travel_scan_right :
  travel (A ++ [C - 1] ++ reverse B) start = (C - 1 - start) + (C - 1 - hd (C - 1) B).
Proof.
  pose proof highest_bounds as Hhi.
  rewrite travel_app, (travel_ascending A start HAs HAge). cbn [travel app].
  rewrite (travel_descending B (C - 1) HBs); [lia|].
  apply below_le. unfold cylinder in Hstart. lia.
Qed.

Lemma travel_look_left :
  travel (reverse B ++ A) start =
  (start - hd start B) + (List.last A (hd start B) - hd start B).
Proof.
  pose proof lowest_bounds as Hlo.
  rewrite travel_app, (travel_descending B start HBs (below_le start ltac:(lia))).
  rewrite last_reverse_hd.
  rewrite (travel_ascending A _ HAs); [lia|]. apply above_ge. lia.
Qed.

Lemma travel_look_right :
  travel (A ++ reverse B) start =
  (List.last A start - start) + (List.last A start - hd (List.last A start) B).
Proof.
  pose proof highest_bounds as Hhi.
  rewrite travel_app, (travel_ascending A start HAs HAge).
  rewrite (travel_descending B _ HBs); [lia|]. apply below_le. lia.
Qed.

Lemma travel_cscan_right :
  travel (A ++ [C - 1; 0] ++ B) start = (C - 1 - start) + (C - 1) + List.last B 0.
Proof.
  pose proof highest_bounds as Hhi.
  rewrite travel_app, (travel_ascending A start HAs HAge). cbn [travel app].
  rewrite (travel_ascending B 0 HBs); [unfold cylinder in Hstart; lia|].
  eapply Forall_impl; [exact HBc|]. intros x Hx. unfold cylinder in Hx. lia.
Qed.

Lemma travel_cscan_left :
  travel (reverse B ++ [0; C - 1] ++ reverse A) start =
  start + (C - 1) + (C - 1 - hd (C - 1) A).
Proof.
  pose proof lowest_bounds as Hlo.
  rewrite travel_app, (travel_descending B start HBs (below_le start ltac:(lia))).
  rewrite last_reverse_hd. cbn [travel app].
  rewrite (travel_descending A (C - 1) HAs); [unfold cylinder in Hstart; lia|].
  eapply Forall_impl; [exact HAc|]. intros x Hx. unfold cylinder in Hx. lia.
Qed.

Lemma travel_clook_right_le :
  travel (A ++ B) start + hd start B + (C - 1 - List.last A start)
  ≤ travel (A ++ [C - 1; 0] ++ B) start.
Proof.
  pose proof highest_bounds as Hhi. pose proof lowest_bounds as Hlo.
  rewrite travel_cscan_right.
  rewrite travel_app, (travel_ascending A start HAs HAge).
  assert (Hall : Forall (λ x, 0 ≤ x ≤ List.last A start) B).
  { apply Forall_forall. intros x Hx.
    pose proof (proj1 (Forall_forall _ _) HBlt _ Hx) as H1. cbn beta in H1.
    pose proof (proj1 (Forall_forall _ _) HBc _ Hx) as H2. unfold cylinder in H2. lia. }
  pose proof (wrap_ascending_bound B (List.last A start) start HBs Hall) as Hw.
  unfold cylinder in Hstart. lia.
Qed.

Lemma travel_clook_left_le :
  travel (reverse B ++ reverse A) start + hd start B + (C - 1 - List.last A start)
  ≤ travel (reverse B ++ [0; C - 1] ++ reverse A) start.
Proof.
  pose proof highest_bounds as Hhi. pose proof lowest_bounds as Hlo.
  rewrite travel_cscan_left.
  rewrite travel_app, (travel_descending B start HBs (below_le start ltac:(lia))).
  rewrite last_reverse_hd.
  assert (Hall : Forall (λ x, hd start B ≤ x ≤ C - 1) A).
  { apply Forall_forall. intros x Hx.
    pose proof (proj1 (Forall_forall _ _) HAge _ Hx) as H1. cbn beta in H1.
    pose proof (proj1 (Forall_forall _ _) HAc _ Hx) as H2. unfold cylinder in H2. lia. }
  pose proof (wrap_descending_bound A (hd start B) (C - 1) start HAs Hall) as Hw.
  lia.
Qed.

(** An edge that is neither a request nor the start position leaves a gap
    between it and every position the head visits among the requests. *)
Lemma edge_gap :
  ((0 ∉ B ++ A) ∧ start ≠ 0) ∨ (((C - 1) ∉ B ++ A) ∧ start ≠ C - 1) →
  0 < hd start B + (C - 1 - List.last A start).
Proof.
  pose proof highest_bounds as Hhi. pose proof lowest_bounds as Hlo.
  destruct (scan_look_left C B A start HBs HBlt HBc HAs HAge HAc Hstart)
    as (_ & _ & _ & _ & Hl).
  destruct (scan_look_right C B A start HBs HBlt HBc HAs HAge HAc Hstart)
    as (_ & _ & _ & _ & Hr).
  intros [H|H]; [apply Hl in H | apply Hr in H]; lia.
Qed.

End SweepMovement.

(** What the sweeps need of a sorted array, at once. *)
Lemma sweep_runs C N m sorted srt start :
  config_ok C N →
  m !! sorted = Some (cells_of srt) → Z.of_nat (length srt) = N →
  Forall (cylinder C) srt → Sorted Z.le srt → cylinder C start →
  run (find_index sorted N start) m = inr (Z.of_nat (split_index srt start), m) ∧
  (∀ alg dir,
     run (schedule C N (Z.to_nat N) alg sorted sorted start dir) m =
     inr (mkResult (buffer (service_order C alg srt srt start dir))
            (Z.of_nat (length (service_order C alg srt srt start dir)))
            (travel (service_order C alg srt srt start dir) start), m)).
Proof.
  intros Hc Hm Hlen Hcyl Hs Hstart.
  pose proof (sweep_input C N m sorted srt start Hm Hlen Hcyl Hs Hstart) as Hv.
  split; [rewrite <- Hlen; by apply run_find_index|].
  intros alg dir.
  apply (run_schedule C N m sorted sorted srt srt start Hc Hv (Z.to_nat N) alg dir). lia.
Qed.

(** X5.  The total movement [schedule_scan] reports has a closed form.  For
    DIR_LEFT it is the start position plus the largest request at or above
    the start position (plus nothing when there is none); for DIR_RIGHT it
    is the distance from the start position to the last cylinder plus the
    distance from the last cylinder down to the smallest request below the
    start position (plus nothing when there is none). *)
Theorem scan_movement_formula (C N : Z) (m : mem) (sorted : block) (srt : list Z)
    (start : Z) (dir : Direction) :
  config_ok C N →
  m !! sorted = Some (cells_of srt) →
  Z.of_nat (length srt) = N →
  Forall (cylinder C) srt →
  Sorted Z.le srt →
  cylinder C start →
  ∃ (idx : nat) (r : Result),
    run (find_index sorted N start) m = inr (Z.of_nat idx, m) ∧
    run (schedule_scan C N sorted start dir) m = inr (r, m) ∧
    movement r =
      match dir with
      | DIR_LEFT => start + List.last (drop idx srt) 0
      | DIR_RIGHT => (C - 1 - start) + (C - 1 - hd (C - 1) (take idx srt))
      end.
Proof.
  intros Hc Hm Hlen Hcyl Hs Hstart.
  destruct (sweep_runs C N m sorted srt start Hc Hm Hlen Hcyl Hs Hstart) as [Hidx Hrun].
  destruct (below_facts C srt start Hcyl Hs) as (HBs & HBlt & HBc).
  destruct (above_facts C srt start Hcyl Hs) as (HAs & HAge & HAc).
  exists (split_index srt start). eexists.
  split; [exact Hidx|]. split; [exact (Hrun SCAN dir)|].
  cbn [movement service_order]. destruct dir; cbn [scan_order].
  - eapply (travel_scan_left C); eassumption.
  - eapply (travel_scan_right C); eassumption.
Qed.

Lemma scan_movement_formula_witness :
  config_ok A4Q1.NUM_CYLINDERS A4Q1.NUM_REQUESTS ∧
  sample_mem !! 2%positive = Some (cells_of sample_sorted) ∧
  Z.of_nat (length sample_sorted) = A4Q1.NUM_REQUESTS ∧
  Forall (cylinder A4Q1.NUM_CYLINDERS) sample_sorted ∧
  Sorted Z.le sample_sorted ∧
  cylinder A4Q1.NUM_CYLINDERS 53 ∧
  ∃ (idx : nat) (r : Result),
    run (find_index 2%positive A4Q1.NUM_REQUESTS 53) sample_mem =
      inr (Z.of_nat idx, sample_mem) ∧
    run (schedule_scan A4Q1.NUM_CYLINDERS A4Q1.NUM_REQUESTS 2%positive 53 DIR_LEFT)
      sample_mem = inr (r, sample_mem) ∧
    movement r = 53 + List.last (drop idx sample_sorted) 0.
Proof.
  pose proof sample_valid as [_ H2 _ _ _ H6 H7].
  assert (H3 : Z.of_nat (length sample_sorted) = A4Q1.NUM_REQUESTS) by reflexivity.
  assert (H4 : Forall (cylinder A4Q1.NUM_CYLINDERS) sample_sorted)
    by (apply (bool_decide_unpack _); vm_compute; exact I).
  exact (conj config_source (conj H2 (conj H3 (conj H4 (conj H6 (conj H7
    (scan_movement_formula A4Q1.NUM_CYLINDERS A4Q1.NUM_REQUESTS sample_mem
       2%positive sample_sorted 53 DIR_LEFT config_source H2 H3 H4 H6 H7))))))).
Defined.

(** X6.  The total movement [schedule_look] reports has a closed form.  With
    [lo] the smallest request below the start position (the start position
    when there is none) and [hi] the largest request at or above it (the
    start position when there is none): for DIR_LEFT the movement is
    [start - lo] plus the distance from [lo] up to the largest request at or
    above the start position; for DIR_RIGHT it is [hi - start] plus the
    distance from [hi] down to the smallest request below the start
    position. *)
Theorem look_movement_formula (C N : Z) (m : mem) (sorted : block) (srt : list Z)
    (start : Z) (dir : Direction) :
  config_ok C N →
  m !! sorted = Some (cells_of srt) →
  Z.of_nat (length srt) = N →
  Forall (cylinder C) srt →
  Sorted Z.le srt →
  cylinder C start →
  ∃ (idx : nat) (r : Result),
    run (find_index sorted N start) m = inr (Z.of_nat idx, m) ∧
    run (schedule_look N sorted start dir) m = inr (r, m) ∧
    let lo := hd start (take idx srt) in
    let hi := List.last (drop idx srt) start in
    movement r =
      match dir with
      | DIR_LEFT => (start - lo) + (List.last (drop idx srt) lo - lo)
      | DIR_RIGHT => (hi - start) + (hi - hd hi (take idx srt))
      end.
Proof.
  intros Hc Hm Hlen Hcyl Hs Hstart.
  destruct (sweep_runs C N m sorted srt start Hc Hm Hlen Hcyl Hs Hstart) as [Hidx Hrun].
  destruct (below_facts C srt start Hcyl Hs) as (HBs & HBlt & HBc).
  destruct (above_facts C srt start Hcyl Hs) as (HAs & HAge & HAc).
  exists (split_index srt start). eexists.
  split; [exact Hidx|]. split; [exact (Hrun LOOK dir)|].
  cbn [movement service_order]. destruct dir; cbn [look_order].
  - eapply (travel_look_left C); eassumption.
  - eapply (travel_look_right C); eassumption.
Qed.

Lemma look_movement_formula_witness :
  config_ok A4Q1.NUM_CYLINDERS A4Q1.NUM_REQUESTS ∧
  sample_mem !! 2%positive = Some (cells_of sample_sorted) ∧
  Z.of_nat (length sample_sorted) = A4Q1.NUM_REQUESTS ∧
  Forall (cylinder A4Q1.NUM_CYLINDERS) sample_sorted ∧
  Sorted Z.le sample_sorted ∧
  cylinder A4Q1.NUM_CYLINDERS 53 ∧
  ∃ (idx : nat) (r : Result),
    run (find_index 2%positive A4Q1.NUM_REQUESTS 53) sample_mem =
      inr (Z.of_nat idx, sample_mem) ∧
    run (schedule_look A4Q1.NUM_REQUESTS 2%positive 53 DIR_RIGHT) sample_mem =
      inr (r, sample_mem) ∧
    movement r =
      (List.last (drop idx sample_sorted) 53 - 53) +
      (List.last (drop idx sample_sorted) 53 -
       hd (List.last (drop idx sample_sorted) 53) (take idx sample_sorted)).
Proof.
  pose proof sample_valid as [_ H2 _ _ _ H6 H7].
  assert (H3 : Z.of_nat (length sample_sorted) = A4Q1.NUM_REQUESTS) by reflexivity.
  assert (H4 : Forall (cylinder A4Q1.NUM_CYLINDERS) sample_sorted)
    by (apply (bool_decide_unpack _); vm_compute; exact I).
  exact (conj config_source (conj H2 (conj H3 (conj H4 (conj H6 (conj H7
    (look_movement_formula A4Q1.NUM_CYLINDERS A4Q1.NUM_REQUESTS sample_mem
       2%positive sample_sorted 53 DIR_RIGHT config_source H2 H3 H4 H6 H7))))))).
Defined.

(** X7.  The total movement [schedule_cscan] reports has a closed form.  For
    DIR_RIGHT it is the distance from the start position to the last
    cylinder, plus the whole width of the disk for the wrap, plus the largest
    request below the start position (nothing when there is none); for
    DIR_LEFT it is the start position, plus the width of the disk, plus the
    distance from the last cylinder down to the smallest request at or above
    the start position (nothing when there is none). *)
Theorem cscan_movement_formula (C N : Z) (m : mem) (sorted : block) (srt : list Z)
    (start : Z) (dir : Direction) :
  config_ok C N →
  m !! sorted = Some (cells_of srt) →
  Z.of_nat (length srt) = N →
  Forall (cylinder C) srt →
  Sorted Z.le srt →
  cylinder C start →
  ∃ (idx : nat) (r : Result),
    run (find_index sorted N start) m = inr (Z.of_nat idx, m) ∧
    run (schedule_cscan C N sorted start dir) m = inr (r, m) ∧
    movement r =
      match dir with
      | DIR_RIGHT => (C - 1 - start) + (C - 1) + List.last (take idx srt) 0
      | DIR_LEFT => start + (C - 1) + (C - 1 - hd (C - 1) (drop idx srt))
      end.
Proof.
  intros Hc Hm Hlen Hcyl Hs Hstart.
  destruct (sweep_runs C N m sorted srt start Hc Hm Hlen Hcyl Hs Hstart) as [Hidx Hrun].
  destruct (below_facts C srt start Hcyl Hs) as (HBs & HBlt & HBc).
  destruct (above_facts C srt start Hcyl Hs) as (HAs & HAge & HAc).
  exists (split_index srt start). eexists.
  split; [exact Hidx|]. split; [exact (Hrun CSCAN dir)|].
  cbn [movement service_order]. destruct dir; cbn [cscan_order].
  - eapply (travel_cscan_left C); eassumption.
  - eapply (travel_cscan_right C); eassumption.
Qed.

Lemma cscan_movement_formula_witness :
  config_ok A4Q1.NUM_CYLINDERS A4Q1.NUM_REQUESTS ∧
  sample_mem !! 2%positive = Some (cells_of sample_sorted) ∧
  Z.of_nat (length sample_sorted) = A4Q1.NUM_REQUESTS ∧
  Forall (cylinder A4Q1.NUM_CYLINDERS) sample_sorted ∧
  Sorted Z.le sample_sorted ∧
  cylinder A4Q1.NUM_CYLINDERS 53 ∧
  ∃ (idx : nat) (r : Result),
    run (find_index 2%positive A4Q1.NUM_REQUESTS 53) sample_mem =
      inr (Z.of_nat idx, sample_mem) ∧
    run (schedule_cscan A4Q1.NUM_CYLINDERS A4Q1.NUM_REQUESTS 2%positive 53 DIR_RIGHT)
      sample_mem = inr (r, sample_mem) ∧
    movement r =
      (A4Q1.NUM_CYLINDERS - 1 - 53) + (A4Q1.NUM_CYLINDERS - 1) +
      List.last (take idx sample_sorted) 0.
Proof.
  pose proof sample_valid as [_ H2 _ _ _ H6 H7].
  assert (H3 : Z.of_nat (length sample_sorted) = A4Q1.NUM_REQUESTS) by reflexivity.
  assert (H4 : Forall (cylinder A4Q1.NUM_CYLINDERS) sample_sorted)
    by (apply (bool_decide_unpack _); vm_compute; exact I).
  exact (conj config_source (conj H2 (conj H3 (conj H4 (conj H6 (conj H7
    (cscan_movement_formula A4Q1.NUM_CYLINDERS A4Q1.NUM_REQUESTS sample_mem
       2%positive sample_sorted 53 DIR_RIGHT config_source H2 H3 H4 H6 H7))))))).
Defined.

(** X8.  On every valid input and for either direction the total movement
    of [schedule_clook] is at most that of [schedule_cscan], and strictly
    smaller whenever one of the two edge cylinders is neither a request nor
    the start position. *)
Theorem clook_movement_at_most_cscan (C N : Z) (m : mem) (sorted : block)
    (srt : list Z) (start : Z) (dir : Direction) :
  config_ok C N →
  m !! sorted = Some (cells_of srt) →
  Z.of_nat (length srt) = N →
  Forall (cylinder C) srt →
  Sorted Z.le srt →
  cylinder C start →
  ∃ r_cscan r_clook,
    run (schedule_cscan C N sorted start dir) m = inr (r_cscan, m) ∧
    run (schedule_clook N sorted start dir) m = inr (r_clook, m) ∧
    movement r_clook ≤ movement r_cscan ∧
    (((0 ∉ srt) ∧ start ≠ 0) ∨ (((C - 1) ∉ srt) ∧ start ≠ C - 1) →
     movement r_clook < movement r_cscan).
Proof.
  intros Hc Hm Hlen Hcyl Hs Hstart.
  destruct (sweep_runs C N m sorted srt start Hc Hm Hlen Hcyl Hs Hstart) as [_ Hrun].
  destruct (below_facts C srt start Hcyl Hs) as (HBs & HBlt & HBc).
  destruct (above_facts C srt start Hcyl Hs) as (HAs & HAge & HAc).
  eexists _, _.
  split; [exact (Hrun CSCAN dir)|]. split; [exact (Hrun CLOOK dir)|].
  cbn [movement service_order].
  pose proof (lowest_bounds C _ start HBlt HBc Hstart) as Hlo.
  pose proof (highest_bounds C _ start HAge HAc Hstart) as Hhi.
  pose proof (edge_gap C _ _ start HBs HBlt HBc HAs HAge HAc Hstart) as Hgap.
  rewrite below_above in Hgap.
  destruct dir; cbn [cscan_order clook_order].
  - pose proof (travel_clook_left_le C _ _ start HBs HBlt HBc HAs HAge HAc Hstart).
    split; [lia|]. intros Hedge. specialize (Hgap Hedge). lia.
  - pose proof (travel_clook_right_le C _ _ start HBs HBlt HBc HAs HAge HAc Hstart).
    split; [lia|]. intros Hedge. specialize (Hgap Hedge). lia.
Qed.

Lemma clook_movement_at_most_cscan_witness :
  config_ok A4Q1.NUM_CYLINDERS A4Q1.NUM_REQUESTS ∧
  sample_mem !! 2%positive = Some (cells_of sample_sorted) ∧
  Z.of_nat (length sample_sorted) = A4Q1.NUM_REQUESTS ∧
  Forall (cylinder A4Q1.NUM_CYLINDERS) sample_sorted ∧
  Sorted Z.le sample_sorted ∧
  cylinder A4Q1.NUM_CYLINDERS 53 ∧
  ∃ r_cscan r_clook,
    run (schedule_cscan A4Q1.NUM_CYLINDERS A4Q1.NUM_REQUESTS 2%positive 53 DIR_LEFT)
      sample_mem = inr (r_cscan, sample_mem) ∧
    run (schedule_clook A4Q1.NUM_REQUESTS 2%positive 53 DIR_LEFT) sample_mem =
      inr (r_clook, sample_mem) ∧
    movement r_clook ≤ movement r_cscan ∧
    (((0 ∉ sample_sorted) ∧ 53 ≠ 0) ∨
     (((A4Q1.NUM_CYLINDERS - 1) ∉ sample_sorted) ∧ 53 ≠ A4Q1.NUM_CYLINDERS - 1) →
     movement r_clook < movement r_cscan).
Proof.
  pose proof sample_valid as [_ H2 _ _ _ H6 H7].
  assert (H3 : Z.of_nat (length sample_sorted) = A4Q1.NUM_REQUESTS) by reflexivity.
  assert (H4 : Forall (cylinder A4Q1.NUM_CYLINDERS) sample_sorted)
    by (apply (bool_decide_unpack _); vm_compute; exact I).
  exact (conj config_source (conj H2 (conj H3 (conj H4 (conj H6 (conj H7
    (clook_movement_at_most_cscan A4Q1.NUM_CYLINDERS A4Q1.NUM_REQUESTS sample_mem
       2%positive sample_sorted 53 DIR_LEFT config_source H2 H3 H4 H6 H7))))))).
Defined.

(** ** Every algorithm travels at least as far as the farthest request *)

Lemma travel_reaches s head x :
  x ∈ s → Z.abs (x - head) ≤ travel s head.
Proof.
  revert head. induction s as [|y rest IH]; intros head Hx.
  - by apply elem_of_nil in Hx.
  - cbn [travel]. pose proof (travel_nonneg rest y).
    apply elem_of_cons in Hx as [->|Hx]; [lia|].
    specialize (IH y Hx). lia.
Qed.

(** X9.  On every valid input each of the six functions reports a total
    movement that is at least the distance from the start position to
    every requested cylinder: no schedule is shorter than the trip to the
    farthest request. *)
Theorem movement_reaches_every_request (C N : Z) (m : mem) (req sorted : block)
    (reqs srt : list Z) (start : Z) (fuel : nat) (alg : algorithm) (dir : Direction) :
  config_ok C N →
  valid_input C N m req sorted reqs srt start →
  (Z.to_nat N ≤ fuel)%nat →
  ∃ r,
    run (schedule C N fuel alg req sorted start dir) m = inr (r, m) ∧
    ∀ x, x ∈ reqs → Z.abs (x - start) ≤ movement r.
Proof.
  intros Hc Hv Hfuel. eexists. split.
  - exact (run_schedule C N m req sorted reqs srt start Hc Hv fuel alg dir Hfuel).
  - cbn [movement]. intros x Hx. apply travel_reaches.
    destruct (service_order_split C N m req sorted reqs srt start Hc Hv alg dir)
      as (pre & post & -> & Hp).
    rewrite <- Hp in Hx. apply elem_of_app in Hx. rewrite !elem_of_app. tauto.
Qed.

Lemma movement_reaches_every_request_witness :
  config_ok A4Q1.NUM_CYLINDERS A4Q1.NUM_REQUESTS ∧
  valid_input A4Q1.NUM_CYLINDERS A4Q1.NUM_REQUESTS sample_mem 1%positive 2%positive
    sample_requests sample_sorted 53 ∧
  (Z.to_nat A4Q1.NUM_REQUESTS ≤ 20)%nat ∧
  ∃ r,
    run (schedule A4Q1.NUM_CYLINDERS A4Q1.NUM_REQUESTS 20 CLOOK 1%positive 2%positive
           53 DIR_RIGHT) sample_mem = inr (r, sample_mem) ∧
    ∀ x, x ∈ sample_requests → Z.abs (x - 53) ≤ movement r.
Proof.
  assert (Hf : (Z.to_nat A4Q1.NUM_REQUESTS ≤ 20)%nat) by (vm_compute; lia).
  exact (conj config_source (conj sample_valid (conj Hf
    (movement_reaches_every_request A4Q1.NUM_CYLINDERS A4Q1.NUM_REQUESTS sample_mem
       1%positive 2%positive sample_requests sample_sorted 53 20%nat CLOOK DIR_RIGHT
       config_source sample_valid Hf)))).
Defined.

(** ** The split index counts the requests below the head *)

Lemma filter_all (P : Z → Prop) `{∀ x, Decision (P x)} (l : list Z) :
  Forall P l → filter P l = l.
Proof.
  induction 1 as [|x l Hx _ IH]; [done|].
  rewrite filter_cons_True by done. by rewrite IH.
Qed.

Lemma filter_none (P : Z → Prop) `{∀ x, Decision (P x)} (l : list Z) :
  Forall (λ x, ¬ P x) l → filter P l = [].
Proof.
  induction 1 as [|x l Hx _ IH]; [done|].
  by rewrite filter_cons_False.
Qed.

(** X10.  On a valid input the index [find_index] returns for the sorted
    copy is the number of requests, of the original unsorted array, that
    are strictly below the start position. *)
Theorem find_index_counts_lower_requests (C N : Z) (m : mem) (req sorted : block)
    (reqs srt : list Z) (start : Z) :
  valid_input C N m req sorted reqs srt start →
  run (find_index sorted N start) m =
  inr (Z.of_nat (length (filter (λ x, x < start) reqs)), m).
Proof.
  intros Hv. pose proof Hv as [_ Hs Hn Hcyl Hp Hsrt _].
  assert (Hlen : Z.of_nat (length srt) = N) by (by rewrite Hp).
  assert (Hcs : Forall (cylinder C) srt) by (by rewrite Hp).
  rewrite <- Hlen, (run_find_index _ _ _ _ Hs).
  destruct (below_facts C srt start Hcs Hsrt) as (_ & HBlt & _).
  destruct (above_facts C srt start Hcs Hsrt) as (_ & HAge & _).
  do 3 f_equal.
  assert (E : filter (λ x, x < start) srt = below srt start).
  { rewrite <- (below_above srt start) at 1.
    rewrite filter_app, (filter_all _ _ HBlt), (filter_none _ (above srt start)).
    - by rewrite app_nil_r.
    - eapply Forall_impl; [exact HAge|]. cbn. intros. lia. }
  rewrite <- Hp, E. unfold below. rewrite length_take.
  pose proof (split_index_le srt start). lia.
Qed.

Lemma find_index_counts_lower_requests_witness :
  valid_input A4Q1.NUM_CYLINDERS A4Q1.NUM_REQUESTS sample_mem 1%positive 2%positive
    sample_requests sample_sorted 53 ∧
  run (find_index 2%positive A4Q1.NUM_REQUESTS 53) sample_mem =
  inr (Z.of_nat (length (filter (λ x, x < 53) sample_requests)), sample_mem).
Proof.
  exact (conj sample_valid
    (find_index_counts_lower_requests A4Q1.NUM_CYLINDERS A4Q1.NUM_REQUESTS sample_mem
       1%positive 2%positive sample_requests sample_sorted 53 sample_valid)).
Defined.

(** ** Reading past the initialised cells *)

Lemma for_up_from_app {S} (a b : nat) (i : Z) (body : Z → S → M S) (s : S) m :
  run (for_up_from (a + b) i body s) m =
  run (s' ← for_up_from a i body s; for_up_from b (i + Z.of_nat a) body s') m.
Proof.
  revert i s m. induction a as [|a IH]; intros i s m.
  - cbn [for_up_from Nat.add]. rewrite run_bind, run_ret.
    replace (i + Z.of_nat 0) with i by lia. reflexivity.
  - cbn [for_up_from Nat.add]. rewrite run_bind_assoc, !run_bind.
    destruct (run (body i s) m) as [e|[s' m']]; [reflexivity|].
    rewrite IH. replace (i + 1 + Z.of_nat a) with (i + Z.of_nat (Datatypes.S a)) by lia.
    reflexivity.
Qed.

Lemma run_load_past_at (a : block) (m : mem) (cells : list cell) (i : nat)
    (rest : list cell) :
  m !! a = Some cells → drop i cells = rest → hd None rest = None →
  run (load a (Z.of_nat i)) m = inl (read_past rest).
Proof.
  intros Ha Hd Hrest. unfold run, load. rewrite Ha.
  rewrite decide_True by lia. rewrite Nat2Z.id.
  rewrite <- (Nat.add_0_r i), <- lookup_drop. unfold cell in *. rewrite Hd.
  destruct rest as [|[v|] rest]; [reflexivity|discriminate|reflexivity].
Qed.

Lemma run_load_past (a : block) (m : mem) (s : list Z) (rest : list cell) :
  m !! a = Some (cells_of s ++ rest) → hd None rest = None →
  run (load a (Z.of_nat (length s))) m = inl (read_past rest).
Proof.
  intros Ha Hrest. apply (run_load_past_at a m _ _ rest Ha); [|done].
  rewrite drop_app_length'; [done|by rewrite length_cells_of].
Qed.

(** X11.  [compute_movement] called with a length that exceeds the
    initialised cells of its array does not return: when the [L] cells
    holding [s] are followed by no cell or by an indeterminate one, and the
    movement along [s] fits an int, a call with [len > L] stops at index [L]
    on an out-of-bounds read or on a read of an indeterminate value. *)
Theorem compute_movement_past_the_data (m : mem) (a : block) (s : list Z)
    (rest : list cell) (len start : Z) :
  m !! a = Some (cells_of s ++ rest) →
  hd None rest = None →
  travel s start ≤ INT_MAX →
  Z.of_nat (length s) < len →
  run (compute_movement a len start) m = inl (read_past rest).
Proof.
  intros Ha Hrest Hfit Hlen. unfold compute_movement, for_up.
  replace (Z.to_nat (len - 0)) with (length s + Datatypes.S (Z.to_nat (len - Z.of_nat (length s) - 1)))%nat
    by lia.
  rewrite run_bind.
  change (for_up_from ?n 0 _ (start, 0)) with (for_up_from n 0 (movement_body a) (start, 0)).
  rewrite for_up_from_app, run_bind.
  rewrite (run_movement_loop a m _ s Ha 0 start 0); [| lia | unfold INT_MAX; lia |].
  2:{ change (Z.to_nat 0) with 0%nat. rewrite drop_0.
      rewrite take_app_length'; [done|by rewrite length_cells_of]. }
  rewrite decide_True by lia.
  cbn [for_up_from]. rewrite run_bind. unfold movement_body at 1.
  rewrite run_bind, Z.add_0_l, (run_load_past a m s rest Ha Hrest). reflexivity.
Qed.

Lemma compute_movement_past_the_data_witness :
  sample_mem !! 2%positive = Some (cells_of sample_sorted ++ []) ∧
  hd None ([] : list cell) = None ∧
  travel sample_sorted 53 ≤ INT_MAX ∧
  Z.of_nat (length sample_sorted) < 21 ∧
  run (compute_movement 2%positive 21 53) sample_mem = inl (read_past []).
Proof.
  assert (H1 : sample_mem !! 2%positive = Some (cells_of sample_sorted ++ []))
    by (rewrite app_nil_r; reflexivity).
  assert (H3 : travel sample_sorted 53 ≤ INT_MAX) by (vm_compute; discriminate).
  assert (H4 : Z.of_nat (length sample_sorted) < 21) by (vm_compute; reflexivity).
  exact (conj H1 (conj eq_refl (conj H3 (conj H4
    (compute_movement_past_the_data sample_mem 2%positive sample_sorted [] 21 53
       H1 eq_refl H3 H4))))).
Defined.

(** ** [find_index] on any array and any count *)

Lemma run_find_index_from_any (a : block) (m : mem) (cells : list cell) (n ref : Z) :
  m !! a = Some cells →
  ∀ l rest k i,
    drop i cells = cells_of l ++ rest → hd None rest = None →
    run (find_index_from k a n ref (Z.of_nat i)) m =
    if decide ((split_index l ref < length l)%nat ∧ (split_index l ref < k)%nat)
    then inr (Z.of_nat (i + split_index l ref), m)
    else if decide ((k ≤ length l)%nat) then inr (n, m)
    else inl (read_past rest).
Proof.
  intros Ha l. induction l as [|x l IH]; intros rest k i Hd Hrest.
  - cbn [split_index length]. rewrite decide_False by lia.
    destruct k as [|k]; [rewrite decide_True by lia; reflexivity|].
    rewrite decide_False by lia. cbn [find_index_from]. rewrite run_bind.
    rewrite (run_load_past_at a m cells i rest Ha Hd Hrest). reflexivity.
  - assert (Hi : cells !! i = Some (Some x)).
    { rewrite <- (Nat.add_0_r i), <- lookup_drop. unfold cell in *. rewrite Hd. reflexivity. }
    destruct k as [|k].
    { rewrite decide_False by lia. rewrite decide_True by lia. reflexivity. }
    cbn [find_index_from].
    erewrite run_bind_ok by (eapply run_load; [exact Ha | lia | by rewrite Nat2Z.id]).
    cbn [split_index length].
    destruct (decide (ref ≤ x)) as [Hx|Hx].
    + rewrite decide_True by lia. rewrite run_ret, Nat.add_0_r. reflexivity.
    + replace (Z.of_nat i + 1) with (Z.of_nat (Datatypes.S i)) by lia.
      rewrite (IH rest k (Datatypes.S i)); [| |done].
      2:{ erewrite drop_S in Hd by exact Hi. cbn in Hd. by inversion Hd. }
      repeat case_decide; try lia; try reflexivity.
      do 2 f_equal. lia.
Qed.

(** X12.  What [find_index] returns for every count [n], whether or not the
    array is sorted and whether or not [n] is the number of its elements.
    With [l] the initialised cells of the array (followed by no cell or by an
    indeterminate one) and [k] the number of leading elements of [l] that are
    below the reference: if [k] is below both [n] and the number of elements,
    the result is [k], the index of the first element at or above the
    reference, whatever follows it; otherwise, if [n] does not exceed the
    number of elements, the result is [n] itself (also for [n <= 0]);
    otherwise the loop reads past the initialised cells.  Memory is never
    changed. *)
Theorem find_index_any_count (m : mem) (a : block) (l : list Z) (rest : list cell)
    (n ref : Z) :
  m !! a = Some (cells_of l ++ rest) →
  hd None rest = None →
  run (find_index a n ref) m =
  if decide ((split_index l ref < length l)%nat ∧ Z.of_nat (split_index l ref) < n)
  then inr (Z.of_nat (split_index l ref), m)
  else if decide (n ≤ Z.of_nat (length l)) then inr (n, m)
  else inl (read_past rest).
Proof.
  intros Ha Hrest. unfold find_index. change 0 with (Z.of_nat 0) at 1.
  rewrite (run_find_index_from_any a m _ n ref Ha l rest (Z.to_nat n) 0%nat);
    [|by rewrite drop_0|done].
  repeat case_decide; try lia; reflexivity.
Qed.

Lemma find_index_any_count_witness :
  sample_mem !! 1%positive = Some (cells_of sample_requests ++ []) ∧
  hd None ([] : list cell) = None ∧
  run (find_index 1%positive 1000 120) sample_mem = inr (1, sample_mem).
Proof.
  assert (H1 : sample_mem !! 1%positive = Some (cells_of sample_requests ++ []))
    by (rewrite app_nil_r; reflexivity).
  exact (conj H1 (conj eq_refl
    (find_index_any_count sample_mem 1%positive sample_requests [] 1000 120 H1 eq_refl))).
Defined.

(** ** SSTF when no request is within reach of the sentinel distance *)

Lemma run_sstf_scan_unreachable (m : mem) (req visited : block) (l : list Z) (head : Z) :
  m !! req = Some (cells_of l) →
  m !! visited = Some (replicate (length l) (Some 0)) →
  Forall (λ x, 1000000000 ≤ Z.abs (x - head) ≤ INT_MAX) l →
  ∀ k i, (i + k ≤ length l)%nat →
    run (for_up_from k (Z.of_nat i) (sstf_scan_body req visited head) (1000000000, -1)) m =
    inr ((1000000000, -1), m).
Proof.
  intros Hreq Hvis Hfar. induction k as [|k IH]; intros i Hk; [reflexivity|].
  cbn [for_up_from].
  destruct (lookup_lt_is_Some_2 l i ltac:(lia)) as [x Hx].
  pose proof (Forall_lookup_1 _ _ _ _ Hfar Hx) as Hd. cbn beta in Hd.
  erewrite run_bind_ok; [replace (Z.of_nat i + 1) with (Z.of_nat (Datatypes.S i)) by lia;
                         apply IH; lia|].
  unfold sstf_scan_body.
  erewrite run_bind_ok.
  2:{ eapply run_load; [exact Hvis | lia |].
      rewrite Nat2Z.id. apply lookup_replicate_2. lia. }
  rewrite decide_True by done.
  erewrite run_bind_ok.
  2:{ eapply run_load; [exact Hreq | lia |].
      rewrite Nat2Z.id, lookup_cells_of, Hx. reflexivity. }
  unfold int_sub. erewrite run_bind_ok by (apply run_int_of_ok; unfold INT_MIN, INT_MAX in *; lia).
  unfold int_abs. erewrite run_bind_ok by (apply run_int_of_ok; unfold INT_MIN, INT_MAX in *; lia).
  rewrite decide_False by lia. reflexivity.
Qed.

(** X13.  [schedule_sstf] relies on some unserviced request being nearer
    than its sentinel distance 1e9.  When every request is at distance at
    least 1e9 from the start position (and at most [INT_MAX], so that the
    distance itself is computed without overflow), the first scan leaves
    [bestIdx] at -1 and the function stops on the out-of-bounds store
    [visited[-1] = 1]; it returns no result. *)
Theorem sstf_sentinel_out_of_reach (N : Z) (fuel : nat) (m : mem) (req : block)
    (l : list Z) (start : Z) :
  m !! req = Some (cells_of l) →
  Z.of_nat (length l) = N →
  0 < N →
  Forall (λ x, 1000000000 ≤ Z.abs (x - start) ≤ INT_MAX) l →
  run (schedule_sstf N (Datatypes.S fuel) req start) m = inl OutOfBounds.
Proof.
  intros Hm Hlen Hpos Hfar. subst N.
  unfold schedule_sstf. rewrite run_bind, run_alloca.
  pose proof (fresh_block_unused m) as Hrseq.
  set (rseq := fresh (dom m)) in *.
  rewrite run_bind, run_alloca.
  pose proof (fresh_block_unused (<[rseq := fresh_seq]> m)) as Hv.
  set (visited := fresh (dom (<[rseq := fresh_seq]> m))) in *.
  apply lookup_insert_None in Hv as [Hvisited Hlocals].
  assert (Hrq : rseq ≠ req) by (intros ->; rewrite Hm in Hrseq; discriminate).
  assert (Hvq : visited ≠ req) by (intros ->; rewrite Hm in Hvisited; discriminate).
  match goal with |- run _ ?x = _ => set (mm := x) end.
  assert (Hreq' : mm !! req = Some (cells_of l)).
  { unfold mm. rewrite !lookup_insert_ne by done. exact Hm. }
  assert (Hvis' : mm !! visited = Some (replicate (length l) (Some 0))).
  { unfold mm. rewrite lookup_insert_eq, Nat2Z.id. reflexivity. }
  rewrite run_bind. cbn [while snd]. rewrite bool_decide_eq_true_2 by lia.
  rewrite run_bind. unfold sstf_step at 1. rewrite run_bind.
  unfold sstf_scan, for_up.
  replace (Z.to_nat (Z.of_nat (length l) - 0)) with (length l) by lia.
  change (for_up_from (length l) 0 _ (1000000000, -1))
    with (for_up_from (length l) (Z.of_nat 0) (sstf_scan_body req visited start)
            (1000000000, -1)).
  rewrite (run_sstf_scan_unreachable mm req visited l start Hreq' Hvis' Hfar (length l) 0%nat)
    by lia.
  rewrite run_bind. unfold run at 1, store. unfold cell in *. rewrite Hvis'.
  rewrite decide_False by lia. reflexivity.
Qed.

Lemma sstf_sentinel_out_of_reach_witness :
  ({[ 1%positive := cells_of [2000000000] ]} : mem) !! 1%positive =
    Some (cells_of [2000000000]) ∧
  Z.of_nat (length [2000000000]) = 1 ∧
  0 < 1 ∧
  Forall (λ x, 1000000000 ≤ Z.abs (x - 0) ≤ INT_MAX) [2000000000] ∧
  run (schedule_sstf 1 1 1%positive 0) {[ 1%positive := cells_of [2000000000] ]} =
    inl OutOfBounds.
Proof.
  assert (H4 : Forall (λ x, 1000000000 ≤ Z.abs (x - 0) ≤ INT_MAX) [2000000000])
    by (apply Forall_singleton; unfold INT_MAX; lia).
  exact (conj eq_refl (conj eq_refl (conj eq_refl (conj H4
    (sstf_sentinel_out_of_reach 1 0 {[ 1%positive := cells_of [2000000000] ]}
       1%positive [2000000000] 0 eq_refl eq_refl eq_refl H4))))).
Defined.

(** ** SSTF with the head outside the range of the requests *)

Lemma sstf_trace_ascending l picks head rest :
  sstf_trace l picks head rest →
  (∀ j, (j < length l)%nat → j ∉ picks → head ≤ request l j) →
  Forall (λ x, head ≤ x) (request l <$> rest) ∧ Sorted Z.le (request l <$> rest).
Proof.
  induction 1 as [|picks head i rest (Hi & Hp & Hmin) Ht IH]; intros Hall.
  - split; constructor.
  - pose proof (Hall i Hi Hp) as Hge.
    destruct IH as [Hf Hs].
    { intros j Hj Hjp. fold (request l i).
      assert (Hjp' : j ∉ picks) by (intros ?; apply Hjp, elem_of_app; by left).
      pose proof (Hall j Hj Hjp').
      destruct (Hmin j Hj Hjp') as [Hle _]. unfold seek in Hle. fold (request l i) in Hle.
      fold (request l j) in Hle. lia. }
    fold (request l i) in Hf. rewrite fmap_cons. split.
    + constructor; [done|]. eapply Forall_impl; [exact Hf|]. cbn. intros; lia.
    + constructor; [done|]. destruct Hf; constructor. done.
Qed.

Lemma sstf_trace_descending l picks head rest :
  sstf_trace l picks head rest →
  (∀ j, (j < length l)%nat → j ∉ picks → request l j ≤ head) →
  Forall (λ x, x ≤ head) (request l <$> rest) ∧ Sorted (flip Z.le) (request l <$> rest).
Proof.
  induction 1 as [|picks head i rest (Hi & Hp & Hmin) Ht IH]; intros Hall.
  - split; constructor.
  - pose proof (Hall i Hi Hp) as Hge.
    destruct IH as [Hf Hs].
    { intros j Hj Hjp. fold (request l i).
      assert (Hjp' : j ∉ picks) by (intros ?; apply Hjp, elem_of_app; by left).
      pose proof (Hall j Hj Hjp').
      destruct (Hmin j Hj Hjp') as [Hle _]. unfold seek in Hle. fold (request l i) in Hle.
      fold (request l j) in Hle. lia. }
    fold (request l i) in Hf. rewrite fmap_cons. split.
    + constructor; [done|]. eapply Forall_impl; [exact Hf|]. cbn. intros; lia.
    + constructor; [done|]. destruct Hf; constructor. done.
Qed.

Lemma forall_lookup_request (P : Z → Prop) (l : list Z) (picks : list nat) :
  Forall P l → ∀ j, (j < length l)%nat → j ∉ picks → P (request l j).
Proof.
  intros Hall j Hj _. destruct (lookup_lt_is_Some_2 l j Hj) as [x Hx].
  unfold request. rewrite Hx. exact (Forall_lookup_1 _ _ _ _ Hall Hx).
Qed.

(** X14.  When the head starts at or below every request, SSTF degenerates
    to a single upward sweep: on a valid input [schedule_sstf] returns the
    requests in ascending order (the sorted copy), and its total movement is
    the distance from the start position to the largest request. *)
Theorem sstf_from_below_sweeps_up (C N : Z) (m : mem) (req sorted : block)
    (reqs srt : list Z) (start : Z) (fuel : nat) :
  config_ok C N →
  valid_input C N m req sorted reqs srt start →
  (Z.to_nat N ≤ fuel)%nat →
  Forall (λ x, start ≤ x) reqs →
  ∃ r,
    run (schedule_sstf N fuel req start) m = inr (r, m) ∧
    entries r = cells_of srt ∧
    len r = N ∧
    movement r = List.last srt start - start.
Proof.
  intros Hc Hv Hfuel Hlow.
  pose proof (run_schedule C N m req sorted reqs srt start Hc Hv fuel SSTF DIR_LEFT Hfuel)
    as Hrun. cbn [schedule service_order] in Hrun.
  destruct (sstf_order_spec C N m req sorted reqs srt start Hc Hv) as (E & Hl & _ & Ht).
  apply sstf_trace_ascending in Ht as [_ Hs];
    [|apply (forall_lookup_request (λ x, start ≤ x)), Hlow].
  pose proof (sstf_order_permutation C N m req sorted reqs srt start Hc Hv) as Hp.
  pose proof Hv as [_ _ Hn _ Hps Hsrt _].
  assert (Eo : sstf_order reqs start = srt).
  { apply (Sorted_unique Z.le); [rewrite E; exact Hs | exact Hsrt | by rewrite Hp, Hps]. }
  rewrite Eo in Hrun. eexists. split; [exact Hrun|].
  split; [apply entries_written|]. cbn [len movement].
  split; [by rewrite Hps|].
  apply travel_ascending; [apply Sorted_StronglySorted; [apply _|done]|by rewrite Hps].
Qed.

Lemma sstf_from_below_sweeps_up_witness :
  config_ok A4Q1.NUM_CYLINDERS A4Q1.NUM_REQUESTS ∧
  valid_input A4Q1.NUM_CYLINDERS A4Q1.NUM_REQUESTS sample_mem 1%positive 2%positive
    sample_requests sample_sorted 3 ∧
  (Z.to_nat A4Q1.NUM_REQUESTS ≤ 20)%nat ∧
  Forall (λ x, 3 ≤ x) sample_requests ∧
  ∃ r,
    run (schedule_sstf A4Q1.NUM_REQUESTS 20 1%positive 3) sample_mem = inr (r, sample_mem) ∧
    entries r = cells_of sample_sorted ∧
    len r = A4Q1.NUM_REQUESTS ∧
    movement r = List.last sample_sorted 3 - 3.
Proof.
  assert (Hf : (Z.to_nat A4Q1.NUM_REQUESTS ≤ 20)%nat) by (vm_compute; lia).
  assert (Hs : cylinder A4Q1.NUM_CYLINDERS 3) by (vm_compute; split; [discriminate|reflexivity]).
  assert (Hv : valid_input A4Q1.NUM_CYLINDERS A4Q1.NUM_REQUESTS sample_mem 1%positive
                 2%positive sample_requests sample_sorted 3).
  { pose proof sample_valid as [H1 H2 H3 H4 H5 H6 _]. by constructor. }
  assert (Hl : Forall (λ x, 3 ≤ x) sample_requests)
    by (apply (bool_decide_unpack _); vm_compute; exact I).
  exact (conj config_source (conj Hv (conj Hf (conj Hl
    (sstf_from_below_sweeps_up A4Q1.NUM_CYLINDERS A4Q1.NUM_REQUESTS sample_mem
       1%positive 2%positive sample_requests sample_sorted 3 20%nat
       config_source Hv Hf Hl))))).
Defined.

(** X15.  When the head starts at or above every request, SSTF degenerates
    to a single downward sweep: on a valid input [schedule_sstf] returns the
    requests in descending order (the sorted copy reversed), and its total
    movement is the distance from the start position down to the smallest
    request. *)
Theorem sstf_from_above_sweeps_down (C N : Z) (m : mem) (req sorted : block)
    (reqs srt : list Z) (start : Z) (fuel : nat) :
  config_ok C N →
  valid_input C N m req sorted reqs srt start →
  (Z.to_nat N ≤ fuel)%nat →
  Forall (λ x, x ≤ start) reqs →
  ∃ r,
    run (schedule_sstf N fuel req start) m = inr (r, m) ∧
    entries r = cells_of (reverse srt) ∧
    len r = N ∧
    movement r = start - hd start srt.
Proof.
  intros Hc Hv Hfuel Hhigh.
  pose proof (run_schedule C N m req sorted reqs srt start Hc Hv fuel SSTF DIR_LEFT Hfuel)
    as Hrun. cbn [schedule service_order] in Hrun.
  destruct (sstf_order_spec C N m req sorted reqs srt start Hc Hv) as (E & Hl & _ & Ht).
  apply sstf_trace_descending in Ht as [_ Hs];
    [|apply (forall_lookup_request (λ x, x ≤ start)), Hhigh].
  pose proof (sstf_order_permutation C N m req sorted reqs srt start Hc Hv) as Hp.
  pose proof Hv as [_ _ Hn _ Hps Hsrt _].
  assert (Eo : sstf_order reqs start = reverse srt).
  { rewrite <- (reverse_involutive (sstf_order reqs start)). f_equal.
    apply (Sorted_unique Z.le); [|exact Hsrt|by rewrite reverse_Permutation, Hp, Hps].
    rewrite E. apply Sorted_reverse in Hs. exact Hs. }
  rewrite Eo in Hrun. eexists. split; [exact Hrun|].
  split; [apply entries_written|]. cbn [len movement].
  split; [by rewrite length_reverse, Hps|].
  apply travel_descending; [apply Sorted_StronglySorted; [apply _|done]|by rewrite Hps].
Qed.

Lemma sstf_from_above_sweeps_down_witness :
  config_ok A4Q1.NUM_CYLINDERS A4Q1.NUM_REQUESTS ∧
  valid_input A4Q1.NUM_CYLINDERS A4Q1.NUM_REQUESTS sample_mem 1%positive 2%positive
    sample_requests sample_sorted 295 ∧
  (Z.to_nat A4Q1.NUM_REQUESTS ≤ 20)%nat ∧
  Forall (λ x, x ≤ 295) sample_requests ∧
  ∃ r,
    run (schedule_sstf A4Q1.NUM_REQUESTS 20 1%positive 295) sample_mem =
      inr (r, sample_mem) ∧
    entries r = cells_of (reverse sample_sorted) ∧
    len r = A4Q1.NUM_REQUESTS ∧
    movement r = 295 - hd 295 sample_sorted.
Proof.
  assert (Hf : (Z.to_nat A4Q1.NUM_REQUESTS ≤ 20)%nat) by (vm_compute; lia).
  assert (Hs : cylinder A4Q1.NUM_CYLINDERS 295)
    by (vm_compute; split; [discriminate|reflexivity]).
  assert (Hv : valid_input A4Q1.NUM_CYLINDERS A4Q1.NUM_REQUESTS sample_mem 1%positive
                 2%positive sample_requests sample_sorted 295).
  { pose proof sample_valid as [H1 H2 H3 H4 H5 H6 _]. by constructor. }
  assert (Hl : Forall (λ x, x ≤ 295) sample_requests)
    by (apply (bool_decide_unpack _); vm_compute; exact I).
  exact (conj config_source (conj Hv (conj Hf (conj Hl
    (sstf_from_above_sweeps_down A4Q1.NUM_CYLINDERS A4Q1.NUM_REQUESTS sample_mem
       1%positive 2%positive sample_requests sample_sorted 295 20%nat
       config_source Hv Hf Hl))))).
Defined.

(** ** The comparator *)

Lemma run_cmp_int (m : mem) (a b : block) (ca cb : list cell) (i j x y : Z) :
  m !! a = Some ca → m !! b = Some cb → 0 ≤ i → 0 ≤ j →
  ca !! Z.to_nat i = Some (Some x) → cb !! Z.to_nat j = Some (Some y) →
  run (cmp_int (a, i) (b, j)) m = inr (Z.sgn (x - y), m).
Proof.
  intros Ha Hb Hi Hj Hx Hy. unfold cmp_int. cbn [fst snd].
  rewrite (run_bind_ok _ _ _ _ _ (run_load _ _ _ _ _ Ha Hi Hx)).
  rewrite (run_bind_ok _ _ _ _ _ (run_load _ _ _ _ _ Hb Hj Hy)).
  unfold int_sub.
  assert (E : Z.b2z (x >? y) - Z.b2z (x <? y) = Z.sgn (x - y)).
  { destruct (Z.gtb_spec x y), (Z.ltb_spec x y); cbn [Z.b2z]; lia. }
  rewrite E. apply run_int_of_ok. unfold INT_MIN, INT_MAX. lia.
Qed.

(** X16.  [cmp_int] is a three-way comparison of the two ints pointed to,
    for all values of the ints: it returns -1, 0 or 1 according to whether
    the first is less than, equal to or greater than the second, it never
    overflows (the difference of the two ints is never formed), it changes
    no memory, and exchanging its arguments negates its result. *)
Theorem cmp_int_three_way (m : mem) (a b : block) (ca cb : list cell) (i j x y : Z) :
  m !! a = Some ca → m !! b = Some cb → 0 ≤ i → 0 ≤ j →
  ca !! Z.to_nat i = Some (Some x) → cb !! Z.to_nat j = Some (Some y) →
  ∃ c,
    run (cmp_int (a, i) (b, j)) m = inr (c, m) ∧
    (c = -1 ∨ c = 0 ∨ c = 1) ∧
    (c < 0 ↔ x < y) ∧ (c = 0 ↔ x = y) ∧ (0 < c ↔ y < x) ∧
    run (cmp_int (b, j) (a, i)) m = inr (- c, m).
Proof.
  intros Ha Hb Hi Hj Hx Hy. exists (Z.sgn (x - y)).
  split; [by eapply run_cmp_int|].
  split; [lia|]. split; [lia|]. split; [lia|]. split; [lia|].
  rewrite (run_cmp_int m b a cb ca j i y x) by done.
  do 2 f_equal. lia.
Qed.

Lemma cmp_int_three_way_witness :
  sample_mem !! 1%positive = Some (cells_of sample_requests) ∧
  sample_mem !! 2%positive = Some (cells_of sample_sorted) ∧
  0 ≤ 0 ∧ 0 ≤ 19 ∧
  cells_of sample_requests !! Z.to_nat 0 = Some (Some 98) ∧
  cells_of sample_sorted !! Z.to_nat 19 = Some (Some 290) ∧
  ∃ c,
    run (cmp_int (1%positive, 0) (2%positive, 19)) sample_mem = inr (c, sample_mem) ∧
    (c = -1 ∨ c = 0 ∨ c = 1) ∧
    (c < 0 ↔ 98 < 290) ∧ (c = 0 ↔ 98 = 290) ∧ (0 < c ↔ 290 < 98) ∧
    run (cmp_int (2%positive, 19) (1%positive, 0)) sample_mem = inr (- c, sample_mem).
Proof.
  assert (H3 : 0 ≤ 0) by lia. assert (H4 : 0 ≤ 19) by lia.
  exact (conj eq_refl (conj eq_refl (conj H3 (conj H4 (conj eq_refl (conj eq_refl
    (cmp_int_three_way sample_mem 1%positive 2%positive (cells_of sample_requests)
       (cells_of sample_sorted) 0 19 98 290 eq_refl eq_refl H3 H4 eq_refl eq_refl))))))).
Defined.

(** ** The library sort with [cmp_int] *)

Lemma ins_Permutation x ra : ins x ra ≡ₚ x :: ra.
Proof.
  induction ra as [|y ra IH]; cbn [ins]; [done|].
  case_decide; [|done]. rewrite IH. apply Permutation_swap.
Qed.

Lemma length_ins x ra : length (ins x ra) = Datatypes.S (length ra).
Proof. by rewrite ins_Permutation. Qed.

Lemma ins_Sorted x ra : Sorted (flip Z.le) ra → Sorted (flip Z.le) (ins x ra).
Proof.
  induction 1 as [|y ra Hra IH Hhd]; cbn [ins]; [repeat constructor|].
  case_decide.
  - constructor; [done|].
    destruct Hhd as [|z ra' Hz]; cbn [ins]; [constructor; unfold flip; lia|].
    case_decide; constructor; unfold flip in *; lia.
  - constructor; [by constructor|]. constructor. unfold flip. lia.
Qed.

Lemma isort_Permutation T : ∀ ra, isort ra T ≡ₚ ra ++ T.
Proof.
  induction T as [|x T IH]; intros ra; cbn [isort].
  - by rewrite reverse_Permutation, app_nil_r.
  - rewrite IH, ins_Permutation. apply Permutation_middle.
Qed.

Lemma isort_Sorted T : ∀ ra, Sorted (flip Z.le) ra → Sorted Z.le (isort ra T).
Proof.
  induction T as [|x T IH]; intros ra Hra; cbn [isort].
  - apply Sorted_reverse in Hra. exact Hra.
  - by apply IH, ins_Sorted.
Qed.

Lemma length_isort ra T : length (isort ra T) = (length ra + length T)%nat.
Proof. by rewrite isort_Permutation, length_app. Qed.

Lemma insert_pair (A : list cell) (a b a' b' : cell) (T : list cell) :
  <[Datatypes.S (length A) := b']> (<[length A := a']> (A ++ a :: b :: T)) =
  A ++ a' :: b' :: T.
Proof. induction A as [|c A IH]; [reflexivity|]. cbn. f_equal. exact IH. Qed.

Lemma run_swap (m : mem) (base : block) (A : list Z) (x y : Z) (T : list Z)
    (rest : list cell) :
  m !! base = Some (cells_of (A ++ y :: x :: T) ++ rest) →
  run (swap base (Z.of_nat (length A)) (Z.of_nat (Datatypes.S (length A)))) m =
  inr ((), <[base := cells_of (A ++ x :: y :: T) ++ rest]> m).
Proof.
  intros Hm. unfold swap.
  assert (E : ∀ u v, cells_of (A ++ u :: v :: T) ++ rest =
                     cells_of A ++ Some u :: Some v :: (cells_of T ++ rest)).
  { intros u v. unfold cells_of. rewrite fmap_app, !fmap_cons, <- app_assoc. reflexivity. }
  assert (Hlen : length (cells_of A) = length A) by apply length_cells_of.
  erewrite run_bind_ok.
  2:{ eapply run_load; [exact Hm|lia|]. rewrite Nat2Z.id, E.
      rewrite lookup_app_r by (rewrite ?length_cells_of, ?length_reverse; lia). rewrite ?length_cells_of, ?length_reverse, Nat.sub_diag. reflexivity. }
  erewrite run_bind_ok.
  2:{ eapply run_load; [exact Hm|lia|]. rewrite Nat2Z.id, E.
      rewrite lookup_app_r by (rewrite ?length_cells_of, ?length_reverse; lia). rewrite ?length_cells_of, ?length_reverse.
      replace (Datatypes.S (length A) - length A)%nat with 1%nat by lia. reflexivity. }
  erewrite run_bind_ok.
  2:{ eapply run_store; [exact Hm|]. rewrite E, length_app, length_cells_of. cbn [length]. lia. }
  erewrite run_store.
  2:{ apply lookup_insert_eq. }
  2:{ rewrite length_insert, E, length_app, length_cells_of. cbn [length]. lia. }
  rewrite insert_insert_eq, !Nat2Z.id. do 3 f_equal.
  rewrite !E, <- (length_cells_of A). apply insert_pair.
Qed.

Lemma run_sift (base : block) (rest : list cell) (x : Z) (ra : list Z) :
  ∀ (T : list Z) (m : mem),
    m !! base = Some (cells_of (reverse ra ++ x :: T) ++ rest) →
    run (sift base cmp_int (length ra)) m =
    inr ((), <[base := cells_of (reverse (ins x ra) ++ T) ++ rest]> m).
Proof.
  induction ra as [|y ra IH]; intros T m Hm.
  - cbn [sift length ins]. rewrite run_ret, insert_id; [done|exact Hm].
  - cbn [sift length].
    assert (Hm' : m !! base = Some (cells_of (reverse ra ++ y :: x :: T) ++ rest)).
    { rewrite Hm, reverse_cons, <- app_assoc. reflexivity. }
    assert (E : ∀ u v, cells_of (reverse ra ++ u :: v :: T) ++ rest =
                       cells_of (reverse ra) ++ Some u :: Some v :: (cells_of T ++ rest)).
    { intros u v. unfold cells_of. rewrite fmap_app, !fmap_cons, <- app_assoc. reflexivity. }
    assert (Hlen : length (cells_of (reverse ra)) = length ra)
      by (by rewrite length_cells_of, length_reverse).
    erewrite run_bind_ok.
    2:{ eapply (run_cmp_int m base base _ _ _ _ y x); [exact Hm'|exact Hm'|lia|lia| |].
        - rewrite Nat2Z.id, E, lookup_app_r by (rewrite ?length_cells_of, ?length_reverse; lia).
          rewrite ?length_cells_of, ?length_reverse, Nat.sub_diag. reflexivity.
        - rewrite Nat2Z.id, E, lookup_app_r by (rewrite ?length_cells_of, ?length_reverse; lia). rewrite ?length_cells_of, ?length_reverse.
          replace (Datatypes.S (length ra) - length ra)%nat with 1%nat by lia. reflexivity. }
    cbn [ins]. destruct (decide (x < y)) as [Hlt|Hge].
    + rewrite decide_True by lia.
      erewrite run_bind_ok.
      2:{ rewrite <- (length_reverse ra). apply run_swap. exact Hm'. }
      rewrite (IH (y :: T)); [|by rewrite lookup_insert_eq].
      rewrite insert_insert_eq, reverse_cons, <- app_assoc. reflexivity.
    + rewrite decide_False by lia.
      rewrite run_ret, insert_id; [done|].
      rewrite Hm', !reverse_cons, <- !app_assoc. reflexivity.
Qed.

Lemma run_qsort_loop (base : block) (rest : list cell) (T : list Z) :
  ∀ (ra : list Z) (m : mem),
    m !! base = Some (cells_of (reverse ra ++ T) ++ rest) →
    run (for_up_from (length T) (Z.of_nat (length ra))
           (λ i (_ : ()), sift base cmp_int (Z.to_nat i)) ()) m =
    inr ((), <[base := cells_of (isort ra T) ++ rest]> m).
Proof.
  induction T as [|x T IH]; intros ra m Hm.
  - cbn [for_up_from length isort]. rewrite run_ret, insert_id; [done|].
    by rewrite Hm, app_nil_r.
  - cbn [for_up_from length isort]. rewrite Nat2Z.id.
    erewrite run_bind_ok by (apply run_sift; exact Hm).
    replace (Z.of_nat (length ra) + 1) with (Z.of_nat (length (ins x ra)))
      by (rewrite length_ins; lia).
    rewrite (IH (ins x ra)); [|by rewrite lookup_insert_eq].
    by rewrite insert_insert_eq.
Qed.

Lemma run_qsort (m : mem) (base : block) (l : list Z) (rest : list cell) :
  m !! base = Some (cells_of l ++ rest) →
  run (qsort base (Z.of_nat (length l)) cmp_int) m =
  inr ((), <[base := cells_of (isort [] l) ++ rest]> m).
Proof.
  intros Hm. unfold qsort, for_up. destruct l as [|x T].
  - cbn. rewrite insert_id; [done|exact Hm].
  - replace (Z.to_nat (Z.of_nat (length (x :: T)) - 1)) with (length T)
      by (cbn [length]; lia).
    change 1 with (Z.of_nat (length [x])) at 1.
    rewrite (run_qsort_loop base rest T [x] m Hm). reflexivity.
Qed.

(** X17.  [qsort] driven by [cmp_int] leaves the first [nmemb] elements of
    the array in ascending order: they are a permutation of the elements
    that were there, what follows them in the array is untouched, no other
    memory changes, and no comparison faults.  The sorted array is the only
    ascending arrangement of those elements. *)
Theorem qsort_cmp_int_sorts (m : mem) (base : block) (l : list Z) (rest : list cell) :
  m !! base = Some (cells_of l ++ rest) →
  ∃ l',
    run (qsort base (Z.of_nat (length l)) cmp_int) m =
      inr ((), <[base := cells_of l' ++ rest]> m) ∧
    l' ≡ₚ l ∧ Sorted Z.le l' ∧
    ∀ l'', l'' ≡ₚ l → Sorted Z.le l'' → l'' = l'.
Proof.
  intros Hm. exists (isort [] l).
  split; [by apply run_qsort|].
  pose proof (isort_Permutation l []) as Hp. rewrite app_nil_l in Hp.
  pose proof (isort_Sorted l [] (Sorted_nil _)) as Hs.
  split; [done|]. split; [done|].
  intros l'' Hp' Hs'. apply (Sorted_unique Z.le); [done|done|by rewrite Hp, Hp'].
Qed.

Lemma qsort_cmp_int_sorts_witness :
  sample_mem !! 1%positive = Some (cells_of sample_requests ++ []) ∧
  ∃ l',
    run (qsort 1%positive (Z.of_nat (length sample_requests)) cmp_int) sample_mem =
      inr ((), <[1%positive := cells_of l' ++ []]> sample_mem) ∧
    l' ≡ₚ sample_requests ∧ Sorted Z.le l' ∧
    ∀ l'', l'' ≡ₚ sample_requests → Sorted Z.le l'' → l'' = l'.
Proof.
  assert (H1 : sample_mem !! 1%positive = Some (cells_of sample_requests ++ []))
    by (rewrite app_nil_r; reflexivity).
  exact (conj H1 (qsort_cmp_int_sorts sample_mem 1%positive sample_requests [] H1)).
Defined.

(** ** Strings *)

Lemma string_app_nil_r (s : string) : s +:+ EmptyString = s.
Proof.
  induction s as [|c s IH]; [reflexivity|].
  change (String c (s +:+ EmptyString) = String c s). by rewrite IH.
Qed.

Lemma string_app_assoc (s t u : string) : (s +:+ t) +:+ u = s +:+ t +:+ u.
Proof.
  induction s as [|c s IH]; [reflexivity|].
  change (String c ((s +:+ t) +:+ u) = String c (s +:+ t +:+ u)). by rewrite IH.
Qed.

Lemma strcmp_eq (s t : string) : strcmp s t = 0 ↔ s = t.
Proof.
  revert t. induction s as [|a s IH]; intros [|b t]; cbn [strcmp]; try (split; [lia|done]).
  - done.
  - destruct (decide (a = b)) as [->|Hne].
    + rewrite IH. split; [by intros ->|by intros [= ->]].
    + split; [|by intros [= ? ?]]. intros H. exfalso. apply Hne.
      rewrite <- (ascii_N_embedding a), <- (ascii_N_embedding b). f_equal. lia.
Qed.

(** ** The process monad *)

Lemma bind_lift {A B} (c : M A) (f : A → P B) (w : world) x h :
  run c (heap w) = inr (x, h) →
  (lift c ≫= f) w = f x (mkWorld h (stdout w) (stderr w)).
Proof. intros H. unfold mbind, P_bind, lift. unfold run in H. by rewrite H. Qed.

Lemma bind_printf {B} (text : string) (f : () → P B) (w : world) :
  (printf text ≫= f) w = f () (mkWorld (heap w) (stdout w +:+ text) (stderr w)).
Proof. reflexivity. Qed.

Lemma bind_fprintf_stderr {B} (text : string) (f : () → P B) (w : world) :
  (fprintf_stderr text ≫= f) w = f () (mkWorld (heap w) (stdout w) (stderr w +:+ text)).
Proof. reflexivity. Qed.

Lemma bind_returned {A B} (c : P A) (f : A → P B) (w w' : world) x :
  c w = Returned x w' → (c ≫= f) w = f x w'.
Proof. intros H. unfold mbind, P_bind. by rewrite H. Qed.

(** ** [parse_direction] *)

(** X18.  [parse_direction] accepts exactly the two strings LEFT and RIGHT,
    in upper case and with nothing before or after, and is the inverse of
    the naming [main] uses when it prints the direction: it returns [d],
    touching nothing, exactly on the name of [d]; on every other string the
    process exits with status 1 after one line on the error stream, with
    nothing written to the standard output. *)
Theorem parse_direction_round_trip (s : string) (w : world) :
  (∀ d, parse_direction (direction_name d) w = Returned d w) ∧
  match parse_direction s w with
  | Returned d w' => s = direction_name d ∧ w' = w
  | Exited status w' =>
      s ≠ "LEFT" ∧ s ≠ "RIGHT" ∧ status = 1 ∧
      w' = mkWorld (heap w) (stdout w)
             (stderr w +:+ "ERROR: Direction must be LEFT or RIGHT." +:+ nl)
  | Undefined _ => False
  end.
Proof.
  split.
  - intros [|]; reflexivity.
  - unfold parse_direction.
    destruct (decide (strcmp s "LEFT" = 0)) as [E|E]; rewrite strcmp_eq in E.
    { split; [by subst|done]. }
    destruct (decide (strcmp s "RIGHT" = 0)) as [E'|E']; rewrite strcmp_eq in E'.
    { split; [by subst|done]. }
    cbn. done.
Qed.

(** ** [print_result] *)

Lemma run_member (a : list cell) (i : nat) (x : Z) (w : world) :
  a !! i = Some (Some x) → member a (Z.of_nat i) w = Returned x w.
Proof. intros H. unfold member. rewrite decide_True by lia. by rewrite Nat2Z.id, H. Qed.

Lemma print_entry (cells : list cell) (n : Z) (i : nat) (x : Z) (w : world) :
  cells !! i = Some (Some x) →
  (x ← member cells (Z.of_nat i);
   printf (pretty x);;
   if decide (Z.of_nat i < n - 1) then printf ", " else mret ()) w =
  Returned ()
    (mkWorld (heap w)
       (stdout w +:+ pretty x +:+
        (if decide (Z.of_nat i < n - 1) then ", " else EmptyString))
       (stderr w)).
Proof.
  intros Hx. erewrite bind_returned by (by apply run_member). rewrite bind_printf.
  case_decide.
  - unfold printf. cbn [heap stdout stderr]. by rewrite string_app_assoc.
  - by rewrite string_app_nil_r.
Qed.

Lemma print_loop (cells : list cell) (n : Z) (rest : list Z) :
  ∀ (i : nat) (w : world),
    Z.of_nat (i + length rest) = n →
    (∀ k x, rest !! k = Some x → cells !! (i + k)%nat = Some (Some x)) →
    P_for_up_from (length rest) (Z.of_nat i) (λ i,
        x ← member cells i;
        printf (pretty x);;
        if decide (i < n - 1) then printf ", " else mret ()) w =
    Returned () (mkWorld (heap w) (stdout w +:+ String.concat ", " (pretty <$> rest))
                   (stderr w)).
Proof.
  induction rest as [|x rest IH]; intros i w Hn Hcells.
  - cbn. rewrite string_app_nil_r. by destruct w.
  - cbn [length P_for_up_from].
    assert (Hx : cells !! i = Some (Some x)).
    { rewrite <- (Nat.add_0_r i). by apply Hcells. }
    erewrite bind_returned by (by apply print_entry).
    replace (Z.of_nat i + 1) with (Z.of_nat (Datatypes.S i)) by lia.
    cbn [length] in Hn.
    rewrite IH; [| lia |].
    2:{ intros k z Hk. replace (Datatypes.S i + k)%nat with (i + Datatypes.S k)%nat by lia.
        by apply Hcells. }
    cbn [heap stdout stderr]. do 2 f_equal.
    destruct rest as [|y rest].
    + rewrite decide_False by (cbn [length] in *; lia).
      cbn. by rewrite !string_app_nil_r.
    + rewrite decide_True by (cbn [length] in *; lia).
      cbn [fmap list_fmap String.concat]. by rewrite !string_app_assoc.
Qed.

Lemma run_print_result (name : string) (r : Result) (out : list Z) (w : world) :
  entries r = cells_of out → len r = Z.of_nat (length out) →
  print_result name r w =
  Returned () (mkWorld (heap w) (stdout w +:+ result_text name out (movement r)) (stderr w)).
Proof.
  intros He Hl. unfold print_result. rewrite bind_printf.
  unfold P_for_up. replace (Z.to_nat (len r - 0)) with (length out) by lia.
  erewrite bind_returned.
  2:{ apply (print_loop (seq r) (len r) out 0%nat); [cbn; lia|].
      intros k x Hk. cbn.
      assert (E : entries r !! k = Some (Some x)).
      { rewrite He, lookup_cells_of, Hk. reflexivity. }
      unfold entries in E. apply lookup_take_Some in E as [E _]. exact E. }
  unfold printf. cbn [heap stdout stderr]. unfold result_text.
  by rewrite !string_app_assoc.
Qed.

(** X19.  [print_result] writes to the standard output the heading with the
    algorithm's name, the first [len] entries of the result in decimal
    separated by a comma and a space (no separator after the last entry, an
    empty line for an empty result), and the line with the total movement;
    it reads no entry beyond the first [len] (the indeterminate rest of
    [seq] is never touched) and changes neither memory nor the error
    stream. *)
Theorem print_result_text (name : string) (r : Result) (out : list Z) (w : world) :
  entries r = cells_of out →
  len r = Z.of_nat (length out) →
  print_result name r w =
  Returned ()
    (mkWorld (heap w)
       (stdout w +:+ name +:+ " DISK SCHEDULING ALGORITHM:" +:+ nl +:+ nl +:+
        String.concat ", " (pretty <$> out) +:+
        nl +:+ nl +:+ name +:+ " - Total head movements = " +:+
        pretty (movement r) +:+ nl +:+ nl)
       (stderr w)).
Proof. intros He Hl. by rewrite (run_print_result name r out w He Hl). Qed.

Lemma print_result_text_witness :
  entries (mkResult (buffer [98; 183; 37]) 3 146) = cells_of [98; 183; 37] ∧
  len (mkResult (buffer [98; 183; 37]) 3 146) = Z.of_nat (length [98; 183; 37]) ∧
  print_result "FCFS" (mkResult (buffer [98; 183; 37]) 3 146)
    (mkWorld ∅ EmptyString EmptyString) =
  Returned ()
    (mkWorld ∅
       (EmptyString +:+ "FCFS" +:+ " DISK SCHEDULING ALGORITHM:" +:+ nl +:+ nl +:+
        String.concat ", " (pretty <$> [98; 183; 37]) +:+
        nl +:+ nl +:+ "FCFS" +:+ " - Total head movements = " +:+
        pretty 146 +:+ nl +:+ nl)
       EmptyString).
Proof.
  exact (conj eq_refl (conj eq_refl
    (print_result_text "FCFS" (mkResult (buffer [98; 183; 37]) 3 146)
       [98; 183; 37] (mkWorld ∅ EmptyString EmptyString) eq_refl eq_refl))).
Defined.

(** ** [main] *)

Lemma run_atoi (s : string) (m : mem) :
  INT_MIN ≤ atoi_value s ≤ INT_MAX → run (atoi s) m = inr (atoi_value s, m).
Proof. intros H. unfold atoi. by apply run_int_of_ok. Qed.

Lemma parse_direction_name (d : Direction) (w : world) :
  parse_direction (direction_name d) w = Returned d w.
Proof. by destruct d. Qed.

Lemma run_fread (m : mem) (buf : block) (count : Z) (items : list Z) :
  m !! buf = Some (replicate (Z.to_nat count) None) →
  let got := take (Z.to_nat count) items in
  run (fread buf count items) m =
  inr ((Z.of_nat (length got), drop (length got) items),
       <[buf := cells_of got ++ replicate (Z.to_nat count - length got) None]> m).
Proof.
  intros Hm got. unfold run, fread. unfold cell in *. rewrite Hm. fold got.
  rewrite decide_True by (unfold got; rewrite length_take, length_replicate; lia).
  by rewrite drop_replicate.
Qed.

Lemma run_memcpy (m : mem) (dst src : block) (n : Z) (l : list Z) :
  n = Z.of_nat (length l) →
  m !! dst = Some (replicate (Z.to_nat n) None) → m !! src = Some (cells_of l) →
  run (memcpy dst src n) m = inr ((), <[dst := cells_of l]> m).
Proof.
  intros -> Hd Hs. unfold run, memcpy. unfold cell in *. rewrite Hd, Hs, Nat2Z.id.
  rewrite decide_True by (rewrite length_replicate, length_cells_of; lia).
  rewrite drop_replicate, Nat.sub_diag.
  rewrite take_ge by (rewrite length_cells_of; lia).
  cbn [replicate]. by rewrite app_nil_r.
Qed.

Lemma run_qsort_whole (m : mem) (base : block) (n : Z) (l : list Z) :
  n = Z.of_nat (length l) → m !! base = Some (cells_of l) →
  run (qsort base n cmp_int) m = inr ((), <[base := cells_of (isort [] l)]> m).
Proof.
  intros -> Hm. rewrite (run_qsort m base l []) by (by rewrite app_nil_r).
  by rewrite app_nil_r.
Qed.

Lemma isort_sorted_permutation (l : list Z) :
  isort [] l ≡ₚ l ∧ Sorted Z.le (isort [] l).
Proof.
  split; [apply (isort_Permutation l [])|apply isort_Sorted; constructor].
Qed.

Section MainRuns.

Variables (C N : Z) (fuel : nat) (h : mem) (reqs : list Z) (start : Z).
Hypothesis Hconfig : config_ok C N.
Hypothesis Hfuel : (Z.to_nat N ≤ fuel)%nat.
Hypothesis Hcount : Z.of_nat (length reqs) = N.
Hypothesis Hreqs : Forall (cylinder C) reqs.
Hypothesis Hstart : cylinder C start.

(** The arrays of [main] once they are filled. *)
Lemma main_arrays_valid (req sorted : block) :
  h !! req = None → req ≠ sorted →
  valid_input C N (<[sorted := cells_of (isort [] reqs)]> (<[req := cells_of reqs]> h))
    req sorted reqs (isort [] reqs) start.
Proof.
  intros Hreq Hne. destruct (isort_sorted_permutation reqs) as [Hp Hs].
  constructor; try done.
  - rewrite lookup_insert_ne by done. apply lookup_insert_eq.
  - apply lookup_insert_eq.
Qed.

(** One call with its printing. *)
Lemma main_call (req sorted : block) (dir : Direction) (alg : algorithm) {B}
    (k : () → P B) (out err : string) :
  h !! req = None → req ≠ sorted →
  let hh := <[sorted := cells_of (isort [] reqs)]> (<[req := cells_of reqs]> h) in
  (r ← lift (schedule C N fuel alg req sorted start dir);
   print_result (algorithm_name alg) r ≫= k) (mkWorld hh out err) =
  k () (mkWorld hh (out +:+ schedule_text C reqs (isort [] reqs) start dir alg) err).
Proof.
  intros Hreq Hne hh.
  pose proof (run_schedule C N hh req sorted reqs (isort [] reqs) start Hconfig
                (main_arrays_valid req sorted Hreq Hne) fuel alg dir Hfuel) as Hrun.
  cbn zeta in Hrun.
  erewrite bind_lift by exact Hrun. cbn [heap stdout stderr].
  erewrite bind_returned.
  2:{ apply (run_print_result _ _ (service_order C alg reqs (isort [] reqs) start dir));
        [apply entries_written|reflexivity]. }
  cbn [heap stdout stderr movement]. unfold schedule_text.
  by rewrite movement_sum_travel.
Qed.

End MainRuns.

(** X20.  A run of the program with valid arguments and a request file
    that holds at least [NUM_REQUESTS] valid cylinders ends with status 0.
    It prints, on the standard output and in this order, the three header
    lines (request count, initial position as read by [atoi], direction)
    and the results of FCFS and SSTF on the first [NUM_REQUESTS] items of
    the file in their order in the file, then of SCAN, C-SCAN, LOOK and
    C-LOOK on those items in ascending order; nothing is written to the
    error stream, items of the file beyond the first [NUM_REQUESTS] are
    ignored, and memory is left as it was found. *)
Theorem main_prints_the_six_schedules (C N : Z) (fuel : nat) (fs : files)
    (prog a1 : string) (dir : Direction) (items : list Z) (w : world) :
  config_ok C N →
  (Z.to_nat N ≤ fuel)%nat →
  cylinder C (atoi_value a1) →
  fs "request.bin" = inr items →
  N ≤ Z.of_nat (length items) →
  Forall (cylinder C) (take (Z.to_nat N) items) →
  ∃ srt,
    srt ≡ₚ take (Z.to_nat N) items ∧ Sorted Z.le srt ∧
    main C N fuel fs [prog; a1; direction_name dir] w =
    Returned 0
      (mkWorld (heap w)
         (stdout w +:+ report C N (take (Z.to_nat N) items) srt (atoi_value a1) dir)
         (stderr w)).
Proof.
  intros Hc Hfuel Hstart Hfs Hlen Hcyl.
  set (reqs := take (Z.to_nat N) items) in *. set (start := atoi_value a1) in *.
  destruct (isort_sorted_permutation reqs) as [Hp Hs].
  exists (isort [] reqs). split; [done|]. split; [done|].
  pose proof Hc as (HN & _ & _ & _). pose proof (config_sentinel C N Hc) as Hsent.
  assert (Hcount : Z.of_nat (length reqs) = N) by (unfold reqs; rewrite length_take; lia).
  destruct w as [h out err]. unfold main. cbn [length heap stdout stderr].
  rewrite decide_False by lia.
  change (default EmptyString ([prog; a1; direction_name dir] !! 1%nat)) with a1.
  change (default EmptyString ([prog; a1; direction_name dir] !! 2%nat))
    with (direction_name dir).
  erewrite bind_lift
    by (apply run_atoi; fold start; unfold cylinder, INT_MIN, INT_MAX in *; lia).
  fold start. cbn [heap stdout stderr].
  rewrite decide_False by (unfold cylinder in Hstart; lia).
  erewrite bind_returned by apply parse_direction_name.
  erewrite bind_lift by (cbn [heap]; apply run_alloca). cbn [heap stdout stderr].
  pose proof (fresh_block_unused h) as Hreq.
  set (req := fresh (dom h)) in *.
  rewrite Hfs.
  erewrite bind_lift by (cbn [heap]; apply run_fread, lookup_insert_eq).
  fold reqs. cbn [heap stdout stderr].
  rewrite decide_False by lia.
  replace (Z.to_nat N - length reqs)%nat with 0%nat by lia.
  cbn [replicate]. rewrite app_nil_r, insert_insert_eq.
  unfold fclose. erewrite bind_returned by reflexivity.
  erewrite bind_lift by (cbn [heap]; apply run_alloca). cbn [heap stdout stderr].
  pose proof (fresh_block_unused (<[req := cells_of reqs]> h)) as Hsorted.
  set (sorted := fresh (dom (<[req := cells_of reqs]> h))) in *.
  pose proof Hsorted as Hsorted'.
  apply lookup_insert_None in Hsorted' as [Hsh Hne].
  erewrite bind_lift.
  2:{ cbn [heap]. apply (run_memcpy _ sorted req N reqs); [lia|apply lookup_insert_eq|].
      rewrite lookup_insert_ne by done. apply lookup_insert_eq. }
  cbn [heap stdout stderr]. rewrite insert_insert_eq.
  erewrite bind_lift.
  2:{ cbn [heap]. apply (run_qsort_whole _ sorted N reqs); [lia|apply lookup_insert_eq]. }
  cbn [heap stdout stderr]. rewrite insert_insert_eq.
  rewrite !bind_printf. cbn [heap stdout stderr].
  change (schedule_fcfs N req start) with (schedule C N fuel FCFS req sorted start dir).
  change (schedule_sstf N fuel req start) with (schedule C N fuel SSTF req sorted start dir).
  change (schedule_scan C N sorted start dir)
    with (schedule C N fuel SCAN req sorted start dir).
  change (schedule_cscan C N sorted start dir)
    with (schedule C N fuel CSCAN req sorted start dir).
  change (schedule_look N sorted start dir)
    with (schedule C N fuel LOOK req sorted start dir).
  change (schedule_clook N sorted start dir)
    with (schedule C N fuel CLOOK req sorted start dir).
  change "C-SCAN" with (algorithm_name CSCAN).
  change "C-LOOK" with (algorithm_name CLOOK).
  change "FCFS" with (algorithm_name FCFS).
  change "SSTF" with (algorithm_name SSTF).
  change "SCAN" with (algorithm_name SCAN).
  change "LOOK" with (algorithm_name LOOK).
  rewrite !(main_call C N fuel h reqs start Hc Hfuel Hcount Hcyl Hstart req sorted dir)
    by done.
  erewrite bind_lift by (cbn [heap]; apply run_leave, lookup_insert_eq). cbn [heap stdout stderr].
  rewrite delete_insert_eq, (delete_id _ sorted) by done.
  erewrite bind_lift by (cbn [heap]; apply run_leave, lookup_insert_eq). cbn [heap stdout stderr].
  rewrite delete_insert_eq, (delete_id _ req) by done.
  unfold mret, P_ret. f_equal. f_equal.
  unfold report, direction_name. rewrite !string_app_assoc. reflexivity.
Qed.

Lemma main_prints_the_six_schedules_witness :
  config_ok A4Q1.NUM_CYLINDERS A4Q1.NUM_REQUESTS ∧
  (Z.to_nat A4Q1.NUM_REQUESTS ≤ 20)%nat ∧
  cylinder A4Q1.NUM_CYLINDERS (atoi_value "53") ∧
  (λ _ : string, inr sample_requests : string + list Z) "request.bin" =
    inr sample_requests ∧
  A4Q1.NUM_REQUESTS ≤ Z.of_nat (length sample_requests) ∧
  Forall (cylinder A4Q1.NUM_CYLINDERS) (take (Z.to_nat A4Q1.NUM_REQUESTS) sample_requests) ∧
  ∃ srt,
    srt ≡ₚ take (Z.to_nat A4Q1.NUM_REQUESTS) sample_requests ∧ Sorted Z.le srt ∧
    main A4Q1.NUM_CYLINDERS A4Q1.NUM_REQUESTS 20 (λ _, inr sample_requests)
      ["./A4Q1"; "53"; direction_name DIR_LEFT] (mkWorld ∅ EmptyString EmptyString) =
    Returned 0
      (mkWorld (heap (mkWorld ∅ EmptyString EmptyString))
         (stdout (mkWorld ∅ EmptyString EmptyString) +:+
          report A4Q1.NUM_CYLINDERS A4Q1.NUM_REQUESTS
            (take (Z.to_nat A4Q1.NUM_REQUESTS) sample_requests) srt (atoi_value "53")
            DIR_LEFT)
         (stderr (mkWorld ∅ EmptyString EmptyString))).
Proof.
  assert (H2 : (Z.to_nat A4Q1.NUM_REQUESTS ≤ 20)%nat) by (vm_compute; lia).
  assert (H3 : cylinder A4Q1.NUM_CYLINDERS (atoi_value "53"))
    by (vm_compute; split; [discriminate|reflexivity]).
  assert (H5 : A4Q1.NUM_REQUESTS ≤ Z.of_nat (length sample_requests))
    by (vm_compute; discriminate).
  assert (H6 : Forall (cylinder A4Q1.NUM_CYLINDERS)
                 (take (Z.to_nat A4Q1.NUM_REQUESTS) sample_requests))
    by (apply (bool_decide_unpack _); vm_compute; exact I).
  exact (conj config_source (conj H2 (conj H3 (conj eq_refl (conj H5 (conj H6
    (main_prints_the_six_schedules A4Q1.NUM_CYLINDERS A4Q1.NUM_REQUESTS 20
       (λ _, inr sample_requests) "./A4Q1" "53" DIR_LEFT sample_requests
       (mkWorld ∅ EmptyString EmptyString) config_source H2 H3 eq_refl H5 H6))))))).
Defined.

Lemma parse_direction_rejects (s : string) (w : world) :
  s ≠ "LEFT" → s ≠ "RIGHT" →
  parse_direction s w =
  Exited 1 (mkWorld (heap w) (stdout w)
              (stderr w +:+ "ERROR: Direction must be LEFT or RIGHT." +:+ nl)).
Proof.
  intros H1 H2. unfold parse_direction.
  rewrite decide_False by (by rewrite strcmp_eq).
  rewrite decide_False by (by rewrite strcmp_eq). reflexivity.
Qed.

Lemma parse_direction_accepts (s : string) (w : world) :
  s = "LEFT" ∨ s = "RIGHT" → ∃ d, parse_direction s w = Returned d w.
Proof. intros [->| ->]; [by exists DIR_LEFT|by exists DIR_RIGHT]. Qed.

(** X21.  When one of the checks of [main] fails, the process ends with
    status 1 after writing to the error stream the diagnostic of the first
    check that fails, in the order: argument count, range of the initial
    position, direction, opening of the request file, number of requests
    read.  This holds for a non-negative [NUM_REQUESTS] and, when there are
    three arguments, for an initial position whose number is representable
    as an int: [atoi] is undefined on any other numeral, and so is what the
    program does with it.  Nothing is written to the standard output, memory is left as it
    was found, and later checks are not made (an out-of-range position hides
    a bad direction; bad arguments hide a missing file). *)
Theorem main_reports_first_failed_check (C N : Z) (fuel : nat) (fs : files)
    (argv : list string) (w : world) (msg : string) :
  0 ≤ N →
  (length argv = 3%nat →
   INT_MIN ≤ atoi_value (default EmptyString (argv !! 1%nat)) ≤ INT_MAX) →
  complaint C N fs argv = Some msg →
  main C N fuel fs argv w =
    Returned 1 (mkWorld (heap w) (stdout w) (stderr w +:+ msg)) ∨
  main C N fuel fs argv w =
    Exited 1 (mkWorld (heap w) (stdout w) (stderr w +:+ msg)).
Proof.
  intros HN Hint Hmsg. destruct w as [h out err]. cbn [heap stdout stderr].
  unfold complaint in Hmsg. unfold main.
  destruct (decide (length argv ≠ 3%nat)) as [Hargc|Hargc].
  { rewrite decide_True by lia. injection Hmsg as <-. left. reflexivity. }
  rewrite decide_False by lia.
  erewrite bind_lift by (apply run_atoi, Hint; lia). cbn [heap stdout stderr].
  set (start := atoi_value (default EmptyString (argv !! 1%nat))) in *.
  set (a2 := default EmptyString (argv !! 2%nat)) in *.
  destruct (decide (¬ cylinder C start)) as [Hstart|Hstart].
  { rewrite decide_True by (unfold cylinder in Hstart; lia).
    injection Hmsg as <-. left. reflexivity. }
  rewrite decide_False by (unfold cylinder in Hstart; lia).
  destruct (decide (a2 ≠ "LEFT" ∧ a2 ≠ "RIGHT")) as [[Hl Hr]|Hdir].
  { injection Hmsg as <-. right.
    unfold mbind at 1, P_bind at 1. rewrite parse_direction_rejects by done. reflexivity. }
  destruct (parse_direction_accepts a2 (mkWorld h out err)) as [d Hd].
  { destruct (decide (a2 = "LEFT")); [by left|].
    destruct (decide (a2 = "RIGHT")); [by right|]. by destruct Hdir. }
  erewrite bind_returned by exact Hd.
  erewrite bind_lift by (cbn [heap]; apply run_alloca). cbn [heap stdout stderr].
  pose proof (fresh_block_unused h) as Hreq.
  set (req := fresh (dom h)) in *.
  destruct (fs "request.bin") as [reason|items].
  { injection Hmsg as <-. left. unfold perror. rewrite bind_fprintf_stderr.
    cbn [heap stdout stderr].
    erewrite bind_lift by (cbn [heap]; apply run_leave, lookup_insert_eq).
    cbn [heap stdout stderr]. rewrite delete_insert_eq, delete_id by done.
    reflexivity. }
  destruct (decide (Z.of_nat (length items) < N)) as [Hshort|]; [|discriminate].
  injection Hmsg as <-. left.
  erewrite bind_lift by (cbn [heap]; apply run_fread, lookup_insert_eq).
  cbn [heap stdout stderr].
  rewrite decide_True by (rewrite length_take; lia).
  rewrite bind_fprintf_stderr. cbn [heap stdout stderr].
  erewrite bind_lift by (cbn [heap]; apply run_leave, lookup_insert_eq).
  cbn [heap stdout stderr]. rewrite insert_insert_eq, delete_insert_eq, delete_id by done.
  reflexivity.
Qed.

Lemma main_reports_first_failed_check_witness :
  0 ≤ A4Q1.NUM_REQUESTS ∧
  (length ["./A4Q1"; "300"; "UP"] = 3%nat →
   INT_MIN ≤ atoi_value (default EmptyString (["./A4Q1"; "300"; "UP"] !! 1%nat)) ≤ INT_MAX) ∧
  complaint A4Q1.NUM_CYLINDERS A4Q1.NUM_REQUESTS (λ _, inl "No such file or directory")
    ["./A4Q1"; "300"; "UP"] =
    Some ("ERROR: Initial head must be between 0 and 299." +:+ nl) ∧
  (main A4Q1.NUM_CYLINDERS A4Q1.NUM_REQUESTS 20 (λ _, inl "No such file or directory")
     ["./A4Q1"; "300"; "UP"] (mkWorld ∅ EmptyString EmptyString) =
     Returned 1
       (mkWorld (heap (mkWorld ∅ EmptyString EmptyString))
          (stdout (mkWorld ∅ EmptyString EmptyString))
          (stderr (mkWorld ∅ EmptyString EmptyString) +:+
           "ERROR: Initial head must be between 0 and 299." +:+ nl)) ∨
   main A4Q1.NUM_CYLINDERS A4Q1.NUM_REQUESTS 20 (λ _, inl "No such file or directory")
     ["./A4Q1"; "300"; "UP"] (mkWorld ∅ EmptyString EmptyString) =
     Exited 1
       (mkWorld (heap (mkWorld ∅ EmptyString EmptyString))
          (stdout (mkWorld ∅ EmptyString EmptyString))
          (stderr (mkWorld ∅ EmptyString EmptyString) +:+
           "ERROR: Initial head must be between 0 and 299." +:+ nl))).
Proof.
  assert (H1 : 0 ≤ A4Q1.NUM_REQUESTS) by (vm_compute; discriminate).
  assert (H2 : length ["./A4Q1"; "300"; "UP"] = 3%nat →
               INT_MIN ≤ atoi_value (default EmptyString (["./A4Q1"; "300"; "UP"] !! 1%nat))
               ≤ INT_MAX)
    by (intros _; vm_compute; split; discriminate).
  exact (conj H1 (conj H2 (conj eq_refl
    (main_reports_first_failed_check A4Q1.NUM_CYLINDERS A4Q1.NUM_REQUESTS 20
       (λ _, inl "No such file or directory") ["./A4Q1"; "300"; "UP"]
       (mkWorld ∅ EmptyString EmptyString)
       ("ERROR: Initial head must be between 0 and 299." +:+ nl) H1 H2 eq_refl)))).
Defined.

(** ** What [atoi] makes of the first argument *)

Lemma is_nat_pretty_N_char (d : N) :
  (d < 10)%N → Ascii.is_nat (pretty_N_char d) = Some (N.to_nat d).
Proof.
  intros Hd.
  destruct d as [|p]; [reflexivity|].
  do 4 (destruct p as [p|p|]; try reflexivity; try lia).
Qed.

Lemma digit_first (c : ascii) (n : nat) (s : string) :
  Ascii.is_nat c = Some n → atoi_value (String c s) = digits 0 (String c s).
Proof.
  destruct c as [[] [] [] [] [] [] [] []]; cbn [Ascii.is_nat]; intros H;
    try discriminate H; reflexivity.
Qed.

Lemma digits_no_leading_digit (acc : Z) (s : string) :
  no_leading_digit s → digits acc s = acc.
Proof. destruct s as [|c s]; cbn [no_leading_digit digits]; [done|]. by intros ->. Qed.

Lemma pretty_N_go_app (x : N) : ∀ s t, pretty_N_go x s +:+ t = pretty_N_go x (s +:+ t).
Proof.
  induction (N.lt_wf_0 x) as [x _ IH]. intros s t.
  destruct (decide (0 < x)%N) as [Hx|Hx].
  - rewrite !(pretty_N_go_step x) by done.
    rewrite IH by (by apply N.div_lt). reflexivity.
  - assert (x = 0%N) as -> by lia. by rewrite !pretty_N_go_0.
Qed.

Lemma digits_pretty_N_go (x : N) :
  ∀ s, ∃ k, 0 ≤ k ∧ ∀ acc, digits acc (pretty_N_go x s) = digits (acc * 10 ^ k + Z.of_N x) s.
Proof.
  induction (N.lt_wf_0 x) as [x _ IH]. intros s.
  destruct (decide (0 < x)%N) as [Hx|Hx].
  - rewrite (pretty_N_go_step x) by done.
    destruct (IH (x `div` 10)%N ltac:(by apply N.div_lt)
                (String (pretty_N_char (x `mod` 10)) s)) as (k & Hk & E).
    exists (k + 1). split; [lia|]. intros acc. rewrite E. cbn [digits].
    rewrite is_nat_pretty_N_char by (by apply N.mod_lt).
    f_equal. rewrite N_nat_Z, Z.pow_add_r, Z.pow_1_r by lia.
    pose proof (N.div_mod' x 10) as Hdm.
    rewrite N2Z.inj_div, N2Z.inj_mod.
    pose proof (Z.div_mod (Z.of_N x) 10 ltac:(lia)).
    change (Z.of_N 10) with 10. lia.
  - assert (x = 0%N) as -> by lia. exists 0. split; [lia|]. intros acc.
    rewrite pretty_N_go_0. f_equal. cbn. lia.
Qed.

Lemma pretty_positive_app (p : positive) (junk : string) :
  pretty (Npos p) +:+ junk = pretty_N_go (Npos p) junk.
Proof.
  unfold pretty, pretty_N. rewrite decide_False by done.
  by rewrite pretty_N_go_app.
Qed.

Lemma digits_pretty_positive (p : positive) (junk : string) :
  no_leading_digit junk → digits 0 (pretty (Npos p) +:+ junk) = Z.pos p.
Proof.
  intros Hj. rewrite pretty_positive_app.
  destruct (digits_pretty_N_go (Npos p) junk) as (k & _ & E).
  rewrite E, digits_no_leading_digit by done. cbn. lia.
Qed.

Lemma pretty_N_go_first (x : N) :
  (0 < x)%N → ∀ s, ∃ d t, (d < 10)%N ∧ pretty_N_go x s = String (pretty_N_char d) t.
Proof.
  induction (N.lt_wf_0 x) as [x _ IH]. intros Hx s.
  rewrite (pretty_N_go_step x) by done.
  destruct (N.eq_dec (x `div` 10)%N 0%N) as [E|E].
  - rewrite E, pretty_N_go_0.
    eexists _, _. split; [|reflexivity]. by apply N.mod_lt.
  - apply IH; [by apply N.div_lt|]. by apply N.neq_0_lt_0.
Qed.

Lemma atoi_value_pretty (z : Z) (junk : string) :
  no_leading_digit junk → atoi_value (pretty z +:+ junk) = z.
Proof.
  intros Hj. destruct z as [|p|p].
  - change (pretty 0 +:+ junk) with (String "0"%char junk).
    rewrite (digit_first _ 0%nat) by reflexivity. cbn [digits Ascii.is_nat].
    by rewrite digits_no_leading_digit.
  - change (pretty (Z.pos p)) with (pretty (Npos p)).
    pose proof (digits_pretty_positive p junk Hj) as E.
    rewrite pretty_positive_app in E |- *.
    destruct (pretty_N_go_first (Npos p) ltac:(lia) junk) as (d & t & Hd & Et).
    rewrite Et in E |- *.
    rewrite (digit_first _ _ _ (is_nat_pretty_N_char d Hd)). exact E.
  - change (pretty (Z.neg p) +:+ junk) with (String "-"%char (pretty (Npos p) +:+ junk)).
    unfold atoi_value. cbn [skip_spaces Ascii.is_space].
    by rewrite digits_pretty_positive.
Qed.

Lemma atoi_value_no_number (s : string) : no_leading_number s → atoi_value s = 0.
Proof.
  destruct s as [|c s]; [reflexivity|]. cbn [no_leading_number].
  intros (Hsp & Hm & Hp & Hd). unfold atoi_value. cbn [skip_spaces]. rewrite Hsp.
  destruct c as [[] [] [] [] [] [] [] []]; try done; cbn [digits]; by rewrite Hd.
Qed.

Lemma main_start_only_by_value (C N : Z) (fuel : nat) (fs : files)
    (prog a1 a1' a2 : string) (w : world) :
  atoi_value a1 = atoi_value a1' →
  main C N fuel fs [prog; a1; a2] w = main C N fuel fs [prog; a1'; a2] w.
Proof.
  intros E. unfold main. cbn [length].
  change (default EmptyString ([prog; a1; a2] !! 1%nat)) with a1.
  change (default EmptyString ([prog; a1'; a2] !! 1%nat)) with a1'.
  unfold atoi. by rewrite E.
Qed.

(** X22.  [main] reads the initial position with [atoi], which is lenient:
    whatever follows the decimal numeral in the argument, provided it does
    not begin with a digit, is silently ignored, so that the program behaves
    exactly as on the bare numeral; and an argument that begins with no
    number at all (empty, or a first character that is neither white space,
    a sign nor a digit) is taken as position 0. *)
Theorem main_initial_position_is_lenient (C N : Z) (fuel : nat) (fs : files)
    (prog a2 : string) (w : world) (z : Z) (junk s : string) :
  no_leading_digit junk →
  no_leading_number s →
  main C N fuel fs [prog; pretty z +:+ junk; a2] w =
    main C N fuel fs [prog; pretty z; a2] w ∧
  main C N fuel fs [prog; s; a2] w = main C N fuel fs [prog; pretty 0; a2] w.
Proof.
  intros Hj Hs. split; apply main_start_only_by_value.
  - rewrite (atoi_value_pretty z junk Hj).
    rewrite <- (string_app_nil_r (pretty z)). by rewrite atoi_value_pretty.
  - by rewrite (atoi_value_no_number s Hs).
Qed.

Lemma main_initial_position_is_lenient_witness :
  no_leading_digit "rd cylinder" ∧
  no_leading_number "fifty" ∧
  main A4Q1.NUM_CYLINDERS A4Q1.NUM_REQUESTS 20 (λ _, inr sample_requests)
    ["./A4Q1"; pretty 53 +:+ "rd cylinder"; "LEFT"] (mkWorld ∅ EmptyString EmptyString) =
    main A4Q1.NUM_CYLINDERS A4Q1.NUM_REQUESTS 20 (λ _, inr sample_requests)
      ["./A4Q1"; pretty 53; "LEFT"] (mkWorld ∅ EmptyString EmptyString) ∧
  main A4Q1.NUM_CYLINDERS A4Q1.NUM_REQUESTS 20 (λ _, inr sample_requests)
    ["./A4Q1"; "fifty"; "LEFT"] (mkWorld ∅ EmptyString EmptyString) =
    main A4Q1.NUM_CYLINDERS A4Q1.NUM_REQUESTS 20 (λ _, inr sample_requests)
      ["./A4Q1"; pretty 0; "LEFT"] (mkWorld ∅ EmptyString EmptyString).
Proof.
  assert (H1 : no_leading_digit "rd cylinder") by reflexivity.
  assert (H2 : no_leading_number "fifty").
  { cbn. split; [reflexivity|]. split; [discriminate|]. split; [discriminate|reflexivity]. }
  exact (conj H1 (conj H2
    (main_initial_position_is_lenient A4Q1.NUM_CYLINDERS A4Q1.NUM_REQUESTS 20
       (λ _, inr sample_requests) "./A4Q1" "LEFT" (mkWorld ∅ EmptyString EmptyString)
       53 "rd cylinder" "fifty" H1 H2))).
Defined.

(** ** The circular sweeps against the plain ones, and the best schedule *)

Lemma travel_two_points s head a b :
  a ∈ s → b ∈ s →
  Z.min (Z.abs (a - head)) (Z.abs (b - head)) + Z.abs (b - a) ≤ travel s head.
Proof.
  revert head. induction s as [|x rest IH]; intros head Ha Hb.
  - by apply elem_of_nil in Ha.
  - cbn [travel]. pose proof (travel_nonneg rest x) as Hnn.
    apply elem_of_cons in Ha as [->|Ha]; apply elem_of_cons in Hb as [->|Hb].
    + lia.
    + pose proof (travel_reaches rest x b Hb). lia.
    + pose proof (travel_reaches rest x a Ha). lia.
    + specialize (IH x Ha Hb). lia.
Qed.

(** X23.  On every sorted request array and for either direction, a
    circular sweep never moves the head less than its plain counterpart:
    the total movement of [schedule_scan] is at most that of
    [schedule_cscan], and the total movement of [schedule_look] is at most
    that of [schedule_clook]. *)
Theorem circular_sweeps_move_at_least_as_far (C N : Z) (m : mem) (sorted : block)
    (srt : list Z) (start : Z) (dir : Direction) :
  config_ok C N →
  m !! sorted = Some (cells_of srt) →
  Z.of_nat (length srt) = N →
  Forall (cylinder C) srt →
  Sorted Z.le srt →
  cylinder C start →
  ∃ r_scan r_cscan r_look r_clook,
    run (schedule_scan C N sorted start dir) m = inr (r_scan, m) ∧
    run (schedule_cscan C N sorted start dir) m = inr (r_cscan, m) ∧
    run (schedule_look N sorted start dir) m = inr (r_look, m) ∧
    run (schedule_clook N sorted start dir) m = inr (r_clook, m) ∧
    movement r_scan ≤ movement r_cscan ∧
    movement r_look ≤ movement r_clook.
Proof.
  intros Hc Hm Hlen Hcyl Hs Hstart.
  destruct (sweep_runs C N m sorted srt start Hc Hm Hlen Hcyl Hs Hstart) as [_ Hrun].
  destruct (below_facts C srt start Hcyl Hs) as (HBs & HBlt & HBc).
  destruct (above_facts C srt start Hcyl Hs) as (HAs & HAge & HAc).
  eexists _, _, _, _.
  split; [exact (Hrun SCAN dir)|]. split; [exact (Hrun CSCAN dir)|].
  split; [exact (Hrun LOOK dir)|]. split; [exact (Hrun CLOOK dir)|].
  cbn [movement service_order].
  unfold scan_order, cscan_order, look_order, clook_order.
  set (B := below srt start) in *. set (A := above srt start) in *.
  pose proof (lowest_bounds C B start HBlt HBc Hstart) as Hlo.
  pose proof (highest_bounds C A start HAge HAc Hstart) as Hhi.
  assert (HhdA : 0 ≤ hd (C - 1) A ≤ C - 1).
  { destruct A as [|a A']; cbn [hd]; [unfold cylinder in Hstart; lia|].
    apply Forall_cons_1 in HAc as [Ha _]. unfold cylinder in Ha. lia. }
  assert (HhdB : 0 ≤ hd (C - 1) B ≤ C - 1).
  { destruct B as [|b B']; cbn [hd]; [unfold cylinder in Hstart; lia|].
    apply Forall_cons_1 in HBc as [Hb _]. unfold cylinder in Hb. lia. }
  assert (HlastA : 0 ≤ List.last A 0 ≤ C - 1).
  { destruct (last_nil_or_same A 0 start) as [(_ & E & _)|[E _]]; rewrite E;
      [unfold cylinder in Hstart; lia|lia]. }
  assert (HlastB : 0 ≤ List.last B 0 ≤ C - 1).
  { destruct (last_nil_or_same B 0 start) as [(_ & E & _)|[E Hin]]; rewrite E;
      [unfold cylinder in Hstart; lia|].
    rewrite E in Hin. rewrite Forall_forall in HBc. specialize (HBc _ Hin).
    unfold cylinder in HBc. lia. }
  destruct dir; cbv match.
  - split.
    + rewrite (travel_scan_left C B A start), (travel_cscan_left C B A start) by done. lia.
    + rewrite !travel_app, last_reverse_hd.
      rewrite (travel_ascending A (hd start B)).
      2: done.
      2:{ eapply Forall_impl; [exact HAge|]. cbn. intros. lia. }
      destruct (last_nil_or_same A (hd start B) start) as [(-> & _ & _)|[E Hin]].
      * cbn. lia.
      * rewrite E in Hin |- *.
        assert (Hin' : List.last A start ∈ reverse A) by (by apply elem_of_reverse).
        pose proof (travel_reaches _ (hd start B) _ Hin'). lia.
  - split.
    + rewrite (travel_scan_right C B A start), (travel_cscan_right C B A start) by done. lia.
    + rewrite !travel_app.
      rewrite (travel_descending B (List.last A start)).
      2: done.
      2:{ eapply Forall_impl; [exact HBlt|]. cbn. intros. lia. }
      destruct (hd_nil_or_same B (List.last A start) start) as [(-> & _ & _)|[E Hin]].
      * cbn. lia.
      * rewrite E in Hin |- *.
        pose proof (travel_reaches _ (List.last A start) _ Hin). lia.
Qed.

Lemma circular_sweeps_move_at_least_as_far_witness :
  config_ok A4Q1.NUM_CYLINDERS A4Q1.NUM_REQUESTS ∧
  sample_mem !! 2%positive = Some (cells_of sample_sorted) ∧
  Z.of_nat (length sample_sorted) = A4Q1.NUM_REQUESTS ∧
  Forall (cylinder A4Q1.NUM_CYLINDERS) sample_sorted ∧
  Sorted Z.le sample_sorted ∧
  cylinder A4Q1.NUM_CYLINDERS 53 ∧
  ∃ r_scan r_cscan r_look r_clook,
    run (schedule_scan A4Q1.NUM_CYLINDERS A4Q1.NUM_REQUESTS 2%positive 53 DIR_RIGHT)
      sample_mem = inr (r_scan, sample_mem) ∧
    run (schedule_cscan A4Q1.NUM_CYLINDERS A4Q1.NUM_REQUESTS 2%positive 53 DIR_RIGHT)
      sample_mem = inr (r_cscan, sample_mem) ∧
    run (schedule_look A4Q1.NUM_REQUESTS 2%positive 53 DIR_RIGHT) sample_mem =
      inr (r_look, sample_mem) ∧
    run (schedule_clook A4Q1.NUM_REQUESTS 2%positive 53 DIR_RIGHT) sample_mem =
      inr (r_clook, sample_mem) ∧
    movement r_scan ≤ movement r_cscan ∧
    movement r_look ≤ movement r_clook.
Proof.
  pose proof sample_valid as [_ H2 _ _ _ H6 H7].
  assert (H3 : Z.of_nat (length sample_sorted) = A4Q1.NUM_REQUESTS) by reflexivity.
  assert (H4 : Forall (cylinder A4Q1.NUM_CYLINDERS) sample_sorted)
    by (apply (bool_decide_unpack _); vm_compute; exact I).
  exact (conj config_source (conj H2 (conj H3 (conj H4 (conj H6 (conj H7
    (circular_sweeps_move_at_least_as_far A4Q1.NUM_CYLINDERS A4Q1.NUM_REQUESTS sample_mem
       2%positive sample_sorted 53 DIR_RIGHT config_source H2 H3 H4 H6 H7))))))).
Defined.

Lemma look_lower_bound C srt start s :
  Forall (cylinder C) srt → Sorted Z.le srt → cylinder C start →
  (∀ x, x ∈ srt → x ∈ s) →
  Z.min (travel (look_order srt start DIR_LEFT) start)
        (travel (look_order srt start DIR_RIGHT) start) ≤ travel s start.
Proof.
  intros Hcyl Hs Hstart Hall.
  destruct (below_facts C srt start Hcyl Hs) as (HBs & HBlt & HBc).
  destruct (above_facts C srt start Hcyl Hs) as (HAs & HAge & HAc).
  cbn [look_order].
  rewrite (travel_look_left C (below srt start) (above srt start) start) by done.
  rewrite (travel_look_right C (below srt start) (above srt start) start) by done.
  assert (HinB : ∀ x, x ∈ below srt start → x ∈ s).
  { intros x Hx. apply Hall. rewrite <- (below_above srt start). apply elem_of_app. by left. }
  assert (HinA : ∀ x, x ∈ above srt start → x ∈ s).
  { intros x Hx. apply Hall. rewrite <- (below_above srt start). apply elem_of_app. by right. }
  set (B := below srt start) in *. set (A := above srt start) in *.
  pose proof (travel_nonneg s start) as Hnn.
  pose proof (lowest_bounds C B start HBlt HBc Hstart) as Hlo.
  pose proof (highest_bounds C A start HAge HAc Hstart) as Hhi.
  destruct (hd_nil_or_same B start (List.last A start)) as [(HB0 & _ & _)|[E HB]];
    destruct (last_nil_or_same A start (hd start B)) as [(HA0 & _ & _)|[E' HA]];
    try rewrite HB0 in *; try rewrite HA0 in *; cbn [hd List.last] in *.
  - lia.
  - pose proof (travel_reaches s start _ (HinA _ HA)). lia.
  - pose proof (travel_reaches s start _ (HinB _ HB)). lia.
  - pose proof (travel_two_points s start _ _ (HinB _ HB) (HinA _ HA)). lia.
Qed.

(** X24.  LOOK in its better direction is optimal.  On every valid input
    the smaller of the two total movements [schedule_look] reports for
    DIR_LEFT and DIR_RIGHT is at most the total movement of each of the six
    functions in either direction, and at most the movement of any service
    order whatsoever that contains every request. *)
Theorem no_schedule_beats_look (C N : Z) (m : mem) (req sorted : block)
    (reqs srt : list Z) (start : Z) (fuel : nat) :
  config_ok C N →
  valid_input C N m req sorted reqs srt start →
  (Z.to_nat N ≤ fuel)%nat →
  ∃ r_left r_right,
    run (schedule_look N sorted start DIR_LEFT) m = inr (r_left, m) ∧
    run (schedule_look N sorted start DIR_RIGHT) m = inr (r_right, m) ∧
    (∀ alg dir, ∃ r,
       run (schedule C N fuel alg req sorted start dir) m = inr (r, m) ∧
       Z.min (movement r_left) (movement r_right) ≤ movement r) ∧
    (∀ s, (∀ x, x ∈ reqs → x ∈ s) →
       Z.min (movement r_left) (movement r_right) ≤ movement_sum s start).
Proof.
  intros Hc Hv Hfuel.
  pose proof (run_schedule C N m req sorted reqs srt start Hc Hv fuel) as Hrun.
  pose proof Hv as [_ _ _ Hcyl Hp Hs Hstart].
  assert (Hcs : Forall (cylinder C) srt) by (by rewrite Hp).
  eexists _, _.
  split; [exact (Hrun LOOK DIR_LEFT Hfuel)|]. split; [exact (Hrun LOOK DIR_RIGHT Hfuel)|].
  cbn [movement service_order]. split.
  - intros alg dir. eexists. split; [exact (Hrun alg dir Hfuel)|]. cbn [movement].
    apply (look_lower_bound C); try done. intros x Hx.
    destruct (service_order_split C N m req sorted reqs srt start Hc Hv alg dir)
      as (pre & post & -> & Hpp).
    rewrite Hp, <- Hpp in Hx. apply elem_of_app in Hx. rewrite !elem_of_app. tauto.
  - intros s Hall. rewrite movement_sum_travel.
    apply (look_lower_bound C); try done. intros x Hx. apply Hall. by rewrite <- Hp.
Qed.

Lemma no_schedule_beats_look_witness :
  config_ok A4Q1.NUM_CYLINDERS A4Q1.NUM_REQUESTS ∧
  valid_input A4Q1.NUM_CYLINDERS A4Q1.NUM_REQUESTS sample_mem 1%positive 2%positive
    sample_requests sample_sorted 53 ∧
  (Z.to_nat A4Q1.NUM_REQUESTS ≤ 20)%nat ∧
  ∃ r_left r_right,
    run (schedule_look A4Q1.NUM_REQUESTS 2%positive 53 DIR_LEFT) sample_mem =
      inr (r_left, sample_mem) ∧
    run (schedule_look A4Q1.NUM_REQUESTS 2%positive 53 DIR_RIGHT) sample_mem =
      inr (r_right, sample_mem) ∧
    (∀ alg dir, ∃ r,
       run (schedule A4Q1.NUM_CYLINDERS A4Q1.NUM_REQUESTS 20 alg 1%positive 2%positive
              53 dir) sample_mem = inr (r, sample_mem) ∧
       Z.min (movement r_left) (movement r_right) ≤ movement r) ∧
    (∀ s, (∀ x, x ∈ sample_requests → x ∈ s) →
       Z.min (movement r_left) (movement r_right) ≤ movement_sum s 53).
Proof.
  assert (Hf : (Z.to_nat A4Q1.NUM_REQUESTS ≤ 20)%nat) by (vm_compute; lia).
  exact (conj config_source (conj sample_valid (conj Hf
    (no_schedule_beats_look A4Q1.NUM_CYLINDERS A4Q1.NUM_REQUESTS sample_mem
       1%positive 2%positive sample_requests sample_sorted 53 20%nat
       config_source sample_valid Hf)))).
Defined.
